(** * Subscriber registry and event broadcast (package [events])

    A shallow embedding of [events/eventhandler.go]: the process-wide table
    [gameSubscribers], the three operations on it and the two broadcast
    loops, together with the part of the Go runtime they rely on (buffered
    channels, [close], and a [select] with a send case, a receive on
    [Context.Done()] and a [default]). *)

From Stdlib.Strings Require Import Ascii Byte.
From stdpp Require Import gmap strings list fin_maps.

Set Default Proof Using "Type".
Set Warnings "-clear-no-such-hyp".

(** ** Data model *)

(** [interface{}] payloads, as far as the package builds them: the status
    broadcast stores a [map[string]interface{}] holding the game id and the
    [*models.Game] pointer (an address here); every other payload is built
    by callers and is opaque to this package. *)
#[warnings="-register-all"]
Inductive any :=
  | AString (s : string)
  | AGame (ptr : nat)
  | AMap (entries : list (string * any))
  | AOpaque (n : nat).

(** [models.GameEvent]. The Go field [Type] is spelled [Type_]; the field
    [GameID] of the event is [EventGameID], since [GameID] names the
    subscriber's field below. *)
Record GameEvent := mkGameEvent {
  Type_ : string;
  EventGameID : string;
  Data : any
}.

(** [models.GameSubscriber]. [Channel] and [Context] are references: the
    channel lives in the heap of the [World], the context is named by the
    identifier of its cancellation signal. *)
Record GameSubscriber := mkGameSubscriber {
  ID : string;
  GameID : string;
  Channel : nat;
  Context : nat
}.

#[global] Instance GameSubscriber_eq_dec : EqDecision GameSubscriber.
Proof. solve_decision. Defined.

(** A buffered channel: the events held, the capacity given to [make], and
    whether [close] has been called. *)
Record chan := mkchan {
  buf : list GameEvent;
  cap : nat;
  closed : bool
}.

(** The state the package works on: the global table, the channels
    allocated so far (a reference is an index; one that names no channel
    behaves as Go's nil channel) and the cancellation signals that have
    fired. *)
Record World := mkWorld {
  gameSubscribers : gmap string (list GameSubscriber);
  chans : list chan;
  fired : gset nat
}.

Definition empty_world : World :=
  {| gameSubscribers := ∅; chans := []; fired := ∅ |}.

(** A call either returns or panics (close of a closed or nil channel, send
    on a closed channel). *)
Inductive result (A : Type) :=
  | Ok (a : A)
  | Panic.
Arguments Ok {A} a.
Arguments Panic {A}.

Definition bind {A B} (r : result A) (k : A → result B) : result B :=
  match r with
  | Ok a => k a
  | Panic => Panic
  end.

Notation "x ←r e1 ; e2" := (bind e1 (λ x, e2))
  (at level 100, e1 at next level, right associativity).

(** ** Runtime primitives *)

Definition make_chan (capacity : nat) : chan :=
  {| buf := []; cap := capacity; closed := false |}.

Definition chan_send (c : chan) (event : GameEvent) : chan :=
  {| buf := buf c ++ [event]; cap := cap c; closed := closed c |}.

Definition chan_close (c : chan) : chan :=
  {| buf := buf c; cap := cap c; closed := true |}.

(** [<-ch] by the consumer, when an event is waiting. *)
Definition chan_recv (c : chan) : chan :=
  {| buf := tail (buf c); cap := cap c; closed := closed c |}.

(** [close(ch)]: panics on a nil channel and on a closed one. *)
Definition close_chan (r : nat) (h : list chan) : result (list chan) :=
  match h !! r with
  | None => Panic
  | Some c => if closed c then Panic else Ok (<[r := chan_close c]> h)
  end.

(** What a non-blocking send finds: a nil channel and a full buffer are not
    ready, a closed channel is ready and panics. *)
Inductive send_status := SendBlocks | SendProceeds | SendToClosed.

Definition try_send (oc : option chan) : send_status :=
  match oc with
  | None => SendBlocks
  | Some c =>
      if closed c then SendToClosed
      else if bool_decide (length (buf c) < cap c) then SendProceeds
      else SendBlocks
  end.

(** The order in which the runtime polls the two communication cases of the
    [select]; Go draws it at random on every execution, and the first case
    that can proceed is taken. *)
Inductive pollorder := SendFirst | DoneFirst.

Inductive selected := CaseSend | CaseDone | CaseDefault | SendPanics.

(** [select { case ch <- event: case <-ctx.Done(): default: }] *)
Definition select (oc : option chan) (done : bool) (po : pollorder) : selected :=
  match po with
  | SendFirst =>
      match try_send oc with
      | SendToClosed => SendPanics
      | SendProceeds => CaseSend
      | SendBlocks => if done then CaseDone else CaseDefault
      end
  | DoneFirst =>
      if done then CaseDone
      else match try_send oc with
           | SendToClosed => SendPanics
           | SendProceeds => CaseSend
           | SendBlocks => CaseDefault
           end
  end.

(** ** The package *)

Definition hex_digit (n : nat) : ascii :=
  match n with
  | 0 => "0" | 1 => "1" | 2 => "2" | 3 => "3" | 4 => "4" | 5 => "5"
  | 6 => "6" | 7 => "7" | 8 => "8" | 9 => "9" | 10 => "a" | 11 => "b"
  | 12 => "c" | 13 => "d" | 14 => "e" | _ => "f"
  end%char.

(** [fmt.Sprintf("%x", bytes)] *)
Fixpoint sprintf_x (bytes : list byte) : string :=
  match bytes with
  | [] => ""%string
  | b :: rest =>
      let n := Byte.to_nat b in
      String (hex_digit (n / 16)) (String (hex_digit (n mod 16)) (sprintf_x rest))
  end.

(** [generateSubscriberID]; [rnd] is what [rand.Read] writes into the
    eight-byte buffer. *)
Definition generateSubscriberID (rnd : list byte) : string :=
  sprintf_x (resize 8 x00 rnd).

(** [CreateGameSubscriber]: the new channel is the next free reference. *)
Definition CreateGameSubscriber (gameID : string) (ctx : nat) (rnd : list byte)
    (w : World) : World * GameSubscriber :=
  let subscriber :=
    {| ID := generateSubscriberID rnd;
       GameID := gameID;
       Channel := length (chans w);
       Context := ctx |} in
  ({| gameSubscribers :=
        <[gameID := default [] (gameSubscribers w !! gameID) ++ [subscriber]]>
          (gameSubscribers w);
      chans := chans w ++ [make_chan 10];
      fired := fired w |},
   subscriber).

(** The closing test of [RemoveGameSubscriber]:
    [if len(gameSubscribers[id]) == 0 { delete(gameSubscribers, id) }]. *)
Definition delete_if_empty (gameID : string)
    (table : gmap string (list GameSubscriber)) : gmap string (list GameSubscriber) :=
  if bool_decide (length (default [] (table !! gameID)) = 0)
  then delete gameID table
  else table.

(** [RemoveGameSubscriber]. The loop stops at the first entry whose [ID]
    matches; [append(subscribers[:i], subscribers[i+1:]...)] is the slice
    without entry [i], and the channel closed is that of the entry found. *)
Definition RemoveGameSubscriber (subscriber : GameSubscriber) (w : World)
    : result World :=
  match gameSubscribers w !! GameID subscriber with
  | None => Ok w
  | Some subscribers =>
      match list_find (λ sub, ID sub = ID subscriber) subscribers with
      | Some (i, sub) =>
          h ←r close_chan (Channel sub) (chans w);
          Ok {| gameSubscribers :=
                  delete_if_empty (GameID subscriber)
                    (<[GameID subscriber := delete i subscribers]> (gameSubscribers w));
                chans := h;
                fired := fired w |}
      | None =>
          Ok {| gameSubscribers :=
                  delete_if_empty (GameID subscriber) (gameSubscribers w);
                chans := chans w;
                fired := fired w |}
      end
  end.

(** The body of [for _, subscriber := range subscribers { select ... }] in
    [BroadcastGameEvent]. [po i] is the poll order drawn at iteration [i];
    the result is the heap and the goroutines started with
    [go RemoveGameSubscriber(subscriber)], in the order they were started. *)
Fixpoint range_select (event : GameEvent) (po : nat → pollorder)
    (cancelled : gset nat) (i : nat) (subscribers : list GameSubscriber)
    (h : list chan) (spawned : list GameSubscriber)
    : result (list chan * list GameSubscriber) :=
  match subscribers with
  | [] => Ok (h, spawned)
  | subscriber :: rest =>
      match select (h !! Channel subscriber)
                   (bool_decide (Context subscriber ∈ cancelled)) (po i) with
      | CaseSend =>
          range_select event po cancelled (S i) rest
            (alter (λ c, chan_send c event) (Channel subscriber) h) spawned
      | CaseDone =>
          range_select event po cancelled (S i) rest h (spawned ++ [subscriber])
      | CaseDefault =>
          range_select event po cancelled (S i) rest h spawned
      | SendPanics => Panic
      end
  end.

(** [BroadcastGameEvent] *)
Definition BroadcastGameEvent (gameID : string) (event : GameEvent)
    (po : nat → pollorder) (w : World) : result (World * list GameSubscriber) :=
  match gameSubscribers w !! gameID with
  | None => Ok (w, [])
  | Some subscribers =>
      r ←r range_select event po (fired w) 0 subscribers (chans w) [];
      Ok ({| gameSubscribers := gameSubscribers w; chans := r.1; fired := fired w |},
          r.2)
  end.

(** The event built inside the loop of [BroadcastPersonalizedGameStatus]. *)
Definition status_event (gameID : string) (game : nat) : GameEvent :=
  {| Type_ := "game_status";
     EventGameID := gameID;
     Data := AMap [("gameID"%string, AString gameID); ("game"%string, AGame game)] |}.

(** The loop of [BroadcastPersonalizedGameStatus], which builds its event
    anew at every iteration. *)
Fixpoint range_select_status (gameID : string) (game : nat) (po : nat → pollorder)
    (cancelled : gset nat) (i : nat) (subscribers : list GameSubscriber)
    (h : list chan) (spawned : list GameSubscriber)
    : result (list chan * list GameSubscriber) :=
  match subscribers with
  | [] => Ok (h, spawned)
  | subscriber :: rest =>
      let event := status_event gameID game in
      match select (h !! Channel subscriber)
                   (bool_decide (Context subscriber ∈ cancelled)) (po i) with
      | CaseSend =>
          range_select_status gameID game po cancelled (S i) rest
            (alter (λ c, chan_send c event) (Channel subscriber) h) spawned
      | CaseDone =>
          range_select_status gameID game po cancelled (S i) rest h
            (spawned ++ [subscriber])
      | CaseDefault =>
          range_select_status gameID game po cancelled (S i) rest h spawned
      | SendPanics => Panic
      end
  end.

(** [BroadcastPersonalizedGameStatus] *)
Definition BroadcastPersonalizedGameStatus (gameID : string) (game : nat)
    (po : nat → pollorder) (w : World) : result (World * list GameSubscriber) :=
  match gameSubscribers w !! gameID with
  | None => Ok (w, [])
  | Some subscribers =>
      r ←r range_select_status gameID game po (fired w) 0 subscribers (chans w) [];
      Ok ({| gameSubscribers := gameSubscribers w; chans := r.1; fired := fired w |},
          r.2)
  end.

(** The lookup the broadcasts start with, as a view: the slice stored under
    the key, the nil slice when the key is absent. *)
Definition SubscribersFor (w : World) (gameID : string) : list GameSubscriber :=
  default [] (gameSubscribers w !! gameID).

(** ** Executions *)

(** What the rest of the program does with the package: the calls it makes,
    the consumer taking the next event off a channel
    ([case event := <-subscriber.Channel] in the stream handler) and a
    cancellation signal firing. Calls run one after the other: a goroutine
    started by a broadcast runs [RemoveGameSubscriber] once the broadcast
    has returned, at some later point of the sequence, where it is a
    [Deregister]. *)
Inductive call :=
  | Register (gameID : string) (ctx : nat) (rnd : list byte)
  | Deregister (subscriber : GameSubscriber)
  | Broadcast (gameID : string) (event : GameEvent) (po : nat → pollorder)
  | BroadcastPersonalized (gameID : string) (game : nat) (po : nat → pollorder)
  | Receive (ch : nat)
  | Cancel (ctx : nat).

Definition receive (r : nat) (w : World) : World :=
  {| gameSubscribers := gameSubscribers w;
     chans := alter chan_recv r (chans w);
     fired := fired w |}.

Definition cancel (ctx : nat) (w : World) : World :=
  {| gameSubscribers := gameSubscribers w;
     chans := chans w;
     fired := {[ctx]} ∪ fired w |}.

Definition step (c : call) (w : World) : result World :=
  match c with
  | Register gameID ctx rnd => Ok (CreateGameSubscriber gameID ctx rnd w).1
  | Deregister subscriber => RemoveGameSubscriber subscriber w
  | Broadcast gameID event po =>
      r ←r BroadcastGameEvent gameID event po w; Ok r.1
  | BroadcastPersonalized gameID game po =>
      r ←r BroadcastPersonalizedGameStatus gameID game po w; Ok r.1
  | Receive ch => Ok (receive ch w)
  | Cancel ctx => Ok (cancel ctx w)
  end.

Fixpoint run (cs : list call) (w : World) : result World :=
  match cs with
  | [] => Ok w
  | c :: rest => w' ←r step c w; run rest w'
  end.

(** The goroutines a broadcast started, run one after the other. *)
Fixpoint run_spawned (spawned : list GameSubscriber) (w : World) : result World :=
  match spawned with
  | [] => Ok w
  | subscriber :: rest =>
      w' ←r RemoveGameSubscriber subscriber w; run_spawned rest w'
  end.

(** ** Well-formed worlds *)

Record wf (w : World) : Prop := mkwf {
  wf_nonempty : ∀ k l, gameSubscribers w !! k = Some l → l ≠ [];
  wf_key : ∀ k l s, gameSubscribers w !! k = Some l → s ∈ l → GameID s = k;
  wf_open : ∀ k l s, gameSubscribers w !! k = Some l → s ∈ l →
    ∃ c, chans w !! Channel s = Some c ∧ closed c = false;
  wf_nodup : ∀ k l, gameSubscribers w !! k = Some l → NoDup (Channel <$> l);
  wf_apart : ∀ k1 l1 s1 k2 l2 s2,
    gameSubscribers w !! k1 = Some l1 → s1 ∈ l1 →
    gameSubscribers w !! k2 = Some l2 → s2 ∈ l2 →
    Channel s1 = Channel s2 → k1 = k2;
  wf_cap : ∀ r c, chans w !! r = Some c → length (buf c) ≤ cap c ∧ cap c = 10
}.

(** The three things a broadcast can do to one subscriber, read off the
    heap before and after the call and the goroutines it started. *)
Definition enqueued (event : GameEvent) (s : GameSubscriber)
    (h h' : list chan) (spawned : list GameSubscriber) : Prop :=
  h' !! Channel s = (λ c, chan_send c event) <$> h !! Channel s ∧ s ∉ spawned.

Definition removal_scheduled (s : GameSubscriber)
    (h h' : list chan) (spawned : list GameSubscriber) : Prop :=
  h' !! Channel s = h !! Channel s ∧ s ∈ spawned.

Definition dropped (s : GameSubscriber)
    (h h' : list chan) (spawned : list GameSubscriber) : Prop :=
  h' !! Channel s = h !! Channel s ∧ s ∉ spawned.

Definition has_room (oc : option chan) : Prop :=
  ∃ c, oc = Some c ∧ length (buf c) < cap c.

Definition is_full (oc : option chan) : Prop :=
  ∃ c, oc = Some c ∧ cap c ≤ length (buf c).

(** ** Scenarios and stated properties *)

Definition world_of (cs : list call) : World :=
  match run cs empty_world with
  | Ok w => w
  | Panic => empty_world
  end.

Definition send_first : nat → pollorder := λ _, SendFirst.
Definition done_first : nat → pollorder := λ _, DoneFirst.

Definition move_event (n : nat) : GameEvent :=
  {| Type_ := "move"; EventGameID := "g1"; Data := AOpaque n |}.

(** The subscriber the first [Register] for "g1" creates. *)
Definition S1 : GameSubscriber :=
  (CreateGameSubscriber "g1" 1 [] empty_world).2.

(** S1 watches "g1". *)
Definition registered_S1 : list call := [Register "g1" 1 []].

(** S1 watches "g1" and its cancellation signal has fired. *)
Definition cancelled_S1 : list call := [Register "g1" 1 []; Cancel 1].

(** The subscriber a second [Register] for "g1" creates. *)
Definition S2 : GameSubscriber :=
  (CreateGameSubscriber "g1" 2 [x01] (world_of registered_S1)).2.

(** Every outcome a broadcast can have for one subscriber. *)
Inductive outcome := Enqueued | RemovalScheduled | Dropped.

Definition outcome_holds (o : outcome) (event : GameEvent) (s : GameSubscriber)
    (h h' : list chan) (spawned : list GameSubscriber) : Prop :=
  match o with
  | Enqueued => enqueued event s h h' spawned
  | RemovalScheduled => removal_scheduled s h h' spawned
  | Dropped => dropped s h h' spawned
  end.

(** "Whenever the cancellation signal has fired, delivery is skipped", as a
    property of every broadcast from a reachable world. *)
Definition fired_signal_skips_delivery : Prop :=
  ∀ cs w gameID event po w' spawned s,
    run cs empty_world = Ok w →
    BroadcastGameEvent gameID event po w = Ok (w', spawned) →
    s ∈ SubscribersFor w gameID →
    Context s ∈ fired w →
    removal_scheduled s (chans w) (chans w') spawned.

(** "After one broadcast to "g1" completes, the cancelled sole subscriber has
    been removed, its queue is closed and the key is absent", as a property
    of the world the broadcast returns. *)
Definition removed_when_broadcast_returns : Prop :=
  ∀ cs w s event po w' spawned,
    run cs empty_world = Ok w →
    SubscribersFor w "g1" = [s] →
    Context s ∈ fired w →
    BroadcastGameEvent "g1" event po w = Ok (w', spawned) →
    SubscribersFor w' "g1" = [] ∧
    gameSubscribers w' !! "g1" = None ∧
    closed <$> chans w' !! Channel s = Some true.

(** "The personalized broadcast is the broadcast of one event of type
    "status"", whatever that event carries. *)
Definition personalized_broadcasts_status_tag : Prop :=
  ∀ gameID game po w,
    ∃ event, Type_ event = "status" ∧
      BroadcastPersonalizedGameStatus gameID game po w =
      BroadcastGameEvent gameID event po w.

(** What a broadcast leaves alone: the table, the signals, and the closed
    flag of every channel; and whom it starts a goroutine for. *)
Definition broadcast_frame (gameID : string) (w : World)
    (r : World * list GameSubscriber) : Prop :=
  gameSubscribers r.1 = gameSubscribers w ∧
  fired r.1 = fired w ∧
  (∀ ch c', chans r.1 !! ch = Some c' →
     ∃ c, chans w !! ch = Some c ∧ closed c' = closed c) ∧
  (∀ s, s ∈ r.2 → s ∈ SubscribersFor w gameID ∧ Context s ∈ fired w).

(** ** The game model (package [models]) *)

Module models.

(** The index type of a [[3]T] and the array itself. *)
Inductive idx := I0 | I1 | I2.

Definition array3 (A : Type) : Type := A * A * A.

Definition get3 {A} (a : array3 A) (i : idx) : A :=
  match a, i with
  | (x, _, _), I0 => x
  | (_, y, _), I1 => y
  | (_, _, z), I2 => z
  end.

Definition set3 {A} (a : array3 A) (i : idx) (v : A) : array3 A :=
  match a, i with
  | (_, y, z), I0 => (v, y, z)
  | (x, _, z), I1 => (x, v, z)
  | (x, y, _), I2 => (x, y, v)
  end.

(** [for i := 0; i < 3; i++] *)
Definition indices : list idx := [I0; I1; I2].

(** [type GameBoard [3][3]string]; [cell b row col] is [b[row][col]] and
    [set_cell b row col v] is the board after [b[row][col] = v]. *)
Definition GameBoard : Type := array3 (array3 string).

Definition cell (b : GameBoard) (row col : idx) : string := get3 (get3 b row) col.

Definition set_cell (b : GameBoard) (row col : idx) (v : string) : GameBoard :=
  set3 b row (set3 (get3 b row) col v).

(** [GameBoard{}] *)
Definition empty_board : GameBoard :=
  let r : array3 string := (""%string, ""%string, ""%string) in (r, r, r).

(** [type Player struct]; the field [ID] is spelled [PlayerID], [JoinedAt]
    is a clock reading. *)
Record Player := mkPlayer {
  PlayerID : string;
  Emoji : string;
  JoinedAt : nat
}.

(** [type GameStatus string] with its six constants. *)
Inductive GameStatus :=
  | GameStatusWaiting
  | GameStatusReady
  | GameStatusActive
  | GameStatusFinished
  | GameStatusDraw
  | GameStatusFull.

Definition MaxPlayersPerGame : nat := 2.

(** [type Game struct]; [Players] maps a player id to the player the stored
    pointer leads to, the two [int] fields are integers. *)
Record Game := mkGame {
  ID : string;
  Board : GameBoard;
  Players : gmap string Player;
  PlayerOrder : list string;
  Status : GameStatus;
  CurrentTurn : Z;
  Winner : string;
  MoveCount : Z
}.

Definition AvailableEmojis : list string :=
  ["🐱"; "🚀"; "🎨"; "🌟"; "🔥"; "⚡"; "🎮"; "🦄"; "🎯"; "🌈"]%string.

#[global] Instance idx_eq_dec : EqDecision idx.
Proof. solve_decision. Defined.

#[global] Instance Player_eq_dec : EqDecision Player.
Proof. solve_decision. Defined.

#[global] Instance GameStatus_eq_dec : EqDecision GameStatus.
Proof. solve_decision. Defined.

End models.

(** ** The game rules and the game store (package [game]) *)

Module game.

(** The order in which a [for ... range] over a map of players visits its
    entries. Go leaves it unspecified and varies it from one loop to the
    next; the functions that range over [Players] take it as an argument,
    and [range_ok] says it visits every entry once. *)
Definition range_order : Type :=
  gmap string models.Player → list (string * models.Player).

Definition range_ok (range : range_order) : Prop :=
  ∀ players, range players ≡ₚ map_to_list players.

(** [for pID, player := range game.Players { if player.Emoji == emoji
    { return pID } }]: the id returned, if the loop returns. *)
Fixpoint range_find_emoji (entries : list (string * models.Player))
    (emoji : string) : option string :=
  match entries with
  | [] => None
  | (pID, player) :: rest =>
      if decide (models.Emoji player = emoji) then Some pID
      else range_find_emoji rest emoji
  end.

(** One test of [CheckWinner]: three cells that hold the same non-empty
    emoji, then the search for the player who owns it. [None] is the fall
    through to the next test. *)
Definition line_winner (range : range_order) (g : models.Game) (a b c : string)
    : option string :=
  if bool_decide (a ≠ ""%string) && bool_decide (a = b) && bool_decide (b = c)
  then range_find_emoji (range (models.Players g)) a
  else None.

(** The first test that returns, in the order the code makes them. *)
Definition first_return (tests : list (option string)) : option string :=
  head (omap id tests).

(** [CheckWinner]: rows, columns, main diagonal, anti-diagonal, and the
    empty string when no test returns. *)
Definition CheckWinner (range : range_order) (g : models.Game) : string :=
  let board := models.Board g in
  let cell := models.cell board in
  default ""%string
    (first_return
       (((λ row, line_winner range g
                   (cell row models.I0) (cell row models.I1) (cell row models.I2))
           <$> models.indices) ++
        ((λ col, line_winner range g
                   (cell models.I0 col) (cell models.I1 col) (cell models.I2 col))
           <$> models.indices) ++
        [line_winner range g (cell models.I0 models.I0) (cell models.I1 models.I1)
                             (cell models.I2 models.I2);
         line_winner range g (cell models.I0 models.I2) (cell models.I1 models.I1)
                             (cell models.I2 models.I0)])).

(** [IsBoardFull] *)
Definition IsBoardFull (g : models.Game) : bool :=
  forallb (λ row,
    forallb (λ col, bool_decide (models.cell (models.Board g) row col ≠ ""%string))
            models.indices)
    models.indices.

Definition IsGameActive (g : models.Game) : bool :=
  bool_decide (models.Status g = models.GameStatusActive).

Definition IsGameFinished (g : models.Game) : bool :=
  bool_decide (models.Status g = models.GameStatusFinished) ||
  bool_decide (models.Status g = models.GameStatusDraw).

Definition IsGameReady (g : models.Game) : bool :=
  bool_decide (models.Status g = models.GameStatusActive) ||
  bool_decide (models.Status g = models.GameStatusFinished) ||
  bool_decide (models.Status g = models.GameStatusDraw).

Definition CanJoinGame (g : models.Game) : bool :=
  bool_decide (size (models.Players g) < models.MaxPlayersPerGame).

(** [GetCurrentPlayerID]; indexing [PlayerOrder] outside its bounds panics. *)
Definition GetCurrentPlayerID (g : models.Game) : result string :=
  if negb (IsGameActive g) || bool_decide (length (models.PlayerOrder g) < 2)
  then Ok ""%string
  else if bool_decide (0 ≤ models.CurrentTurn g)%Z
       then match models.PlayerOrder g !! Z.to_nat (models.CurrentTurn g) with
            | Some pID => Ok pID
            | None => Panic
            end
       else Panic.

(** [IsPlayersTurn]; [&&] does not evaluate its right operand when the left
    one is false. *)
Definition IsPlayersTurn (g : models.Game) (playerID : string) : result bool :=
  if IsGameActive g
  then current ←r GetCurrentPlayerID g; Ok (bool_decide (current = playerID))
  else Ok false.

(** [IsEmojiAvailable] *)
Definition IsEmojiAvailable (range : range_order) (g : models.Game)
    (emoji : string) : bool :=
  forallb (λ entry, bool_decide (models.Emoji entry.2 ≠ emoji))
          (range (models.Players g)).

(** [IsFirstPlayer]; the pointers stored in [Players] are never nil. *)
Definition IsFirstPlayer (g : models.Game) (playerID : string) : bool :=
  bool_decide (size (models.Players g) = 1) &&
  bool_decide (is_Some (models.Players g !! playerID)).

(** [generateGameID] and [GeneratePlayerID]; [rnd] is what [rand.Read] wrote
    into the buffer. *)
Definition generateGameID (rnd : list byte) : string :=
  sprintf_x (resize 4 x00 rnd).

Definition GeneratePlayerID (rnd : list byte) : string :=
  ("player_" +:+ sprintf_x (resize 8 x00 rnd))%string.

(** The global [games] and the games its pointers lead to: an address is an
    index into [objects]. *)
Record Store := mkStore {
  games : gmap string nat;
  objects : list models.Game
}.

Definition empty_store : Store := {| games := ∅; objects := [] |}.

(** [CreateGame]: the store with the new game, and the address of the game. *)
Definition CreateGame (rnd : list byte) (st : Store) : Store * nat :=
  let id := generateGameID rnd in
  let g :=
    {| models.ID := id;
       models.Board := models.empty_board;
       models.Players := ∅;
       models.PlayerOrder := [];
       models.Status := models.GameStatusWaiting;
       models.CurrentTurn := 0;
       models.Winner := "";
       models.MoveCount := 0 |} in
  ({| games := <[id := length (objects st)]> (games st);
      objects := objects st ++ [g] |},
   length (objects st)).

(** [GetGame]: [None] is the nil pointer. *)
Definition GetGame (id : string) (st : Store) : option nat := games st !! id.

(** [AddPlayerToGame]: the game after the call and the error returned, [None]
    for nil; [now] is the reading of [time.Now()]. *)
Definition AddPlayerToGame (range : range_order) (g : models.Game)
    (playerID emoji : string) (now : nat) : models.Game * option string :=
  if bool_decide (models.MaxPlayersPerGame ≤ size (models.Players g))
  then (g, Some "game is full"%string)
  else if bool_decide (is_Some (models.Players g !! playerID))
  then (g, Some "player already in game"%string)
  else if negb (IsEmojiAvailable range g emoji)
  then (g, Some "emoji already taken"%string)
  else if negb (bool_decide (emoji ∈ models.AvailableEmojis))
  then (g, Some "invalid emoji"%string)
  else
    let player :=
      {| models.PlayerID := playerID; models.Emoji := emoji; models.JoinedAt := now |} in
    let players := <[playerID := player]> (models.Players g) in
    let order := models.PlayerOrder g ++ [playerID] in
    if bool_decide (size players = 1)
    then ({| models.ID := models.ID g;
             models.Board := models.Board g;
             models.Players := players;
             models.PlayerOrder := order;
             models.Status := models.GameStatusWaiting;
             models.CurrentTurn := models.CurrentTurn g;
             models.Winner := models.Winner g;
             models.MoveCount := models.MoveCount g |}, None)
    else if bool_decide (size players = models.MaxPlayersPerGame)
    then ({| models.ID := models.ID g;
             models.Board := models.Board g;
             models.Players := players;
             models.PlayerOrder := order;
             models.Status := models.GameStatusActive;
             models.CurrentTurn := 0;
             models.Winner := models.Winner g;
             models.MoveCount := 0 |}, None)
    else ({| models.ID := models.ID g;
             models.Board := models.Board g;
             models.Players := players;
             models.PlayerOrder := order;
             models.Status := models.Status g;
             models.CurrentTurn := models.CurrentTurn g;
             models.Winner := models.Winner g;
             models.MoveCount := models.MoveCount g |}, None).

End game.

(** ** The request handlers (package [handlers]) *)

Module handlers.

(** What a handler reads from its [*gin.Context]: the [HX-Request] header
    (empty when absent), the route parameters, the [player_id] cookie
    ([None] when [c.Cookie] returns an error) and the [emoji] form value. *)
Record Request := mkRequest {
  Header_HX_Request : string;
  Param_id : string;
  Param_row : string;
  Param_col : string;
  Cookie_player_id : option string;
  PostForm_emoji : string
}.

(** What a handler writes: [c.JSON(status, gin.H{"error": message})],
    [c.Redirect(status, location)], or the markup of a board sent with
    [c.String(200, ...)]; the markup itself is not modelled, the reply
    carries the game id and the board it is made of. *)
Inductive reply :=
  | JSONError (status : nat) (message : string)
  | Redirect (status : nat) (location : string)
  | BoardMarkup (gameID : string) (board : models.GameBoard).

(** A reply and the cookie [c.SetCookie("player_id", ...)] has set, if any. *)
Record Response := mkResponse {
  set_cookie : option string;
  body : reply
}.

Definition StatusSeeOther : nat := 303.
Definition StatusBadRequest : nat := 400.
Definition StatusUnauthorized : nat := 401.
Definition StatusNotFound : nat := 404.

(** How the Go values that [any] has no constructor for are stored in an
    [interface{}]: a board and an [int]. The package [events] never looks
    inside. *)
Record boxing := mkboxing {
  box_board : models.GameBoard → any;
  box_int : Z → any
}.

(** The state of the process: the games and the subscribers. *)
Record State := mkState {
  store : game.Store;
  world : World
}.

Definition initial_state : State :=
  {| store := game.empty_store; world := empty_world |}.

(** An [int] after an arithmetic operation: 64 bits, two's complement. *)
Definition int_wrap (z : Z) : Z := ((z + 2 ^ 63) mod 2 ^ 64 - 2 ^ 63)%Z.

(** [strconv.Atoi]: an optional sign and decimal digits, within 64 bits;
    [None] when it returns an error. *)
Definition digit_value (a : ascii) : option Z :=
  let n := Z.of_nat (nat_of_ascii a) in
  if bool_decide (48 ≤ n ≤ 57)%Z then Some (n - 48)%Z else None.

Fixpoint digits_value (s : string) (acc : Z) : option Z :=
  match s with
  | EmptyString => Some acc
  | String a rest =>
      match digit_value a with
      | Some d => digits_value rest (10 * acc + d)%Z
      | None => None
      end
  end.

Definition Atoi (s : string) : option Z :=
  match s with
  | EmptyString => None
  | String a rest =>
      let signed := bool_decide (a = "+"%char) || bool_decide (a = "-"%char) in
      let digits := if signed then rest else s in
      match digits with
      | EmptyString => None
      | _ =>
          match digits_value digits 0 with
          | Some v =>
              let n := if bool_decide (a = "-"%char) then (- v)%Z else v in
              if bool_decide (- 2 ^ 63 ≤ n < 2 ^ 63)%Z then Some n else None
          | None => None
          end
      end
  end.

(** The index a row or column number stands for; [None] when
    [n < 0 || n > 2]. *)
Definition index_of (n : Z) : option models.idx :=
  if bool_decide (n = 0)%Z then Some models.I0
  else if bool_decide (n = 1)%Z then Some models.I1
  else if bool_decide (n = 2)%Z then Some models.I2
  else None.

(** [getPlayerIDFromContext]: the player id and the cookie it sets. *)
Definition getPlayerIDFromContext (req : Request) (rnd : list byte)
    : string * option string :=
  match Cookie_player_id req with
  | Some playerID =>
      if bool_decide (playerID = ""%string)
      then (game.GeneratePlayerID rnd, Some (game.GeneratePlayerID rnd))
      else (playerID, None)
  | None => (game.GeneratePlayerID rnd, Some (game.GeneratePlayerID rnd))
  end.

(** Reading and writing through a [*models.Game]. An address that names no
    object does not arise from the Go code; reading it panics here. *)
Definition load (addr : nat) (s : State) : result models.Game :=
  match game.objects (store s) !! addr with
  | Some g => Ok g
  | None => Panic
  end.

Definition save (addr : nat) (g : models.Game) (s : State) : State :=
  {| store := {| game.games := game.games (store s);
                 game.objects := <[addr := g]> (game.objects (store s)) |};
     world := world s |}.

(** [events.BroadcastGameEvent] and [events.BroadcastPersonalizedGameStatus]
    on the state: the new state and the goroutines started. *)
Definition broadcast (gameID : string) (event : GameEvent) (po : nat → pollorder)
    (s : State) : result (State * list GameSubscriber) :=
  r ←r BroadcastGameEvent gameID event po (world s);
  Ok ({| store := store s; world := r.1 |}, r.2).

Definition broadcast_status (gameID : string) (addr : nat) (po : nat → pollorder)
    (s : State) : result (State * list GameSubscriber) :=
  r ←r BroadcastPersonalizedGameStatus gameID addr po (world s);
  Ok ({| store := store s; world := r.1 |}, r.2).

(** [renderGameBoard] *)
Definition renderGameBoard (gameID : string) (s : State) : result reply :=
  match game.GetGame gameID (store s) with
  | None => Ok (JSONError StatusNotFound "Game not found")
  | Some addr => g ←r load addr s; Ok (BoardMarkup gameID (models.Board g))
  end.

(** What a handler returns: the state it leaves, its response and the
    goroutines its broadcasts started. *)
Definition outcome : Type := State * Response * list GameSubscriber.

Definition respond (s : State) (cookie : option string) (r : reply) : result outcome :=
  Ok (s, {| set_cookie := cookie; body := r |}, []).

Definition render (gameID : string) (s : State) (cookie : option string)
    (spawned : list GameSubscriber) : result outcome :=
  r ←r renderGameBoard gameID s;
  Ok (s, {| set_cookie := cookie; body := r |}, spawned).

(** [NewGameHandler] *)
Definition NewGameHandler (rnd : list byte) (s : State) : result outcome :=
  let created := game.CreateGame rnd (store s) in
  Ok ({| store := created.1; world := world s |},
      {| set_cookie := None;
         body := Redirect StatusSeeOther
                   ("/game/" +:+ game.generateGameID rnd +:+ "/select-emoji") |},
      []).

(** [EmojiSelectionSubmitHandler] *)
Definition EmojiSelectionSubmitHandler (range : game.range_order)
    (req : Request) (rnd : list byte) (now : nat) (po1 po2 : nat → pollorder)
    (s : State) : result outcome :=
  let gameID := Param_id req in
  match game.GetGame gameID (store s) with
  | None => respond s None (JSONError StatusNotFound "Game not found")
  | Some addr =>
      gameData ←r load addr s;
      let '(playerID, cookie) := getPlayerIDFromContext req rnd in
      let selectedEmoji := PostForm_emoji req in
      if bool_decide (selectedEmoji = ""%string)
      then respond s cookie (JSONError StatusBadRequest "No emoji selected")
      else
        let isFirstPlayerJoining := bool_decide (size (models.Players gameData) = 0) in
        let joined := game.AddPlayerToGame range gameData playerID selectedEmoji now in
        let s1 := save addr joined.1 s in
        let isGameReadyNow :=
          bool_decide (models.Status joined.1 = models.GameStatusActive) in
        match joined.2 with
        | Some err => respond s1 cookie (JSONError StatusBadRequest err)
        | None =>
            b1 ←r broadcast gameID
                    {| Type_ := "player_join";
                       EventGameID := gameID;
                       Data := AMap [("playerID"%string, AString playerID);
                                     ("emoji"%string, AString selectedEmoji)] |}
                    po1 s1;
            if isFirstPlayerJoining
            then Ok (b1.1,
                     {| set_cookie := cookie;
                        body := Redirect StatusSeeOther
                                  ("/game/" +:+ gameID +:+ "/select-emoji") |},
                     b1.2)
            else if isGameReadyNow
            then
              b2 ←r broadcast gameID
                      {| Type_ := "game_ready";
                         EventGameID := gameID;
                         Data := AMap [("status"%string, AString "active")] |}
                      po2 b1.1;
              Ok (b2.1,
                  {| set_cookie := cookie;
                     body := Redirect StatusSeeOther ("/game/" +:+ gameID) |},
                  b1.2 ++ b2.2)
            else Ok (b1.1,
                     {| set_cookie := cookie;
                        body := Redirect StatusSeeOther
                                  ("/game/" +:+ gameID +:+ "/select-emoji") |},
                     b1.2)
        end
  end.

(** The game with one field assigned. *)
Definition with_board (g : models.Game) (b : models.GameBoard) : models.Game :=
  {| models.ID := models.ID g; models.Board := b;
     models.Players := models.Players g; models.PlayerOrder := models.PlayerOrder g;
     models.Status := models.Status g; models.CurrentTurn := models.CurrentTurn g;
     models.Winner := models.Winner g; models.MoveCount := models.MoveCount g |}.

Definition with_status (g : models.Game) (st : models.GameStatus) : models.Game :=
  {| models.ID := models.ID g; models.Board := models.Board g;
     models.Players := models.Players g; models.PlayerOrder := models.PlayerOrder g;
     models.Status := st; models.CurrentTurn := models.CurrentTurn g;
     models.Winner := models.Winner g; models.MoveCount := models.MoveCount g |}.

Definition with_turn (g : models.Game) (turn : Z) : models.Game :=
  {| models.ID := models.ID g; models.Board := models.Board g;
     models.Players := models.Players g; models.PlayerOrder := models.PlayerOrder g;
     models.Status := models.Status g; models.CurrentTurn := turn;
     models.Winner := models.Winner g; models.MoveCount := models.MoveCount g |}.

Definition with_winner (g : models.Game) (winner : string) : models.Game :=
  {| models.ID := models.ID g; models.Board := models.Board g;
     models.Players := models.Players g; models.PlayerOrder := models.PlayerOrder g;
     models.Status := models.Status g; models.CurrentTurn := models.CurrentTurn g;
     models.Winner := winner; models.MoveCount := models.MoveCount g |}.

Definition with_moves (g : models.Game) (count : Z) : models.Game :=
  {| models.ID := models.ID g; models.Board := models.Board g;
     models.Players := models.Players g; models.PlayerOrder := models.PlayerOrder g;
     models.Status := models.Status g; models.CurrentTurn := models.CurrentTurn g;
     models.Winner := models.Winner g; models.MoveCount := count |}.

(** The second half of [GameMoveHandler], from [// Make the move] to the
    end: the caller is [player], it is its turn and the cell is empty. *)
Definition make_move (range : game.range_order) (box : boxing)
    (gameID : string) (addr : nat) (gameData : models.Game)
    (playerID : string) (player : models.Player) (cookie : option string)
    (row col : models.idx) (rowInt colInt : Z) (po1 po2 : nat → pollorder)
    (s : State) : result outcome :=
  let moved :=
    with_moves
      (with_board gameData
         (models.set_cell (models.Board gameData) row col (models.Emoji player)))
      (int_wrap (models.MoveCount gameData + 1)) in
  let winnerID := game.CheckWinner range moved in
  if negb (bool_decide (winnerID = ""%string))
  then
    let finished := with_winner (with_status moved models.GameStatusFinished) winnerID in
    let s1 := save addr finished s in
    match models.Players finished !! winnerID with
    | None => Panic
    | Some winner =>
        b1 ←r broadcast gameID
                {| Type_ := "game_winner";
                   EventGameID := gameID;
                   Data := AMap [("board"%string, box_board box (models.Board finished));
                                 ("winner"%string, AString winnerID);
                                 ("emoji"%string, AString (models.Emoji winner));
                                 ("playerID"%string, AString playerID);
                                 ("row"%string, box_int box rowInt);
                                 ("col"%string, box_int box colInt)] |}
                po1 s1;
        b2 ←r broadcast_status gameID addr po2 b1.1;
        render gameID b2.1 cookie (b1.2 ++ b2.2)
    end
  else if game.IsBoardFull moved
  then
    let drawn := with_status moved models.GameStatusDraw in
    let s1 := save addr drawn s in
    b1 ←r broadcast gameID
            {| Type_ := "game_draw";
               EventGameID := gameID;
               Data := AMap [("board"%string, box_board box (models.Board drawn));
                             ("playerID"%string, AString playerID);
                             ("row"%string, box_int box rowInt);
                             ("col"%string, box_int box colInt)] |}
            po1 s1;
    b2 ←r broadcast_status gameID addr po2 b1.1;
    render gameID b2.1 cookie (b1.2 ++ b2.2)
  else
    (* Switch turns *)
    let next :=
      with_turn moved (Z.rem (int_wrap (models.CurrentTurn moved + 1)) 2) in
    let s1 := save addr next s in
    nextPlayer ←r game.GetCurrentPlayerID next;
    b1 ←r broadcast gameID
            {| Type_ := "move";
               EventGameID := gameID;
               Data := AMap [("board"%string, box_board box (models.Board next));
                             ("playerID"%string, AString playerID);
                             ("emoji"%string, AString (models.Emoji player));
                             ("row"%string, box_int box rowInt);
                             ("col"%string, box_int box colInt);
                             ("nextTurn"%string, box_int box (models.CurrentTurn next));
                             ("nextPlayer"%string, AString nextPlayer)] |}
            po1 s1;
    b2 ←r broadcast_status gameID addr po2 b1.1;
    render gameID b2.1 cookie (b1.2 ++ b2.2).

(** [GameMoveHandler], up to [// Make the move]. *)
Definition GameMoveHandler (range : game.range_order) (box : boxing)
    (req : Request) (rnd : list byte) (po1 po2 : nat → pollorder)
    (s : State) : result outcome :=
  if negb (bool_decide (Header_HX_Request req = "true"%string))
  then respond s None (JSONError StatusBadRequest "HTMX request required")
  else
  let gameID := Param_id req in
  match game.GetGame gameID (store s) with
  | None => respond s None (JSONError StatusNotFound "Game not found")
  | Some addr =>
  gameData ←r load addr s;
  let '(playerID, cookie) := getPlayerIDFromContext req rnd in
  match models.Players gameData !! playerID with
  | None => respond s cookie (JSONError StatusUnauthorized "Player not registered")
  | Some player =>
  if bool_decide (models.Emoji player = ""%string)
  then respond s cookie (JSONError StatusUnauthorized "Player not registered")
  else
  match Atoi (Param_row req) with
  | None => respond s cookie (JSONError StatusBadRequest "Invalid row")
  | Some rowInt =>
  match index_of rowInt with
  | None => respond s cookie (JSONError StatusBadRequest "Invalid row")
  | Some row =>
  match Atoi (Param_col req) with
  | None => respond s cookie (JSONError StatusBadRequest "Invalid column")
  | Some colInt =>
  match index_of colInt with
  | None => respond s cookie (JSONError StatusBadRequest "Invalid column")
  | Some col =>
  if game.IsGameFinished gameData then render gameID s cookie []
  else
  turn ←r game.IsPlayersTurn gameData playerID;
  if negb turn then render gameID s cookie []
  else
  if negb (bool_decide (models.cell (models.Board gameData) row col = ""%string))
  then render gameID s cookie []
  else make_move range box gameID addr gameData playerID player cookie
         row col rowInt colInt po1 po2 s
  end end end end end end.

(** [GameResetHandler] *)
Definition GameResetHandler (box : boxing) (req : Request)
    (po1 po2 : nat → pollorder) (s : State) : result outcome :=
  if negb (bool_decide (Header_HX_Request req = "true"%string))
  then respond s None (JSONError StatusBadRequest "HTMX request required")
  else
  let gameID := Param_id req in
  match game.GetGame gameID (store s) with
  | None => respond s None (JSONError StatusNotFound "Game not found")
  | Some addr =>
      gameData ←r load addr s;
      let reset :=
        with_turn
          (with_moves
             (with_winner
                (with_status (with_board gameData models.empty_board)
                             models.GameStatusActive)
                "")
             0)
          0 in
      let s1 := save addr reset s in
      b1 ←r broadcast gameID
              {| Type_ := "reset";
                 EventGameID := gameID;
                 Data := AMap [("board"%string, box_board box (models.Board reset))] |}
              po1 s1;
      b2 ←r broadcast_status gameID addr po2 b1.1;
      render gameID b2.1 None (b1.2 ++ b2.2)
  end.

(** What a client or the runtime does next: one of the requests above, or a
    step of the event layer (a stream handler registering or deregistering
    its subscriber, a consumer taking an event, a signal firing). Requests
    are served one at a time, each handler running to its end before the
    next step; the goroutines its broadcasts start are [Deregister] steps of
    the event layer that come at any later point, or never. *)
Inductive action :=
  | NewGame (rnd : list byte)
  | SubmitEmoji (req : Request) (rnd : list byte) (now : nat) (po1 po2 : nat → pollorder)
  | Move (req : Request) (rnd : list byte) (po1 po2 : nat → pollorder)
  | Reset (req : Request) (po1 po2 : nat → pollorder)
  | EventLayer (c : call).

Definition serve (range : game.range_order) (box : boxing) (a : action) (s : State)
    : result State :=
  match a with
  | NewGame rnd => r ←r NewGameHandler rnd s; Ok r.1.1
  | SubmitEmoji req rnd now po1 po2 =>
      r ←r EmojiSelectionSubmitHandler range req rnd now po1 po2 s; Ok r.1.1
  | Move req rnd po1 po2 => r ←r GameMoveHandler range box req rnd po1 po2 s; Ok r.1.1
  | Reset req po1 po2 => r ←r GameResetHandler box req po1 po2 s; Ok r.1.1
  | EventLayer c => w ←r step c (world s); Ok {| store := store s; world := w |}
  end.

Fixpoint serve_all (range : game.range_order) (box : boxing) (actions : list action)
    (s : State) : result State :=
  match actions with
  | [] => Ok s
  | a :: rest => s' ←r serve range box a s; serve_all range box rest s'
  end.

End handlers.

(** ** Stated properties of games *)

(** The eight lines of the board, in the order [CheckWinner] tests them. *)
Definition lines : list ((models.idx * models.idx) * (models.idx * models.idx) *
                         (models.idx * models.idx)) :=
  ((λ row, ((row, models.I0), (row, models.I1), (row, models.I2))) <$> models.indices) ++
  ((λ col, ((models.I0, col), (models.I1, col), (models.I2, col))) <$> models.indices) ++
  [((models.I0, models.I0), (models.I1, models.I1), (models.I2, models.I2));
   ((models.I0, models.I2), (models.I1, models.I1), (models.I2, models.I0))].

(** The three cells of some line all hold [emoji]. *)
Definition holds_line (b : models.GameBoard) (emoji : string) : Prop :=
  ∃ p q r, (p, q, r) ∈ lines ∧
    models.cell b p.1 p.2 = emoji ∧
    models.cell b q.1 q.2 = emoji ∧
    models.cell b r.1 r.2 = emoji.

(** Some player of the game owns a non-empty emoji that fills a line. *)
Definition owned_line (g : models.Game) : Prop :=
  ∃ pID player,
    models.Players g !! pID = Some player ∧
    models.Emoji player ≠ ""%string ∧
    holds_line (models.Board g) (models.Emoji player).

(** No two players of the game have the same emoji. *)
Definition emojis_unique (g : models.Game) : Prop :=
  ∀ p1 p2 player1 player2,
    models.Players g !! p1 = Some player1 →
    models.Players g !! p2 = Some player2 →
    models.Emoji player1 = models.Emoji player2 → p1 = p2.

(** Some player of the game has the emoji. *)
Definition emoji_taken (g : models.Game) (emoji : string) : Prop :=
  ∃ pID player, models.Players g !! pID = Some player ∧ models.Emoji player = emoji.

(** The nine cells, and the number of them that hold an emoji. *)
Definition positions : list (models.idx * models.idx) :=
  row ← models.indices; col ← models.indices; [(row, col)].

Definition filled_cells (b : models.GameBoard) : nat :=
  sum_list ((λ rc, if bool_decide (models.cell b rc.1 rc.2 ≠ ""%string) then 1 else 0)
              <$> positions).

(** What the players of a game look like, whatever has been played. *)
Record players_ok (g : models.Game) : Prop := mkplayers_ok {
  ok_size : size (models.Players g) ≤ models.MaxPlayersPerGame;
  ok_order_nodup : NoDup (models.PlayerOrder g);
  ok_order_dom : ∀ pID, pID ∈ models.PlayerOrder g ↔ is_Some (models.Players g !! pID);
  ok_player_id : ∀ pID player,
    models.Players g !! pID = Some player → models.PlayerID player = pID;
  ok_emoji_valid : ∀ pID player,
    models.Players g !! pID = Some player →
    models.Emoji player ∈ models.AvailableEmojis;
  ok_emoji_unique : emojis_unique g
}.

(** Attempts to join, one after the other, whatever each returns. *)
Fixpoint join_all (range : game.range_order) (g : models.Game)
    (attempts : list (string * string * nat)) : models.Game :=
  match attempts with
  | [] => g
  | (playerID, emoji, now) :: rest =>
      join_all range (game.AddPlayerToGame range g playerID emoji now).1 rest
  end.

(** What every game the handlers have worked on satisfies. *)
Record game_inv (range : game.range_order) (g : models.Game) : Prop := mkgame_inv {
  gi_players : players_ok g;
  gi_ids : ∀ pID, is_Some (models.Players g !! pID) → pID ≠ ""%string;
  gi_turn : models.CurrentTurn g = 0%Z ∨ models.CurrentTurn g = 1%Z;
  gi_count : models.MoveCount g = Z.of_nat (filled_cells (models.Board g));
  gi_cells : ∀ row col,
    models.cell (models.Board g) row col ≠ ""%string →
    emoji_taken g (models.cell (models.Board g) row col);
  gi_few : size (models.Players g) < 2 →
    models.Board g = models.empty_board ∧ models.Winner g = ""%string;
  gi_status :
    match models.Status g with
    | models.GameStatusWaiting => size (models.Players g) < 2
    | models.GameStatusActive =>
        models.Winner g = ""%string ∧
        game.CheckWinner range g = ""%string ∧
        game.IsBoardFull g = false ∧
        models.CurrentTurn g = (models.MoveCount g mod 2)%Z
    | models.GameStatusFinished =>
        size (models.Players g) = 2 ∧
        models.Winner g ≠ ""%string ∧
        game.CheckWinner range g = models.Winner g
    | models.GameStatusDraw =>
        size (models.Players g) = 2 ∧
        models.Winner g = ""%string ∧
        game.CheckWinner range g = ""%string ∧
        game.IsBoardFull g = true
    | models.GameStatusReady | models.GameStatusFull => False
    end
}.

(** Every id of the store leads to a game with that id, and every game of
    the store satisfies [game_inv]. *)
Record store_ok (range : game.range_order) (st : game.Store) : Prop := mkstore_ok {
  so_games : ∀ id addr, game.games st !! id = Some addr →
    ∃ g, game.objects st !! addr = Some g ∧ models.ID g = id;
  so_objects : ∀ addr g, game.objects st !! addr = Some g → game_inv range g
}.

Definition state_ok (range : game.range_order) (s : handlers.State) : Prop :=
  wf (handlers.world s) ∧ store_ok range (handlers.store s).

(** The conditions under which [GameMoveHandler] makes a move: the request
    comes from HTMX, the game exists, the caller is a player of it with an
    emoji, row and column are numbers from 0 to 2, the game is not over, it
    is the caller's turn and the cell is empty. *)
Definition move_accepted (req : handlers.Request) (rnd : list byte)
    (s : handlers.State) : Prop :=
  handlers.Header_HX_Request req = "true"%string ∧
  ∃ addr g player rowInt colInt row col,
    game.GetGame (handlers.Param_id req) (handlers.store s) = Some addr ∧
    game.objects (handlers.store s) !! addr = Some g ∧
    models.Players g !! (handlers.getPlayerIDFromContext req rnd).1 = Some player ∧
    models.Emoji player ≠ ""%string ∧
    handlers.Atoi (handlers.Param_row req) = Some rowInt ∧
    handlers.index_of rowInt = Some row ∧
    handlers.Atoi (handlers.Param_col req) = Some colInt ∧
    handlers.index_of colInt = Some col ∧
    game.IsGameFinished g = false ∧
    game.IsPlayersTurn g (handlers.getPlayerIDFromContext req rnd).1 = Ok true ∧
    models.cell (models.Board g) row col = ""%string.

(** The game a move leaves at the address it was made at: [moved] is the
    game after the cell and the move count are written, and the status, the
    winner and the turn follow from [CheckWinner] and [IsBoardFull] on it. *)
Definition after_move (range : game.range_order) (g : models.Game)
    (player : models.Player) (row col : models.idx) : models.Game :=
  let moved :=
    handlers.with_moves
      (handlers.with_board g
         (models.set_cell (models.Board g) row col (models.Emoji player)))
      (handlers.int_wrap (models.MoveCount g + 1)) in
  let winnerID := game.CheckWinner range moved in
  if bool_decide (winnerID = ""%string)
  then if game.IsBoardFull moved
       then handlers.with_status moved models.GameStatusDraw
       else handlers.with_turn moved
              (Z.rem (handlers.int_wrap (models.CurrentTurn moved + 1)) 2)
  else handlers.with_winner
         (handlers.with_status moved models.GameStatusFinished) winnerID.

(** A game to try the rules on: two players, "a" with X and "b" with O. *)
Definition demo_range : game.range_order := map_to_list.

Definition demo_player (pID emoji : string) : models.Player :=
  {| models.PlayerID := pID; models.Emoji := emoji; models.JoinedAt := 0 |}.

Definition demo_game_with (players : gmap string models.Player)
    (order : list string) (status : models.GameStatus) (b : models.GameBoard)
    : models.Game :=
  {| models.ID := "g1";
     models.Board := b;
     models.Players := players;
     models.PlayerOrder := order;
     models.Status := status;
     models.CurrentTurn := 0;
     models.Winner := "";
     models.MoveCount := 0 |}.

Definition demo_game (b : models.GameBoard) : models.Game :=
  demo_game_with
    (<["a" := demo_player "a" "X"]> (<["b" := demo_player "b" "O"]> ∅))
    ["a"; "b"]%string models.GameStatusActive b.

Definition demo_board : models.GameBoard :=
  (("X", "O", "")%string, ("O", "X", "")%string, ("", "", "X")%string).


(** A way to box boards and integers, to try the handlers with. *)
Definition demo_box : handlers.boxing :=
  {| handlers.box_board := λ _, AOpaque 0;
     handlers.box_int := λ z, AOpaque (Z.to_nat z) |}.

(** An HTMX request about the game "01000000" that carries the cookie of
    [player]. *)
Definition demo_request (player row col emoji : string) : handlers.Request :=
  {| handlers.Header_HX_Request := "true";
     handlers.Param_id := "01000000";
     handlers.Param_row := row;
     handlers.Param_col := col;
     handlers.Cookie_player_id := Some player;
     handlers.PostForm_emoji := emoji |}.

(** The game "01000000" is created, then "a" and "b" join it. *)
Definition demo_setup : list handlers.action :=
  [handlers.NewGame [x01];
   handlers.SubmitEmoji (demo_request "a" "" "" "🐱") [] 7 send_first send_first;
   handlers.SubmitEmoji (demo_request "b" "" "" "🚀") [] 8 send_first send_first].

(** A move of [player] to a cell. *)
Definition demo_move (player row col : string) : handlers.action :=
  handlers.Move (demo_request player row col "") [] send_first send_first.

(** The state the requests lead to from the initial one. *)
Definition state_of (actions : list handlers.action) : handlers.State :=
  match handlers.serve_all demo_range demo_box actions handlers.initial_state with
  | Ok s => s
  | Panic => handlers.initial_state
  end.

(** The game stored at an address. *)
Definition game_at (s : handlers.State) (addr : nat) : models.Game :=
  default (demo_game models.empty_board) (game.objects (handlers.store s) !! addr).

(** A row of broadcasts to one session, each with its event and the poll
    orders its loop draws. *)
Definition broadcasts (gameID : string) (bs : list (GameEvent * (nat → pollorder)))
    : list call :=
  (λ b, Broadcast gameID b.1 b.2) <$> bs.

(** ** The select statement *)

Lemma select_alive oc po :
  select oc false po =
    match try_send oc with
    | SendToClosed => SendPanics
    | SendProceeds => CaseSend
    | SendBlocks => CaseDefault
    end.
Proof. by destruct po. Qed.

Lemma try_send_open c :
  closed c = false →
  try_send (Some c) =
    if bool_decide (length (buf c) < cap c) then SendProceeds else SendBlocks.
Proof. intros Hc. unfold try_send. by rewrite Hc. Qed.

Lemma try_send_room c :
  closed c = false → length (buf c) < cap c → try_send (Some c) = SendProceeds.
Proof.
  intros Hc Hlt. rewrite try_send_open by done. by rewrite bool_decide_eq_true_2.
Qed.

Lemma try_send_full c :
  closed c = false → cap c ≤ length (buf c) → try_send (Some c) = SendBlocks.
Proof.
  intros Hc Hge. rewrite try_send_open by done.
  rewrite bool_decide_eq_false_2; [done | lia].
Qed.

Lemma select_send_has_room oc done po :
  select oc done po = CaseSend → has_room oc.
Proof.
  unfold select, try_send, has_room. intros H.
  destruct oc as [c|]; [| by destruct po, done].
  exists c. split; [done |].
  destruct po, done, (closed c); try done; by case_bool_decide.
Qed.

Lemma select_done_fired oc done po : select oc done po = CaseDone → done = true.
Proof.
  unfold select. destruct po, done; try done; by destruct (try_send oc).
Qed.

Lemma select_default oc done po :
  select oc done po = CaseDefault → done = false ∧ try_send oc = SendBlocks.
Proof.
  unfold select. destruct po, done, (try_send oc); naive_solver.
Qed.

(** ** The broadcast loops *)

Lemma range_select_status_eq gameID game po F i subscribers h spawned :
  range_select_status gameID game po F i subscribers h spawned =
  range_select (status_event gameID game) po F i subscribers h spawned.
Proof.
  revert i h spawned. induction subscribers as [|s rest IH]; intros i h spawned;
    [done |]. simpl. by rewrite !IH.
Qed.

Lemma alter_send_other event r r' (h : list chan) :
  r ≠ r' → alter (λ c, chan_send c event) r h !! r' = h !! r'.
Proof. intros. by apply list_lookup_alter_ne. Qed.

(** Channels of no subscriber of the slice are left alone, whatever the
    slice and the heap. *)
Lemma range_select_frame event po F subscribers :
  ∀ i h spawned h' spawned',
    range_select event po F i subscribers h spawned = Ok (h', spawned') →
    ∀ r, (∀ s, s ∈ subscribers → Channel s ≠ r) → h' !! r = h !! r.
Proof.
  induction subscribers as [|s rest IH]; intros i h spawned h' spawned' Hrun r Hr.
  - simpl in Hrun. by inversion Hrun.
  - simpl in Hrun.
    assert (Hs : Channel s ≠ r) by (apply Hr; left).
    assert (Hrest : ∀ s', s' ∈ rest → Channel s' ≠ r)
      by (intros s' Hin; apply Hr; by right).
    destruct (select _ _ _); try done.
    + rewrite (IH _ _ _ _ _ Hrun r Hrest). by apply alter_send_other.
    + by apply (IH _ _ _ _ _ Hrun).
    + by apply (IH _ _ _ _ _ Hrun).
Qed.

(** The goroutines started are subscribers of the slice whose signal has
    fired; those started before the loop are kept. *)
Lemma range_select_spawned event po F subscribers :
  ∀ i h spawned h' spawned',
    range_select event po F i subscribers h spawned = Ok (h', spawned') →
    ∃ extra, spawned' = spawned ++ extra ∧
      Forall (λ s, s ∈ subscribers ∧ Context s ∈ F) extra.
Proof.
  induction subscribers as [|s rest IH]; intros i h spawned h' spawned' Hrun.
  - simpl in Hrun. inversion Hrun; subst. exists []. by rewrite app_nil_r.
  - simpl in Hrun.
    destruct (select _ _ _) eqn:Hsel; try done.
    + destruct (IH _ _ _ _ _ Hrun) as (extra & -> & Hall). exists extra.
      split; [done |]. eapply Forall_impl; [done |]. intros ? [??]. split; [by right | done].
    + destruct (IH _ _ _ _ _ Hrun) as (extra & -> & Hall). exists (s :: extra).
      split; [by rewrite <- app_assoc |].
      constructor.
      * split; [left |]. apply select_done_fired in Hsel.
        by apply bool_decide_eq_true in Hsel.
      * eapply Forall_impl; [done |]. intros ? [??]. split; [by right | done].
    + destruct (IH _ _ _ _ _ Hrun) as (extra & -> & Hall). exists extra.
      split; [done |]. eapply Forall_impl; [done |]. intros ? [??]. split; [by right | done].
Qed.

(** Every channel keeps its capacity and its closed flag, and stays within
    its capacity if it was. *)
Lemma range_select_chan event po F subscribers :
  ∀ i h spawned h' spawned',
    range_select event po F i subscribers h spawned = Ok (h', spawned') →
    ∀ r c', h' !! r = Some c' →
      ∃ c, h !! r = Some c ∧ cap c' = cap c ∧ closed c' = closed c ∧
           (length (buf c) ≤ cap c → length (buf c') ≤ cap c').
Proof.
  induction subscribers as [|s rest IH]; intros i h spawned h' spawned' Hrun r c' Hc'.
  - simpl in Hrun. inversion Hrun; subst. by exists c'.
  - simpl in Hrun.
    destruct (select _ _ _) eqn:Hsel; try done.
    + destruct (IH _ _ _ _ _ Hrun r c' Hc') as (c1 & Hc1 & Hcap & Hcl & Hlen).
      destruct (decide (Channel s = r)) as [<- | Hne].
      * apply select_send_has_room in Hsel as (c & Hc & Hroom).
        rewrite list_lookup_alter_eq, Hc in Hc1. simpl in Hc1.
        injection Hc1 as <-. exists c. simpl in *.
        split_and!; [done.. |]. intros _. apply Hlen.
        rewrite length_app. simpl. lia.
      * rewrite list_lookup_alter_ne in Hc1 by done. by exists c1.
    + by apply (IH _ _ _ _ _ Hrun).
    + by apply (IH _ _ _ _ _ Hrun).
Qed.

Lemma select_open_returns c done po :
  closed c = false → select (Some c) done po ≠ SendPanics.
Proof.
  intros Hc. unfold select. rewrite try_send_open by done.
  destruct po, done; try done; by case_bool_decide.
Qed.

Lemma outcome_heap_irrel event s (h0 h h' : list chan) spawned po_i done :
  h0 !! Channel s = h !! Channel s →
  match select (h0 !! Channel s) done po_i with
  | CaseSend => enqueued event s h0 h' spawned
  | CaseDone => removal_scheduled s h0 h' spawned
  | CaseDefault => dropped s h0 h' spawned
  | SendPanics => False
  end →
  match select (h !! Channel s) done po_i with
  | CaseSend => enqueued event s h h' spawned
  | CaseDone => removal_scheduled s h h' spawned
  | CaseDefault => dropped s h h' spawned
  | SendPanics => False
  end.
Proof.
  unfold enqueued, removal_scheduled, dropped. intros Heq. by rewrite Heq.
Qed.

(** On a slice whose subscribers own distinct, open channels the loop
    returns, and each subscriber meets the outcome its own [select] picks
    on the heap the loop started from. *)
Lemma range_select_outcomes event po F subscribers :
  ∀ i h spawned,
    NoDup (Channel <$> subscribers) →
    (∀ s, s ∈ subscribers → ∃ c, h !! Channel s = Some c ∧ closed c = false) →
    ∃ h' extra,
      range_select event po F i subscribers h spawned = Ok (h', spawned ++ extra) ∧
      (∀ s, s ∈ extra → s ∈ subscribers) ∧
      ∀ j s, subscribers !! j = Some s →
        match select (h !! Channel s) (bool_decide (Context s ∈ F)) (po (i + j)) with
        | CaseSend => enqueued event s h h' extra
        | CaseDone => removal_scheduled s h h' extra
        | CaseDefault => dropped s h h' extra
        | SendPanics => False
        end.
Proof.
  induction subscribers as [|s rest IH]; intros i h spawned Hnd Hopen.
  - exists h, []. simpl. rewrite app_nil_r. split_and!; [done | | done].
    intros s Hs. by apply elem_of_nil in Hs.
  - rewrite fmap_cons in Hnd. apply NoDup_cons in Hnd as [Hfresh Hnd].
    assert (Hne : ∀ s', s' ∈ rest → Channel s ≠ Channel s').
    { intros s' Hin Heq. apply Hfresh. rewrite Heq. by apply list_elem_of_fmap_2. }
    assert (Hnotin : s ∉ rest).
    { intros Hin. by apply (Hne s Hin). }
    destruct (Hopen s) as (c & Hc & Hcl); [left |].
    pose proof (select_open_returns c (bool_decide (Context s ∈ F)) (po i) Hcl) as Hret.
    simpl. rewrite Hc.
    destruct (select (Some c) _ (po i)) eqn:Hsel; [| | | done].
    + (* the event is sent *)
      set (h1 := alter (λ c, chan_send c event) (Channel s) h).
      assert (Hsame : ∀ s', s' ∈ rest → h1 !! Channel s' = h !! Channel s').
      { intros s' Hin. apply list_lookup_alter_ne. by apply Hne. }
      destruct (IH (S i) h1 spawned Hnd) as (h' & extra & Hrun & Hsub & Hout).
      { intros s' Hin. rewrite Hsame by done. apply Hopen. by right. }
      exists h', extra. split_and!; [done | intros ? ?; right; by apply Hsub |].
      intros [|j] s' Hj; simpl in Hj.
      * injection Hj as <-. rewrite Nat.add_0_r, Hc, Hsel. split.
        -- rewrite (range_select_frame _ _ _ _ _ _ _ _ _ Hrun (Channel s)).
           ++ unfold h1. by rewrite list_lookup_alter_eq.
           ++ intros s' Hin Heq. by apply (Hne s' Hin).
        -- intros Hin. apply Hnotin. by apply Hsub.
      * replace (i + S j) with (S i + j) by lia.
        apply (outcome_heap_irrel event s' h1 h h' extra).
        -- apply Hsame. by eapply list_elem_of_lookup_2.
        -- by apply Hout.
    + (* the removal is scheduled *)
      destruct (IH (S i) h (spawned ++ [s]) Hnd) as (h' & extra & Hrun & Hsub & Hout).
      { intros s' Hin. apply Hopen. by right. }
      exists h', (s :: extra). rewrite <- app_assoc in Hrun. split_and!; [done | |].
      { intros s' [->|Hin]%elem_of_cons; [left | right; by apply Hsub]. }
      intros [|j] s' Hj; simpl in Hj.
      * injection Hj as <-. rewrite Nat.add_0_r, Hc, Hsel. split; [| left].
        apply (range_select_frame _ _ _ _ _ _ _ _ _ Hrun (Channel s)).
        intros s' Hin Heq. by apply (Hne s' Hin).
      * replace (i + S j) with (S i + j) by lia.
        assert (Hin : s' ∈ rest) by by eapply list_elem_of_lookup_2.
        assert (Hss : s' ≠ s) by (intros ->; done).
        specialize (Hout j s' Hj).
        destruct (select (h !! Channel s') _ _); [| | | done];
          destruct Hout as [Hh Hm]; (split; [done |]).
        -- by apply not_elem_of_cons.
        -- by right.
        -- by apply not_elem_of_cons.
    + (* the event is dropped *)
      destruct (IH (S i) h spawned Hnd) as (h' & extra & Hrun & Hsub & Hout).
      { intros s' Hin. apply Hopen. by right. }
      exists h', extra. split_and!; [done | intros ? ?; right; by apply Hsub |].
      intros [|j] s' Hj; simpl in Hj.
      * injection Hj as <-. rewrite Nat.add_0_r, Hc, Hsel. split.
        -- apply (range_select_frame _ _ _ _ _ _ _ _ _ Hrun (Channel s)).
           intros s' Hin Heq. by apply (Hne s' Hin).
        -- intros Hin. apply Hnotin. by apply Hsub.
      * replace (i + S j) with (S i + j) by lia. by apply Hout.
Qed.

(** ** The registry *)

Lemma delete_if_empty_lookup_Some gameID (table : gmap string (list GameSubscriber)) k l :
  delete_if_empty gameID table !! k = Some l ↔
  table !! k = Some l ∧ (k = gameID → l ≠ []).
Proof.
  unfold delete_if_empty. case_bool_decide as Hlen.
  - destruct (decide (gameID = k)) as [<- | Hne].
    + rewrite lookup_delete_eq. split; [done |]. intros [Hk Hl].
      rewrite Hk in Hlen. simpl in Hlen. destruct l; [by destruct Hl | done].
    + rewrite lookup_delete_ne by done. naive_solver.
  - split; [| naive_solver]. intros Hk. split; [done |]. intros -> ->.
    by rewrite Hk in Hlen.
Qed.

Lemma delete_if_empty_id gameID (table : gmap string (list GameSubscriber)) :
  (∀ l, table !! gameID = Some l → l ≠ []) →
  delete_if_empty gameID table = table.
Proof.
  intros Hne. unfold delete_if_empty. case_bool_decide as Hlen; [| done].
  destruct (table !! gameID) as [l|] eqn:Hk.
  - destruct l; [by destruct (Hne [] eq_refl) | done].
  - by apply delete_id.
Qed.

(** The table [RemoveGameSubscriber] leaves when it found entry [i]. *)
Lemma removed_lookup_Some gameID i subscribers
    (table : gmap string (list GameSubscriber)) k l :
  delete_if_empty gameID (<[gameID := delete i subscribers]> table) !! k = Some l ↔
  (k = gameID ∧ l = delete i subscribers ∧ l ≠ []) ∨ (k ≠ gameID ∧ table !! k = Some l).
Proof.
  rewrite delete_if_empty_lookup_Some.
  destruct (decide (gameID = k)) as [<- | Hne].
  - rewrite lookup_insert_eq. naive_solver.
  - rewrite lookup_insert_ne by done. naive_solver.
Qed.

Lemma NoDup_fmap_delete_apart {A B} (f : A → B) (l : list A) i x y :
  NoDup (f <$> l) → l !! i = Some x → y ∈ delete i l → f y ≠ f x.
Proof.
  intros Hnd Hi Hy Heq.
  rewrite <- (take_drop_middle l i x Hi) in Hnd.
  rewrite delete_take_drop in Hy.
  rewrite fmap_app, fmap_cons in Hnd.
  apply NoDup_app in Hnd as (_ & Hl & Hr).
  apply NoDup_cons in Hr as [Hr _].
  apply elem_of_app in Hy as [Hy | Hy].
  - apply (Hl (f y)); [by apply list_elem_of_fmap_2 | rewrite Heq; left].
  - apply Hr. rewrite <- Heq. by apply list_elem_of_fmap_2.
Qed.

Lemma close_chan_open r (h : list chan) c :
  h !! r = Some c → closed c = false →
  close_chan r h = Ok (<[r := chan_close c]> h).
Proof. intros Hr Hc. unfold close_chan. by rewrite Hr, Hc. Qed.

(** What [RemoveGameSubscriber] returns in a well-formed world, by the
    branch the code takes. *)
Lemma RemoveGameSubscriber_absent subscriber w :
  gameSubscribers w !! GameID subscriber = None →
  RemoveGameSubscriber subscriber w = Ok w.
Proof. intros Hk. unfold RemoveGameSubscriber. by rewrite Hk. Qed.

Lemma RemoveGameSubscriber_not_found subscriber w l :
  wf w →
  gameSubscribers w !! GameID subscriber = Some l →
  (∀ s, s ∈ l → ID s ≠ ID subscriber) →
  RemoveGameSubscriber subscriber w = Ok w.
Proof.
  intros Hwf Hk Hid. unfold RemoveGameSubscriber. rewrite Hk.
  assert (Hfind : list_find (λ sub, ID sub = ID subscriber) l = None).
  { apply list_find_None, Forall_forall. intros s Hs. by apply Hid. }
  rewrite Hfind, delete_if_empty_id; [by destruct w |].
  intros l' Hl'. by apply (wf_nonempty w Hwf (GameID subscriber)).
Qed.

Lemma RemoveGameSubscriber_found subscriber w l i sub :
  wf w →
  gameSubscribers w !! GameID subscriber = Some l →
  list_find (λ sub, ID sub = ID subscriber) l = Some (i, sub) →
  ∃ c, chans w !! Channel sub = Some c ∧ closed c = false ∧
    RemoveGameSubscriber subscriber w =
      Ok {| gameSubscribers :=
              delete_if_empty (GameID subscriber)
                (<[GameID subscriber := delete i l]> (gameSubscribers w));
            chans := <[Channel sub := chan_close c]> (chans w);
            fired := fired w |}.
Proof.
  intros Hwf Hk Hfind. unfold RemoveGameSubscriber. rewrite Hk, Hfind.
  apply list_find_Some in Hfind as (Hi & _ & _).
  destruct (wf_open w Hwf _ _ sub Hk) as (c & Hc & Hcl);
    [by eapply list_elem_of_lookup_2 |].
  exists c. split_and!; [done.. |]. by rewrite (close_chan_open _ _ c).
Qed.

Lemma RemoveGameSubscriber_wf subscriber w :
  wf w → ∃ w', RemoveGameSubscriber subscriber w = Ok w' ∧ wf w'.
Proof.
  intros Hwf.
  destruct (gameSubscribers w !! GameID subscriber) as [l|] eqn:Hk;
    [| exists w; split; [by apply RemoveGameSubscriber_absent | done]].
  destruct (list_find (λ sub, ID sub = ID subscriber) l) as [[i sub]|] eqn:Hfind.
  - destruct (RemoveGameSubscriber_found _ _ _ _ _ Hwf Hk Hfind)
      as (c & Hc & Hcl & ->).
    eexists. split; [done |].
    apply list_find_Some in Hfind as (Hi & _ & _).
    assert (Hold : ∀ k l', delete_if_empty (GameID subscriber)
                (<[GameID subscriber := delete i l]> (gameSubscribers w)) !! k = Some l' →
              l' ≠ [] ∧ ∃ l0, gameSubscribers w !! k = Some l0 ∧
                (∀ s, s ∈ l' → s ∈ l0 ∧ Channel s ≠ Channel sub) ∧
                (NoDup (Channel <$> l0) → NoDup (Channel <$> l'))).
    { intros k l' [(-> & -> & Hne) | (Hne & Hk')]%removed_lookup_Some.
      - split; [done |]. exists l. split_and!; [done | |].
        + intros s Hs. split; [by eapply list_elem_of_delete_inv |].
          eapply NoDup_fmap_delete_apart; [by eapply (wf_nodup w Hwf) | done..].
        + rewrite list_fmap_delete. intros Hnd0.
          eapply sublist_NoDup; [| apply sublist_delete]; done.
      - split; [by eapply (wf_nonempty w Hwf) |]. exists l'. split_and!; [done | | done].
        intros s Hs. split; [done |]. intros Heq. apply Hne.
        eapply (wf_apart w Hwf k l' s (GameID subscriber) l sub); [done.. | | done].
        by eapply list_elem_of_lookup_2. }
    constructor; simpl.
    + intros k l' Hk'. by apply Hold in Hk' as [? _].
    + intros k l' s Hk' Hs. apply Hold in Hk' as (_ & l0 & Hk0 & Hin & _).
      eapply (wf_key w Hwf); [done |]. by apply Hin.
    + intros k l' s Hk' Hs. apply Hold in Hk' as (_ & l0 & Hk0 & Hin & _).
      destruct (Hin s Hs) as [Hs0 Hch].
      destruct (wf_open w Hwf k l0 s Hk0 Hs0) as (c0 & Hc0 & Hcl0).
      exists c0. by rewrite list_lookup_insert_ne.
    + intros k l' Hk'. apply Hold in Hk' as (_ & l0 & Hk0 & _ & Hnd).
      apply Hnd. by eapply (wf_nodup w Hwf).
    + intros k1 l1 s1 k2 l2 s2 Hk1 Hs1 Hk2 Hs2.
      apply Hold in Hk1 as (_ & l01 & Hk01 & Hin1 & _).
      apply Hold in Hk2 as (_ & l02 & Hk02 & Hin2 & _).
      eapply (wf_apart w Hwf); [done | by apply Hin1 | done | by apply Hin2].
    + intros r c' Hr.
      apply list_lookup_insert_Some in Hr as [(<- & <- & _) | (_ & Hr)].
      * simpl. by apply (wf_cap w Hwf (Channel sub)).
      * by apply (wf_cap w Hwf r).
  - exists w. split; [| done].
    eapply RemoveGameSubscriber_not_found; [done.. |].
    apply list_find_None in Hfind. by rewrite Forall_forall in Hfind.
Qed.

Lemma SubscribersFor_elem w gameID s :
  s ∈ SubscribersFor w gameID →
  ∃ l, gameSubscribers w !! gameID = Some l ∧ s ∈ l.
Proof.
  unfold SubscribersFor. destruct (gameSubscribers w !! gameID) as [l|]; simpl.
  - intros Hs. by exists l.
  - intros Hs. by apply elem_of_nil in Hs.
Qed.

Lemma SubscribersFor_Some w gameID l :
  gameSubscribers w !! gameID = Some l → SubscribersFor w gameID = l.
Proof. intros Hk. unfold SubscribersFor. by rewrite Hk. Qed.

Lemma wf_allocated w k l s :
  wf w → gameSubscribers w !! k = Some l → s ∈ l → Channel s < length (chans w).
Proof.
  intros Hwf Hk Hs. destruct (wf_open w Hwf k l s Hk Hs) as (c & Hc & _).
  by eapply lookup_lt_Some.
Qed.

Lemma created_lookup_Some gameID ctx rnd w k l :
  gameSubscribers (CreateGameSubscriber gameID ctx rnd w).1 !! k = Some l ↔
  (k = gameID ∧
   l = SubscribersFor w gameID ++ [(CreateGameSubscriber gameID ctx rnd w).2]) ∨
  (k ≠ gameID ∧ gameSubscribers w !! k = Some l).
Proof.
  simpl. destruct (decide (gameID = k)) as [<- | Hne].
  - rewrite lookup_insert_eq. unfold SubscribersFor. naive_solver.
  - rewrite lookup_insert_ne by done. naive_solver.
Qed.

Lemma CreateGameSubscriber_wf gameID ctx rnd w :
  wf w → wf (CreateGameSubscriber gameID ctx rnd w).1.
Proof.
  intros Hwf.
  set (new := (CreateGameSubscriber gameID ctx rnd w).2).
  assert (Hmem : ∀ k l s,
    gameSubscribers (CreateGameSubscriber gameID ctx rnd w).1 !! k = Some l → s ∈ l →
    (k = gameID ∧ s = new) ∨
    (∃ l0, gameSubscribers w !! k = Some l0 ∧ s ∈ l0)).
  { intros k l s [(-> & ->) | (Hne & Hk)]%created_lookup_Some Hs.
    - apply elem_of_app in Hs as [Hs | Hs%list_elem_of_singleton].
      + right. by apply SubscribersFor_elem.
      + by left.
    - right. by exists l. }
  constructor.
  - intros k l [(-> & ->) | (Hne & Hk)]%created_lookup_Some.
    + by destruct (SubscribersFor w gameID).
    + by eapply (wf_nonempty w Hwf).
  - intros k l s Hk Hs.
    destruct (Hmem k l s Hk Hs) as [(-> & ->) | (l0 & Hk0 & Hs0)]; [done |].
    by eapply (wf_key w Hwf).
  - intros k l s Hk Hs.
    destruct (Hmem k l s Hk Hs) as [(-> & ->) | (l0 & Hk0 & Hs0)].
    + exists (make_chan 10). split; [| done]. simpl.
      by rewrite lookup_app_r, Nat.sub_diag by lia.
    + destruct (wf_open w Hwf k l0 s Hk0 Hs0) as (c & Hc & Hcl).
      exists c. split; [| done]. simpl. by apply lookup_app_l_Some.
  - intros k l [(-> & ->) | (Hne & Hk)]%created_lookup_Some;
      [| by eapply (wf_nodup w Hwf)].
    rewrite fmap_app. apply NoDup_app. split_and!.
    + unfold SubscribersFor.
      destruct (gameSubscribers w !! gameID) as [l0|] eqn:Hk0; simpl;
        [by eapply (wf_nodup w Hwf) | constructor].
    + intros r (s & -> & Hs)%list_elem_of_fmap Hin.
      apply list_elem_of_singleton in Hin. simpl in Hin.
      apply SubscribersFor_elem in Hs as (l0 & Hk0 & Hs0).
      pose proof (wf_allocated w gameID l0 s Hwf Hk0 Hs0). lia.
    + apply NoDup_singleton.
  - intros k1 l1 s1 k2 l2 s2 Hk1 Hs1 Hk2 Hs2 Hch.
    destruct (Hmem k1 l1 s1 Hk1 Hs1) as [(-> & ->) | (l01 & Hk01 & Hs01)];
      destruct (Hmem k2 l2 s2 Hk2 Hs2) as [(-> & ->) | (l02 & Hk02 & Hs02)].
    + done.
    + pose proof (wf_allocated w k2 l02 s2 Hwf Hk02 Hs02). simpl in Hch. lia.
    + pose proof (wf_allocated w k1 l01 s1 Hwf Hk01 Hs01). simpl in Hch. lia.
    + by eapply (wf_apart w Hwf k1 l01 s1 k2 l02 s2).
  - intros r c Hr. simpl in Hr.
    apply lookup_app_Some in Hr as [Hr | [_ Hr]].
    + by apply (wf_cap w Hwf r).
    + apply list_lookup_singleton_Some in Hr as [_ <-]. simpl. lia.
Qed.

Lemma range_select_length event po F subscribers :
  ∀ i h spawned h' spawned',
    range_select event po F i subscribers h spawned = Ok (h', spawned') →
    length h' = length h.
Proof.
  induction subscribers as [|s rest IH]; intros i h spawned h' spawned' Hrun.
  - simpl in Hrun. by inversion Hrun.
  - simpl in Hrun. destruct (select _ _ _); try done.
    + rewrite (IH _ _ _ _ _ Hrun). apply length_alter.
    + by apply (IH _ _ _ _ _ Hrun).
    + by apply (IH _ _ _ _ _ Hrun).
Qed.

(** A heap that differs from the world's only in what the channels hold,
    within their capacity, keeps the world well-formed. *)
Lemma wf_update_chans w h' :
  wf w →
  length h' = length (chans w) →
  (∀ r c', h' !! r = Some c' →
     ∃ c, chans w !! r = Some c ∧ cap c' = cap c ∧ closed c' = closed c ∧
          (length (buf c) ≤ cap c → length (buf c') ≤ cap c')) →
  wf {| gameSubscribers := gameSubscribers w; chans := h'; fired := fired w |}.
Proof.
  intros Hwf Hlen Hch. constructor; simpl.
  - apply (wf_nonempty w Hwf).
  - apply (wf_key w Hwf).
  - intros k l s Hk Hs.
    pose proof (wf_allocated w k l s Hwf Hk Hs) as Hlt.
    destruct (wf_open w Hwf k l s Hk Hs) as (c & Hc & Hcl).
    rewrite <- Hlen in Hlt. apply lookup_lt_is_Some in Hlt as [c' Hc'].
    exists c'. split; [done |].
    destruct (Hch _ _ Hc') as (c0 & Hc0 & _ & Hcl' & _). congruence.
  - apply (wf_nodup w Hwf).
  - apply (wf_apart w Hwf).
  - intros r c' Hc'. destruct (Hch _ _ Hc') as (c & Hc & Hcap & _ & Hb).
    destruct (wf_cap w Hwf r c Hc) as [Hle H10]. split; [by apply Hb | congruence].
Qed.

Lemma BroadcastGameEvent_wf gameID event po w :
  wf w →
  ∃ w' spawned,
    BroadcastGameEvent gameID event po w = Ok (w', spawned) ∧ wf w' ∧
    gameSubscribers w' = gameSubscribers w ∧ fired w' = fired w.
Proof.
  intros Hwf. unfold BroadcastGameEvent.
  destruct (gameSubscribers w !! gameID) as [l|] eqn:Hk; [| by exists w, []].
  destruct (range_select_outcomes event po (fired w) l 0 (chans w) [])
    as (h' & extra & Hrun & _ & _).
  { by eapply (wf_nodup w Hwf). }
  { intros s Hs. by eapply (wf_open w Hwf). }
  rewrite Hrun. simpl. eexists _, _. split_and!; [done | | done..].
  apply wf_update_chans; [done | by eapply range_select_length |].
  by eapply range_select_chan.
Qed.

Lemma BroadcastPersonalizedGameStatus_eq gameID game po w :
  BroadcastPersonalizedGameStatus gameID game po w =
  BroadcastGameEvent gameID (status_event gameID game) po w.
Proof.
  unfold BroadcastPersonalizedGameStatus, BroadcastGameEvent.
  destruct (gameSubscribers w !! gameID); [| done].
  by rewrite range_select_status_eq.
Qed.

Lemma receive_wf ch w : wf w → wf (receive ch w).
Proof.
  intros Hwf. apply (wf_update_chans w); [done | apply length_alter |].
  intros r c' Hc'. destruct (decide (ch = r)) as [<- | Hne].
  - rewrite list_lookup_alter_eq in Hc'.
    destruct (chans w !! ch) as [c|]; [| done]. injection Hc' as <-.
    exists c. split_and!; [done.. |]. simpl. intros Hle.
    destruct (buf c); simpl in *; lia.
  - rewrite list_lookup_alter_ne in Hc' by done. by exists c'.
Qed.

Lemma cancel_wf ctx w : wf w → wf (cancel ctx w).
Proof. intros [? ? ? ? ? ?]. by constructor. Qed.

Lemma empty_world_wf : wf empty_world.
Proof. constructor; simpl; intros *; by rewrite ?lookup_empty. Qed.

Lemma step_wf c w : wf w → ∃ w', step c w = Ok w' ∧ wf w'.
Proof.
  intros Hwf. destruct c as [g ctx rnd | s | g e po | g game po | ch | ctx]; simpl.
  - eexists. split; [done |]. by apply CreateGameSubscriber_wf.
  - by apply RemoveGameSubscriber_wf.
  - destruct (BroadcastGameEvent_wf g e po w Hwf) as (w' & sp & -> & Hwf' & _).
    by exists w'.
  - rewrite BroadcastPersonalizedGameStatus_eq.
    destruct (BroadcastGameEvent_wf g (status_event g game) po w Hwf)
      as (w' & sp & -> & Hwf' & _).
    by exists w'.
  - eexists. split; [done |]. by apply receive_wf.
  - eexists. split; [done |]. by apply cancel_wf.
Qed.

(** Every sequence of calls returns, in a well-formed world. *)
Lemma run_wf cs : ∀ w, wf w → ∃ w', run cs w = Ok w' ∧ wf w'.
Proof.
  induction cs as [|c rest IH]; intros w Hwf; simpl.
  - by exists w.
  - destruct (step_wf c w Hwf) as (w1 & -> & Hwf1). simpl. by apply IH.
Qed.

Lemma reachable_wf cs w : run cs empty_world = Ok w → wf w.
Proof.
  intros Hrun. destruct (run_wf cs empty_world empty_world_wf) as (w' & Hrun' & Hwf).
  congruence.
Qed.

Lemma select_open c done po :
  closed c = false →
  select (Some c) done po =
    if bool_decide (length (buf c) < cap c)
    then (if done then match po with SendFirst => CaseSend | DoneFirst => CaseDone end
          else CaseSend)
    else (if done then CaseDone else CaseDefault).
Proof.
  intros Hc. unfold select. rewrite try_send_open by done.
  destruct po, done; by case_bool_decide.
Qed.

Lemma chan_send_neq c event : chan_send c event ≠ c.
Proof.
  intros Heq. apply (f_equal (λ c, length (buf c))) in Heq. simpl in Heq.
  rewrite length_app in Heq. simpl in Heq. lia.
Qed.

(** With a channel behind the reference, the three outcomes exclude each
    other. *)
Lemma outcome_holds_unique o o' event s (h h' : list chan) spawned c :
  h !! Channel s = Some c →
  outcome_holds o event s h h' spawned →
  outcome_holds o' event s h h' spawned →
  o' = o.
Proof.
  intros Hc Ho Ho'.
  destruct o, o'; try done;
    unfold outcome_holds, enqueued, removal_scheduled, dropped in *;
    destruct Ho as [Hh Hm], Ho' as [Hh' Hm']; try done;
    rewrite Hc in *; simpl in *; rewrite Hh in Hh'; injection Hh' as Hh';
    first [by apply chan_send_neq in Hh' | by symmetry in Hh'; apply chan_send_neq in Hh'].
Qed.

Lemma BroadcastGameEvent_loop gameID event po w l w' spawned :
  gameSubscribers w !! gameID = Some l →
  BroadcastGameEvent gameID event po w = Ok (w', spawned) →
  range_select event po (fired w) 0 l (chans w) [] = Ok (chans w', spawned).
Proof.
  intros Hk. unfold BroadcastGameEvent. rewrite Hk.
  destruct (range_select _ _ _ _ _ _ _) as [[h' sp]|]; [| done].
  simpl. by intros [= <- <-].
Qed.

(** ** Broadcasts from a well-formed world *)

Lemma BroadcastGameEvent_select gameID event po w :
  wf w →
  ∃ w' spawned,
    BroadcastGameEvent gameID event po w = Ok (w', spawned) ∧ wf w' ∧
    gameSubscribers w' = gameSubscribers w ∧ fired w' = fired w ∧
    ∀ i s, SubscribersFor w gameID !! i = Some s →
      match select (chans w !! Channel s)
                   (bool_decide (Context s ∈ fired w)) (po i) with
      | CaseSend => enqueued event s (chans w) (chans w') spawned
      | CaseDone => removal_scheduled s (chans w) (chans w') spawned
      | CaseDefault => dropped s (chans w) (chans w') spawned
      | SendPanics => False
      end.
Proof.
  intros Hwf.
  destruct (BroadcastGameEvent_wf gameID event po w Hwf)
    as (w' & spawned & Hb & Hwf' & Htbl & Hfired).
  exists w', spawned. split_and!; [done.. |].
  unfold SubscribersFor.
  destruct (gameSubscribers w !! gameID) as [l|] eqn:Hk; simpl;
    [| intros i s Hi; by rewrite lookup_nil in Hi].
  pose proof (BroadcastGameEvent_loop _ _ _ _ _ _ _ Hk Hb) as Hloop.
  destruct (range_select_outcomes event po (fired w) l 0 (chans w) [])
    as (h' & extra & Hloop' & _ & Hout).
  { by eapply (wf_nodup w Hwf). }
  { intros s Hs. by eapply (wf_open w Hwf). }
  rewrite Hloop in Hloop'. injection Hloop' as <- <-. exact Hout.
Qed.

(** A broadcast to a subscriber whose queue is full leaves the queue as it
    is, whether its signal has fired or not. *)
Lemma BroadcastGameEvent_full gameID event po w s c :
  wf w → s ∈ SubscribersFor w gameID →
  chans w !! Channel s = Some c → cap c ≤ length (buf c) →
  ∃ w' spawned,
    BroadcastGameEvent gameID event po w = Ok (w', spawned) ∧
    chans w' !! Channel s = Some c.
Proof.
  intros Hwf Hs Hc Hfull.
  destruct (BroadcastGameEvent_select gameID event po w Hwf)
    as (w' & spawned & Hb & _ & _ & _ & Hout).
  exists w', spawned. split; [done |].
  pose proof Hs as (i & Hi)%list_elem_of_lookup_1.
  specialize (Hout i s Hi).
  apply SubscribersFor_elem in Hs as (l & Hk & Hin).
  destruct (wf_open w Hwf gameID l s Hk Hin) as (c0 & Hc0 & Hcl).
  rewrite Hc in Hc0. injection Hc0 as <-.
  rewrite Hc, select_open in Hout by done.
  rewrite bool_decide_eq_false_2 in Hout by lia.
  destruct (bool_decide (Context s ∈ fired w)); destruct Hout as [Hh _];
    by rewrite Hh.
Qed.

(** A broadcast to a subscriber whose signal has not fired enqueues the
    event when there is room and leaves the queue alone when there is none. *)
Lemma BroadcastGameEvent_alive gameID event po w s c :
  wf w → s ∈ SubscribersFor w gameID → Context s ∉ fired w →
  chans w !! Channel s = Some c →
  ∃ w' spawned,
    BroadcastGameEvent gameID event po w = Ok (w', spawned) ∧ wf w' ∧
    gameSubscribers w' = gameSubscribers w ∧ fired w' = fired w ∧
    chans w' !! Channel s =
      Some (if bool_decide (length (buf c) < cap c) then chan_send c event else c).
Proof.
  intros Hwf Hs Halive Hc.
  destruct (BroadcastGameEvent_select gameID event po w Hwf)
    as (w' & spawned & Hb & Hwf' & Htbl & Hfired & Hout).
  exists w', spawned. split_and!; [done.. |].
  pose proof Hs as (i & Hi)%list_elem_of_lookup_1.
  specialize (Hout i s Hi).
  apply SubscribersFor_elem in Hs as (l & Hk & Hin).
  destruct (wf_open w Hwf gameID l s Hk Hin) as (c0 & Hc0 & Hcl).
  rewrite Hc in Hc0. injection Hc0 as <-.
  rewrite Hc, select_open in Hout by done.
  rewrite (bool_decide_eq_false_2 _ Halive) in Hout.
  destruct (bool_decide (length (buf c) < cap c)); destruct Hout as [Hh _];
    by rewrite Hh, Hc.
Qed.

(** Broadcasts in a row to a subscriber that is alive and does not consume
    fill its queue up to the capacity, in order, and drop the rest. *)
Lemma broadcasts_fill gameID s bs :
  ∀ w c,
    wf w → s ∈ SubscribersFor w gameID → Context s ∉ fired w →
    chans w !! Channel s = Some c →
    ∃ w', run (broadcasts gameID bs) w = Ok w' ∧
          chans w' !! Channel s =
            Some {| buf := buf c ++ take (cap c - length (buf c)) (bs.*1);
                    cap := cap c;
                    closed := closed c |}.
Proof.
  induction bs as [|[event po] bs IH]; intros w c Hwf Hs Halive Hc.
  - exists w. split; [done |]. simpl. rewrite take_nil, app_nil_r. by destruct c.
  - destruct (BroadcastGameEvent_alive gameID event po w s c Hwf Hs Halive Hc)
      as (w1 & spawned & Hb & Hwf1 & Htbl & Hfired & Hc1).
    assert (Hs1 : s ∈ SubscribersFor w1 gameID).
    { unfold SubscribersFor in *. by rewrite Htbl. }
    assert (Halive1 : Context s ∉ fired w1) by by rewrite Hfired.
    destruct (IH w1 _ Hwf1 Hs1 Halive1 Hc1) as (w' & Hrun & Hc').
    exists w'. split.
    + simpl. rewrite Hb. simpl. exact Hrun.
    + rewrite Hc'. f_equal. case_bool_decide as Hroom; simpl.
      * rewrite length_app. simpl.
        replace (cap c - length (buf c)) with (S (cap c - (length (buf c) + 1))) by lia.
        simpl. by rewrite <- app_assoc.
      * replace (cap c - length (buf c)) with 0 by lia. by rewrite !take_0.
Qed.

(** ** The outcome of a broadcast for each subscriber *)

(** C1, amended: from a reachable world [BroadcastGameEvent] returns, and
    for every subscriber of the session exactly one of three things has
    happened: the event was enqueued, the removal was scheduled, or the
    event was dropped. Room in the queue and no fired signal give the
    enqueue; a full queue and a fired signal give the scheduled removal; a
    full queue and no fired signal give the drop; room in the queue together
    with a fired signal gives the enqueue or the scheduled removal,
    whichever case the runtime polls first. *)
Theorem broadcast_outcome_per_subscriber (cs : list call) (w : World)
    (gameID : string) (event : GameEvent) (po : nat → pollorder) :
  run cs empty_world = Ok w →
  ∃ w' spawned,
    BroadcastGameEvent gameID event po w = Ok (w', spawned) ∧
    ∀ i s, SubscribersFor w gameID !! i = Some s →
      let q := chans w !! Channel s in
      (has_room q ∨ is_full q) ∧
      ∃ o,
        outcome_holds o event s (chans w) (chans w') spawned ∧
        (∀ o', outcome_holds o' event s (chans w) (chans w') spawned → o' = o) ∧
        (has_room q → Context s ∉ fired w → o = Enqueued) ∧
        (is_full q → Context s ∈ fired w → o = RemovalScheduled) ∧
        (is_full q → Context s ∉ fired w → o = Dropped) ∧
        (has_room q → Context s ∈ fired w →
           o = match po i with
               | SendFirst => Enqueued
               | DoneFirst => RemovalScheduled
               end).
Proof.
  intros Hrun. apply reachable_wf in Hrun as Hwf.
  unfold BroadcastGameEvent, SubscribersFor.
  destruct (gameSubscribers w !! gameID) as [l|] eqn:Hk; simpl;
    [| exists w, []; split; [done | intros i s Hi; by rewrite lookup_nil in Hi]].
  destruct (range_select_outcomes event po (fired w) l 0 (chans w) [])
    as (h' & extra & Hloop & _ & Hout).
  { by eapply (wf_nodup w Hwf). }
  { intros s Hs. by eapply (wf_open w Hwf). }
  rewrite Hloop. simpl. eexists _, _. split; [done |]. simpl.
  intros i s Hi. specialize (Hout i s Hi). simpl in Hout.
  destruct (wf_open w Hwf gameID l s Hk) as (c & Hc & Hcl);
    [by eapply list_elem_of_lookup_2 |].
  rewrite Hc in Hout |- *. rewrite select_open in Hout by done.
  assert (Hroom : ∀ c0, Some c = Some c0 → length (buf c0) < cap c0 →
            bool_decide (length (buf c) < cap c) = true).
  { intros c0 [= <-] Hlt. by apply bool_decide_eq_true_2. }
  assert (Hfull : ∀ c0, Some c = Some c0 → cap c0 ≤ length (buf c0) →
            bool_decide (length (buf c) < cap c) = false).
  { intros c0 [= <-] Hge. apply bool_decide_eq_false_2. lia. }
  split.
  { destruct (decide (length (buf c) < cap c)); [left | right]; exists c;
      (split; [done | lia]). }
  destruct (bool_decide (length (buf c) < cap c)) eqn:Hb;
    destruct (bool_decide (Context s ∈ fired w)) eqn:Hd;
    [ apply bool_decide_eq_true in Hd | apply bool_decide_eq_false in Hd
    | apply bool_decide_eq_true in Hd | apply bool_decide_eq_false in Hd ].
  - (* room, signal fired *)
    exists (match po i with SendFirst => Enqueued | DoneFirst => RemovalScheduled end).
    split; [by destruct (po i) |]. split.
    { intros o' Ho'. eapply outcome_holds_unique; [done | | done]. by destruct (po i). }
    split_and!; intros (c0 & Hc0 & Hx) Hf;
      first [done | by specialize (Hfull c0 Hc0 Hx) | by specialize (Hroom c0 Hc0 Hx)].
  - (* room, signal not fired *)
    exists Enqueued. split; [done |]. split.
    { intros o' Ho'. by eapply outcome_holds_unique. }
    split_and!; intros (c0 & Hc0 & Hx) Hf;
      first [done | by specialize (Hfull c0 Hc0 Hx) | by specialize (Hroom c0 Hc0 Hx)].
  - (* full, signal fired *)
    exists RemovalScheduled. split; [done |]. split.
    { intros o' Ho'. by eapply outcome_holds_unique. }
    split_and!; intros (c0 & Hc0 & Hx) Hf;
      first [done | by specialize (Hfull c0 Hc0 Hx) | by specialize (Hroom c0 Hc0 Hx)].
  - (* full, signal not fired *)
    exists Dropped. split; [done |]. split.
    { intros o' Ho'. by eapply outcome_holds_unique. }
    split_and!; intros (c0 & Hc0 & Hx) Hf;
      first [done | by specialize (Hfull c0 Hc0 Hx) | by specialize (Hroom c0 Hc0 Hx)].
Qed.

Lemma broadcast_outcome_per_subscriber_witness :
  ∃ w' spawned,
    BroadcastGameEvent "g1" (move_event 0) done_first (world_of cancelled_S1)
      = Ok (w', spawned) ∧
    outcome_holds RemovalScheduled (move_event 0) S1
      (chans (world_of cancelled_S1)) (chans w') spawned.
Proof.
  destruct (broadcast_outcome_per_subscriber cancelled_S1 (world_of cancelled_S1)
              "g1" (move_event 0) done_first eq_refl)
    as (w' & spawned & Hb & Hout).
  exists w', spawned. split; [exact Hb |].
  destruct (Hout 0 S1 eq_refl) as (_ & o & Ho & _ & _ & _ & _ & Hboth).
  rewrite Hboth in Ho; [exact Ho | | ].
  - exists (make_chan 10). split; [reflexivity | simpl; lia].
  - vm_compute. reflexivity.
Defined.

(** C1, as stated, fails: S1 watches "g1", its queue is empty and its signal
    has fired; when the runtime polls the send first the event is enqueued
    all the same and no removal is scheduled. *)
Lemma fired_signal_does_not_skip_delivery :
  Context S1 ∈ fired (world_of cancelled_S1) ∧
  (∃ w', BroadcastGameEvent "g1" (move_event 0) send_first (world_of cancelled_S1)
           = Ok (w', []) ∧
         buf <$> chans w' !! Channel S1 = Some [move_event 0]) ∧
  ¬ fired_signal_skips_delivery.
Proof.
  split_and!.
  - vm_compute. reflexivity.
  - eexists. split; reflexivity.
  - intros Hclaim.
    destruct (Hclaim cancelled_S1 (world_of cancelled_S1) "g1"%string (move_event 0)
                send_first _ [] S1 eq_refl eq_refl) as [_ Hin].
    + vm_compute. left.
    + vm_compute. reflexivity.
    + by apply elem_of_nil in Hin.
Qed.

(** ** Bounded queues *)
(** C2: in every reachable world, [CreateGameSubscriber] gives the new
    subscriber an empty queue of capacity 10; every queue has capacity 10
    and holds at most 10 events; a broadcast to a subscriber whose queue
    holds 10 events returns and leaves that queue as it is; and when a new
    subscriber whose signal has not fired consumes nothing, 11 broadcasts to
    its session all return and leave the first 10 events in its queue, in
    order, the 11th dropped. *)
Theorem queue_capacity (cs : list call) (w : World) :
  run cs empty_world = Ok w →
  (∀ gameID ctx rnd,
     let r := CreateGameSubscriber gameID ctx rnd w in
     chans r.1 !! Channel r.2 = Some {| buf := []; cap := 10; closed := false |}) ∧
  (∀ ch c, chans w !! ch = Some c → cap c = 10 ∧ length (buf c) ≤ 10) ∧
  (∀ gameID event po s c,
     s ∈ SubscribersFor w gameID →
     chans w !! Channel s = Some c →
     length (buf c) = 10 →
     ∃ w' spawned,
       BroadcastGameEvent gameID event po w = Ok (w', spawned) ∧
       chans w' !! Channel s = Some c) ∧
  (∀ gameID ctx rnd bs,
     ctx ∉ fired w →
     length bs = 11 →
     let r := CreateGameSubscriber gameID ctx rnd w in
     ∃ w', run (broadcasts gameID bs) r.1 = Ok w' ∧
           chans w' !! Channel r.2 =
             Some {| buf := take 10 (bs.*1); cap := 10; closed := false |}).
Proof.
  intros Hrun. apply reachable_wf in Hrun as Hwf.
  assert (Hnew : ∀ gameID ctx rnd,
    chans (CreateGameSubscriber gameID ctx rnd w).1
      !! Channel (CreateGameSubscriber gameID ctx rnd w).2 = Some (make_chan 10)).
  { intros gameID ctx rnd. simpl. by rewrite lookup_app_r, Nat.sub_diag by lia. }
  split_and!.
  - intros gameID ctx rnd r. apply Hnew.
  - intros ch c Hc. destruct (wf_cap w Hwf ch c Hc) as [Hle H10].
    split; [done | lia].
  - intros gameID event po s c Hs Hc Hlen.
    apply BroadcastGameEvent_full; [done.. |].
    destruct (wf_cap w Hwf _ c Hc) as [_ H10]. lia.
  - intros gameID ctx rnd bs Halive Hlen r.
    destruct (broadcasts_fill gameID r.2 bs r.1 (make_chan 10)) as (w' & Hrun' & Hc').
    + by apply CreateGameSubscriber_wf.
    + unfold SubscribersFor. simpl. rewrite lookup_insert_eq. simpl.
      apply elem_of_app. right. left.
    + done.
    + apply Hnew.
    + exists w'. split; [done |]. by rewrite Hc'.
Qed.

Lemma queue_capacity_witness :
  ∃ w', run (broadcasts "g1" ((λ n, (move_event n, send_first)) <$> seq 1 11))
            (world_of registered_S1) = Ok w' ∧
        buf <$> chans w' !! Channel S1 = Some (move_event <$> seq 1 10).
Proof.
  destruct (queue_capacity [] empty_world eq_refl) as (_ & _ & _ & Hfill).
  destruct (Hfill "g1"%string 1 [] ((λ n, (move_event n, send_first)) <$> seq 1 11))
    as (w' & Hrun & Hc).
  - apply not_elem_of_empty.
  - reflexivity.
  - exists w'. split; [exact Hrun |]. simpl in Hc. unfold S1. simpl.
    rewrite Hc. reflexivity.
Defined.

(** ** Consistency of the registry *)

(** C3: every finite sequence of calls from the empty registry returns
    (sequences of Register and Deregister among them), and in the world it
    leaves a session key is in the table exactly when the session's set is
    not empty; a removal that takes the last subscriber of a session deletes
    the key. *)
Theorem registry_consistency (cs : list call) :
  ∃ w,
    run cs empty_world = Ok w ∧
    (∀ gameID,
       is_Some (gameSubscribers w !! gameID) ↔ SubscribersFor w gameID ≠ []) ∧
    (∀ subscriber s,
       gameSubscribers w !! GameID subscriber = Some [s] →
       ID s = ID subscriber →
       ∃ w', RemoveGameSubscriber subscriber w = Ok w' ∧
             gameSubscribers w' !! GameID subscriber = None).
Proof.
  destruct (run_wf cs empty_world empty_world_wf) as (w & Hrun & Hwf).
  exists w. split_and!; [done | |].
  - intros gameID. unfold SubscribersFor. split.
    + intros [l Hk]. rewrite Hk. simpl. by eapply (wf_nonempty w Hwf).
    + destruct (gameSubscribers w !! gameID); [by eexists | done].
  - intros subscriber s Hk Hid.
    assert (Hfind : list_find (λ sub, ID sub = ID subscriber) [s] = Some (0, s)).
    { simpl. by rewrite decide_True. }
    destruct (RemoveGameSubscriber_found _ _ _ _ _ Hwf Hk Hfind) as (c & _ & _ & ->).
    eexists. split; [done |]. simpl.
    apply eq_None_not_Some. intros [l Hl].
    apply delete_if_empty_lookup_Some in Hl as [Hl Hne].
    rewrite lookup_insert_eq in Hl. injection Hl as <-. by apply Hne.
Qed.

Lemma registry_consistency_witness :
  ∃ w, run [Register "g1" 1 []; Register "g2" 2 []; Deregister S1] empty_world = Ok w ∧
       (is_Some (gameSubscribers w !! "g2") ↔ SubscribersFor w "g2" ≠ []).
Proof.
  destruct (registry_consistency [Register "g1" 1 []; Register "g2" 2 []; Deregister S1])
    as (w & Hrun & Hiff & _).
  exists w. split; [exact Hrun | apply Hiff].
Defined.

(** ** Cancellation *)

Lemma SubscribersFor_singleton w gameID s :
  SubscribersFor w gameID = [s] → gameSubscribers w !! gameID = Some [s].
Proof.
  unfold SubscribersFor. destruct (gameSubscribers w !! gameID); simpl; [| done].
  by intros ->.
Qed.

(** C4, amended: a subscriber whose signal has fired is the only one of a
    session, in a reachable world. A broadcast to the session whose [select]
    takes the cancellation case for it (it does when the runtime polls that
    case first, and always when the queue is full) returns with the world as
    it was, the subscriber still in the table, and one goroutine started.
    Once that goroutine has run, the subscriber is out of the set, the set
    is empty and the key absent, the queue has gone from open to closed, and
    a further removal of the same subscriber changes nothing, so the queue
    is closed once. *)
Theorem cancellation_convergence (cs : list call) (w : World) (gameID : string)
    (s : GameSubscriber) (event : GameEvent) (po : nat → pollorder) :
  run cs empty_world = Ok w →
  SubscribersFor w gameID = [s] →
  Context s ∈ fired w →
  po 0 = DoneFirst ∨ is_full (chans w !! Channel s) →
  ∃ c w'',
    chans w !! Channel s = Some c ∧ closed c = false ∧
    BroadcastGameEvent gameID event po w = Ok (w, [s]) ∧
    run_spawned [s] w = Ok w'' ∧
    SubscribersFor w'' gameID = [] ∧
    gameSubscribers w'' !! gameID = None ∧
    chans w'' !! Channel s = Some (chan_close c) ∧
    RemoveGameSubscriber s w'' = Ok w''.
Proof.
  intros Hrun Hsole Hfired Hcase. apply reachable_wf in Hrun as Hwf.
  apply SubscribersFor_singleton in Hsole as Hk.
  assert (Hs : s ∈ [s]) by left.
  destruct (wf_open w Hwf gameID [s] s Hk Hs) as (c & Hc & Hcl).
  pose proof (wf_key w Hwf gameID [s] s Hk Hs) as Hgid.
  assert (Hsel : select (chans w !! Channel s)
                   (bool_decide (Context s ∈ fired w)) (po 0) = CaseDone).
  { rewrite Hc, select_open by done. rewrite (bool_decide_eq_true_2 _ Hfired).
    destruct Hcase as [-> | (c0 & Hc0 & Hge)]; [by case_bool_decide |].
    rewrite Hc in Hc0. injection Hc0 as <-.
    rewrite bool_decide_eq_false_2; [done | lia]. }
  assert (Hfind : list_find (λ sub, ID sub = ID s) [s] = Some (0, s)).
  { simpl. by rewrite decide_True. }
  rewrite <- Hgid in Hk.
  destruct (RemoveGameSubscriber_found s w [s] 0 s Hwf Hk Hfind) as (c' & Hc' & _ & Hrem).
  rewrite Hc in Hc'. injection Hc' as <-.
  rewrite Hgid in Hk, Hrem.
  assert (Hgone : delete_if_empty gameID
            (<[gameID := delete 0 [s]]> (gameSubscribers w)) !! gameID = None).
  { apply eq_None_not_Some. intros [l Hl].
    apply delete_if_empty_lookup_Some in Hl as [Hl Hne].
    rewrite lookup_insert_eq in Hl. injection Hl as <-. by apply Hne. }
  exists c, {| gameSubscribers :=
                delete_if_empty gameID (<[gameID := delete 0 [s]]> (gameSubscribers w));
              chans := <[Channel s := chan_close c]> (chans w);
              fired := fired w |}.
  split_and!; [done | done | | | | | |].
  - unfold BroadcastGameEvent. rewrite Hk. simpl. rewrite Hsel. simpl. by destruct w.
  - cbn [run_spawned]. by rewrite Hrem.
  - unfold SubscribersFor. cbn [gameSubscribers]. by rewrite Hgone.
  - exact Hgone.
  - cbn [chans]. apply list_lookup_insert_eq. by eapply lookup_lt_Some.
  - apply RemoveGameSubscriber_absent. cbn [gameSubscribers]. by rewrite Hgid.
Qed.

Lemma cancellation_convergence_witness :
  ∃ c w'',
    chans (world_of cancelled_S1) !! Channel S1 = Some c ∧ closed c = false ∧
    BroadcastGameEvent "g1" (move_event 0) done_first (world_of cancelled_S1)
      = Ok (world_of cancelled_S1, [S1]) ∧
    run_spawned [S1] (world_of cancelled_S1) = Ok w'' ∧
    SubscribersFor w'' "g1" = [] ∧
    gameSubscribers w'' !! "g1" = None ∧
    chans w'' !! Channel S1 = Some (chan_close c) ∧
    RemoveGameSubscriber S1 w'' = Ok w''.
Proof.
  apply (cancellation_convergence cancelled_S1 (world_of cancelled_S1) "g1" S1
           (move_event 0) done_first).
  - reflexivity.
  - reflexivity.
  - vm_compute. reflexivity.
  - left. reflexivity.
Defined.

(** C4, as stated, fails. S1 is the only subscriber of "g1" and its signal
    has fired. When the runtime polls the send first, the broadcast enqueues
    the event and starts no goroutine: S1 stays registered with its queue
    open. When it polls the cancellation first, a goroutine is started, and
    on return S1 is still in the table. *)
Lemma cancelled_subscriber_still_registered :
  SubscribersFor (world_of cancelled_S1) "g1" = [S1] ∧
  Context S1 ∈ fired (world_of cancelled_S1) ∧
  (∃ w', BroadcastGameEvent "g1" (move_event 0) send_first (world_of cancelled_S1)
           = Ok (w', []) ∧
         run_spawned [] w' = Ok w' ∧
         SubscribersFor w' "g1" = [S1] ∧
         closed <$> chans w' !! Channel S1 = Some false) ∧
  (∃ w', BroadcastGameEvent "g1" (move_event 0) done_first (world_of cancelled_S1)
           = Ok (w', [S1]) ∧
         SubscribersFor w' "g1" = [S1]) ∧
  ¬ removed_when_broadcast_returns.
Proof.
  split_and!.
  - reflexivity.
  - vm_compute. reflexivity.
  - eexists. split_and!; reflexivity.
  - eexists. split_and!; reflexivity.
  - intros Hclaim.
    destruct (Hclaim cancelled_S1 (world_of cancelled_S1) S1 (move_event 0) send_first
                (world_of (cancelled_S1 ++ [Broadcast "g1" (move_event 0) send_first]))
                [] eq_refl eq_refl) as (Hempty & _ & _).
    + vm_compute. reflexivity.
    + reflexivity.
    + vm_compute in Hempty. discriminate Hempty.
Qed.

(** ** Deregistering twice *)

(** C5: from a reachable world, [RemoveGameSubscriber] on a subscriber whose
    id no entry of its session's set carries returns the world unchanged:
    no panic, no channel closed, every set as it was. With ids unique within
    the session's set, a second [RemoveGameSubscriber] on the same
    subscriber is such a call. *)
Theorem deregister_removed_is_noop (cs : list call) (w : World)
    (subscriber : GameSubscriber) :
  run cs empty_world = Ok w →
  ((∀ s, s ∈ SubscribersFor w (GameID subscriber) → ID s ≠ ID subscriber) →
   RemoveGameSubscriber subscriber w = Ok w) ∧
  (NoDup (ID <$> SubscribersFor w (GameID subscriber)) →
   ∃ w1, RemoveGameSubscriber subscriber w = Ok w1 ∧
         RemoveGameSubscriber subscriber w1 = Ok w1).
Proof.
  intros Hrun. apply reachable_wf in Hrun as Hwf.
  assert (Hnoop : ∀ w0, wf w0 →
    (∀ s, s ∈ SubscribersFor w0 (GameID subscriber) → ID s ≠ ID subscriber) →
    RemoveGameSubscriber subscriber w0 = Ok w0).
  { intros w0 Hwf0 Hid.
    destruct (gameSubscribers w0 !! GameID subscriber) as [l|] eqn:Hk;
      [| by apply RemoveGameSubscriber_absent].
    eapply RemoveGameSubscriber_not_found; [done.. |].
    by rewrite <- (SubscribersFor_Some w0 _ l Hk). }
  split; [by apply Hnoop |].
  intros Hnd.
  destruct (gameSubscribers w !! GameID subscriber) as [l|] eqn:Hk;
    [| exists w; split; by apply RemoveGameSubscriber_absent].
  rewrite (SubscribersFor_Some w _ l Hk) in Hnd.
  destruct (list_find (λ sub, ID sub = ID subscriber) l) as [[i sub]|] eqn:Hfind.
  - destruct (RemoveGameSubscriber_wf subscriber w Hwf) as (w1 & Hrem & Hwf1).
    exists w1. split; [done |]. apply Hnoop; [done |].
    destruct (RemoveGameSubscriber_found _ _ _ _ _ Hwf Hk Hfind) as (c & _ & _ & Heq).
    rewrite Heq in Hrem. injection Hrem as <-.
    apply list_find_Some in Hfind as (Hi & Hid & _).
    intros s (l1 & Hl1 & Hs)%SubscribersFor_elem. simpl in Hl1.
    apply removed_lookup_Some in Hl1 as [(_ & -> & _) | (Hne & _)]; [| done].
    rewrite <- Hid. by eapply (NoDup_fmap_delete_apart ID l i sub s).
  - apply list_find_None in Hfind. rewrite Forall_forall in Hfind.
    exists w. split; by eapply RemoveGameSubscriber_not_found.
Qed.

Lemma deregister_removed_is_noop_witness :
  ∃ w1, RemoveGameSubscriber S1 (world_of registered_S1) = Ok w1 ∧
        RemoveGameSubscriber S1 w1 = Ok w1.
Proof.
  apply (deregister_removed_is_noop registered_S1 (world_of registered_S1) S1 eq_refl).
  vm_compute. apply NoDup_singleton.
Defined.

(** ** Isolation between sessions *)

(** C7: a broadcast to session A, from a reachable world, touches only the
    channels of the subscribers stored under A; a subscriber stored under
    another key B is not stored under A, its queue is after the call what it
    was before, and no goroutine is started for it. *)
Theorem broadcast_isolation (cs : list call) (w : World) (A B : string)
    (event : GameEvent) (po : nat → pollorder) :
  run cs empty_world = Ok w →
  A ≠ B →
  ∃ w' spawned,
    BroadcastGameEvent A event po w = Ok (w', spawned) ∧
    (∀ ch, (∀ s, s ∈ SubscribersFor w A → Channel s ≠ ch) →
           chans w' !! ch = chans w !! ch) ∧
    (∀ s, s ∈ SubscribersFor w B →
          (s ∉ SubscribersFor w A) ∧
          chans w' !! Channel s = chans w !! Channel s ∧
          (s ∉ spawned)).
Proof.
  intros Hrun HAB. apply reachable_wf in Hrun as Hwf.
  destruct (BroadcastGameEvent_wf A event po w Hwf) as (w' & spawned & Hb & _).
  exists w', spawned. split; [done |].
  destruct (gameSubscribers w !! A) as [l|] eqn:HA.
  - pose proof (BroadcastGameEvent_loop _ _ _ _ _ _ _ HA Hb) as Hloop.
    rewrite (SubscribersFor_Some w A l HA).
    assert (Hframe : ∀ ch, (∀ s, s ∈ l → Channel s ≠ ch) →
              chans w' !! ch = chans w !! ch).
    { intros ch Hch. by eapply range_select_frame. }
    split; [done |]. intros s (lB & HB & Hs)%SubscribersFor_elem.
    assert (Hnot : s ∉ l).
    { intros Hin. apply HAB. rewrite <- (wf_key w Hwf A l s HA Hin).
      by apply (wf_key w Hwf B lB s HB Hs). }
    split_and!; [done | |].
    + apply Hframe. intros s' Hs' Heq. apply HAB.
      by eapply (wf_apart w Hwf A l s' B lB s).
    + destruct (range_select_spawned _ _ _ _ _ _ _ _ _ Hloop) as (extra & -> & Hall).
      simpl. intros Hin. rewrite Forall_forall in Hall.
      by destruct (Hall s Hin).
  - unfold BroadcastGameEvent in Hb. rewrite HA in Hb. injection Hb as <- <-.
    split; [done |]. intros s Hs. unfold SubscribersFor at 1. rewrite HA. simpl.
    split_and!; [apply not_elem_of_nil | done | apply not_elem_of_nil].
Qed.

Lemma broadcast_isolation_witness :
  ∃ w' spawned,
    BroadcastGameEvent "g1" (move_event 0) send_first
      (world_of [Register "g1" 1 []; Register "g2" 2 [x01]]) = Ok (w', spawned) ∧
    ∀ s, s ∈ SubscribersFor (world_of [Register "g1" 1 []; Register "g2" 2 [x01]]) "g2" →
         chans w' !! Channel s =
         chans (world_of [Register "g1" 1 []; Register "g2" 2 [x01]]) !! Channel s.
Proof.
  destruct (broadcast_isolation [Register "g1" 1 []; Register "g2" 2 [x01]]
              (world_of [Register "g1" 1 []; Register "g2" 2 [x01]])
              "g1" "g2" (move_event 0) send_first eq_refl)
    as (w' & spawned & Hb & _ & Hother).
  - discriminate.
  - exists w', spawned. split; [exact Hb |].
    intros s Hs. apply (Hother s Hs).
Defined.

(** ** Broadcast to an unwatched session *)

(** C8: when the session key is absent from the table, [BroadcastGameEvent]
    returns at once, without a panic: the world it returns is the world it
    was given (table, channels and signals) and it starts no goroutine. *)
Theorem broadcast_unwatched_noop (w : World) (gameID : string)
    (event : GameEvent) (po : nat → pollorder) :
  gameSubscribers w !! gameID = None →
  BroadcastGameEvent gameID event po w = Ok (w, []).
Proof. intros Hk. unfold BroadcastGameEvent. by rewrite Hk. Qed.

Lemma broadcast_unwatched_noop_witness :
  BroadcastGameEvent "g2" (move_event 0) send_first (world_of registered_S1) =
    Ok (world_of registered_S1, []).
Proof. apply (broadcast_unwatched_noop (world_of registered_S1) "g2"). reflexivity. Defined.

(** ** The personalized broadcast *)

(** C9, amended: [BroadcastPersonalizedGameStatus] is [BroadcastGameEvent]
    applied to one event, of type "game_status", that carries the game id
    and the snapshot; the event is the same for every subscriber and the
    enqueue, skip and drop outcomes are those of [BroadcastGameEvent]. *)
Theorem personalized_is_broadcast_of_game_status (gameID : string) (game : nat)
    (po : nat → pollorder) (w : World) :
  BroadcastPersonalizedGameStatus gameID game po w =
    BroadcastGameEvent gameID (status_event gameID game) po w ∧
  Type_ (status_event gameID game) = "game_status" ∧
  EventGameID (status_event gameID game) = gameID ∧
  Data (status_event gameID game) =
    AMap [("gameID"%string, AString gameID); ("game"%string, AGame game)].
Proof. split; [apply BroadcastPersonalizedGameStatus_eq | done]. Qed.

(** C9, as stated, fails: with S1 registered for "g1" the personalized
    broadcast puts an event of type "game_status" on S1's queue, which the
    broadcast of no event of type "status" does. *)
Lemma personalized_tag_is_not_status :
  (buf <$> chans (world_of registered_S1) !! Channel S1 = Some []) ∧
  (∃ w', BroadcastPersonalizedGameStatus "g1" 0 send_first (world_of registered_S1)
           = Ok (w', []) ∧
         Type_ <$> (chans w' !! Channel S1 ≫= λ c, head (buf c)) = Some "game_status"%string) ∧
  ¬ personalized_broadcasts_status_tag.
Proof.
  split_and!; [done | by eexists | ].
  intros Hclaim.
  destruct (Hclaim "g1"%string 0 send_first (world_of registered_S1))
    as (event & Htag & Heq).
  vm_compute in Heq. injection Heq as Heq. rewrite <- Heq in Htag. done.
Qed.

(** ** The broadcasts leave the registry alone *)

Lemma BroadcastGameEvent_frame gameID event po w r :
  BroadcastGameEvent gameID event po w = Ok r → broadcast_frame gameID w r.
Proof.
  unfold BroadcastGameEvent, broadcast_frame.
  destruct (gameSubscribers w !! gameID) as [l|] eqn:Hk.
  - destruct (range_select event po (fired w) 0 l (chans w) []) as [[h' sp]|] eqn:Hrun;
      [| done].
    simpl. intros [= <-]. simpl. split_and!; [done.. | |].
    + intros ch c' Hc'.
      destruct (range_select_chan _ _ _ _ _ _ _ _ _ Hrun ch c' Hc')
        as (c & Hc & _ & Hcl & _).
      by exists c.
    + destruct (range_select_spawned _ _ _ _ _ _ _ _ _ Hrun) as (extra & -> & Hall).
      simpl. intros s Hs. rewrite Forall_forall in Hall.
      rewrite (SubscribersFor_Some w gameID l Hk). by apply Hall.
  - intros [= <-]. simpl. split_and!; [done.. | |].
    + intros ch c' Hc'. by exists c'.
    + intros s Hs. by apply elem_of_nil in Hs.
Qed.

(** C10: neither [BroadcastGameEvent] nor [BroadcastPersonalizedGameStatus]
    changes the table: the world either returns has the table (and the
    signals) it was given and no channel closed that was open, and the
    removal of a cancelled subscriber appears only as a goroutine started
    for a subscriber of the session whose signal has fired; from a reachable
    world both calls return. *)
Theorem broadcast_leaves_registry (gameID : string) (event : GameEvent)
    (game : nat) (po : nat → pollorder) :
  (∀ w r, BroadcastGameEvent gameID event po w = Ok r → broadcast_frame gameID w r) ∧
  (∀ w r, BroadcastPersonalizedGameStatus gameID game po w = Ok r →
          broadcast_frame gameID w r) ∧
  (∀ cs w, run cs empty_world = Ok w →
     (∃ r, BroadcastGameEvent gameID event po w = Ok r) ∧
     (∃ r, BroadcastPersonalizedGameStatus gameID game po w = Ok r)).
Proof.
  split_and!.
  - intros w r. apply BroadcastGameEvent_frame.
  - intros w r. rewrite BroadcastPersonalizedGameStatus_eq.
    apply BroadcastGameEvent_frame.
  - intros cs w Hrun. apply reachable_wf in Hrun. split.
    + destruct (BroadcastGameEvent_wf gameID event po w Hrun) as (w' & sp & Hb & _).
      by exists (w', sp).
    + rewrite BroadcastPersonalizedGameStatus_eq.
      destruct (BroadcastGameEvent_wf gameID (status_event gameID game) po w Hrun)
        as (w' & sp & Hb & _).
      by exists (w', sp).
Qed.

Lemma broadcast_leaves_registry_witness :
  ∃ r, BroadcastGameEvent "g1" (move_event 0) done_first (world_of cancelled_S1) = Ok r ∧
       gameSubscribers r.1 = gameSubscribers (world_of cancelled_S1) ∧
       r.2 = [S1].
Proof.
  pose proof (broadcast_leaves_registry "g1" (move_event 0) 0 done_first) as (Hf & _ & _).
  eexists. split; [reflexivity |]. split; [| reflexivity].
  apply (Hf (world_of cancelled_S1)). reflexivity.
Defined.


(** * Further properties of the package *)

(** ** Subscriber identifiers *)

Lemma hex_digit_inj m n : m < 16 → n < 16 → hex_digit m = hex_digit n → m = n.
Proof.
  intros Hm Hn.
  do 16 (destruct m as [|m]; [do 16 (destruct n as [|n]; [done |]); lia |]).
  lia.
Qed.

Lemma sprintf_x_length bytes : String.length (sprintf_x bytes) = 2 * length bytes.
Proof. induction bytes as [|b rest IH]; simpl; [done | rewrite IH; lia]. Qed.

Lemma sprintf_x_cons b rest :
  sprintf_x (b :: rest) =
    String (hex_digit (Byte.to_nat b / 16))
      (String (hex_digit (Byte.to_nat b mod 16)) (sprintf_x rest)).
Proof. reflexivity. Qed.

Lemma sprintf_x_inj bytes1 : ∀ bytes2,
  length bytes1 = length bytes2 →
  sprintf_x bytes1 = sprintf_x bytes2 → bytes1 = bytes2.
Proof.
  induction bytes1 as [|b1 rest1 IH]; intros [|b2 rest2] Hlen Heq; try done.
  simpl in Hlen. rewrite !sprintf_x_cons in Heq.
  apply (f_equal (λ s, match s with String a (String b r) => (a, b, r) | _ => ("0"%char, "0"%char, EmptyString) end)) in Heq.
  assert (Hhi := f_equal (λ t, t.1.1) Heq). assert (Hlo := f_equal (λ t, t.1.2) Heq).
  assert (Hrest := f_equal snd Heq). cbv beta iota zeta delta [fst snd] in Hhi, Hlo, Hrest. clear Heq.
  pose proof (Byte.to_nat_bounded b1) as Hb1.
  pose proof (Byte.to_nat_bounded b2) as Hb2.
  apply hex_digit_inj in Hhi;
    [| apply Nat.Div0.div_lt_upper_bound; lia | apply Nat.Div0.div_lt_upper_bound; lia].
  apply hex_digit_inj in Hlo; [| apply Nat.mod_upper_bound; lia..].
  assert (Hnat : Byte.to_nat b1 = Byte.to_nat b2).
  { rewrite (Nat.div_mod_eq (Byte.to_nat b1) 16), (Nat.div_mod_eq (Byte.to_nat b2) 16).
    by rewrite Hhi, Hlo. }
  f_equal.
  - pose proof (Byte.of_to_nat b1) as H1. pose proof (Byte.of_to_nat b2) as H2.
    rewrite Hnat in H1. congruence.
  - apply IH; [lia | done].
Qed.

(** X1: [generateSubscriberID] returns 16 characters whatever [rand.Read]
    wrote, and two eight-byte buffers that differ give two ids that differ. *)
Theorem generateSubscriberID_injective (rnd1 rnd2 : list byte) :
  String.length (generateSubscriberID rnd1) = 16 ∧
  (length rnd1 = 8 → length rnd2 = 8 →
   generateSubscriberID rnd1 = generateSubscriberID rnd2 → rnd1 = rnd2).
Proof.
  unfold generateSubscriberID. split.
  - by rewrite sprintf_x_length, length_resize.
  - intros H1 H2. rewrite !resize_all_alt by done.
    apply sprintf_x_inj. congruence.
Qed.

Lemma generateSubscriberID_injective_witness :
  generateSubscriberID [x01; x02; x03; x04; x05; x06; x07; x08] ≠
  generateSubscriberID [x01; x02; x03; x04; x05; x06; x07; x09].
Proof.
  destruct (generateSubscriberID_injective
              [x01; x02; x03; x04; x05; x06; x07; x08]
              [x01; x02; x03; x04; x05; x06; x07; x09]) as [_ Hinj].
  intros Heq. by pose proof (Hinj eq_refl eq_refl Heq).
Defined.


(** ** What every reachable world satisfies *)

(** X2: in every reachable world each subscriber in the table is stored
    under its own [GameID], owns an allocated channel that has not been
    closed, and shares that channel with no other entry of the table. *)
Theorem registered_subscribers_own_open_channels (cs : list call) (w : World) :
  run cs empty_world = Ok w →
  ∀ k s, s ∈ SubscribersFor w k →
    GameID s = k ∧
    (∃ c, chans w !! Channel s = Some c ∧ closed c = false) ∧
    (∀ k' s', s' ∈ SubscribersFor w k' → Channel s' = Channel s → k' = k ∧ s' = s).
Proof.
  intros Hrun k s (l & Hk & Hs)%SubscribersFor_elem.
  apply reachable_wf in Hrun as Hwf. split_and!.
  - by eapply (wf_key w Hwf).
  - by eapply (wf_open w Hwf).
  - intros k' s' (l' & Hk' & Hs')%SubscribersFor_elem Hch.
    assert (k' = k) as -> by by eapply (wf_apart w Hwf k' l' s' k l s).
    split; [done |]. rewrite Hk in Hk'. injection Hk' as <-.
    pose proof (wf_nodup w Hwf k l Hk) as Hnd.
    apply list_elem_of_lookup_1 in Hs as [i Hi].
    apply list_elem_of_lookup_1 in Hs' as [j Hj].
    assert (i = j) as ->; [| congruence].
    eapply NoDup_lookup; [done | |]; rewrite list_lookup_fmap.
    + by rewrite Hi.
    + rewrite Hj. simpl. by rewrite Hch.
Qed.

Lemma registered_subscribers_own_open_channels_witness :
  GameID S1 = "g1"%string ∧
  (∃ c, chans (world_of registered_S1) !! Channel S1 = Some c ∧ closed c = false).
Proof.
  destruct (registered_subscribers_own_open_channels registered_S1
              (world_of registered_S1) eq_refl "g1"%string S1) as (Hg & Hc & _).
  - vm_compute. left.
  - split; [exact Hg | exact Hc].
Defined.

(** ** Registering and deregistering *)

Lemma list_find_snoc_fresh (id : string) (l : list GameSubscriber) s :
  (∀ x, x ∈ l → ID x ≠ id) → ID s = id →
  list_find (λ sub, ID sub = id) (l ++ [s]) = Some (length l, s).
Proof.
  intros Hfresh Hid. apply list_find_Some. split_and!.
  - by rewrite lookup_app_r, Nat.sub_diag by lia.
  - done.
  - intros j y Hj Hlt. rewrite lookup_app_l in Hj by done.
    apply Hfresh. by eapply list_elem_of_lookup_2.
Qed.

Lemma delete_snoc {A} (l : list A) x : delete (length l) (l ++ [x]) = l.
Proof. induction l as [|y l IH]; simpl; [done | by rewrite IH]. Qed.

(** X3: registering a subscriber whose id no entry of the session's set
    carries and deregistering it again gives back the table as it was,
    session key included; the signals are untouched and the only change to
    the heap is the new channel, closed. *)
Theorem register_deregister_roundtrip (cs : list call) (w : World)
    (gameID : string) (ctx : nat) (rnd : list byte) :
  run cs empty_world = Ok w →
  (∀ s, s ∈ SubscribersFor w gameID → ID s ≠ generateSubscriberID rnd) →
  let r := CreateGameSubscriber gameID ctx rnd w in
  RemoveGameSubscriber r.2 r.1 =
    Ok {| gameSubscribers := gameSubscribers w;
          chans := chans w ++ [chan_close (make_chan 10)];
          fired := fired w |}.
Proof.
  intros Hrun Hfresh r. apply reachable_wf in Hrun as Hwf.
  pose proof (CreateGameSubscriber_wf gameID ctx rnd w Hwf) as Hwf1.
  set (l := SubscribersFor w gameID) in *.
  assert (Hk1 : gameSubscribers r.1 !! GameID r.2 = Some (l ++ [r.2])).
  { simpl. by rewrite lookup_insert_eq. }
  assert (Hfind : list_find (λ sub, ID sub = ID r.2) (l ++ [r.2]) = Some (length l, r.2)).
  { by apply list_find_snoc_fresh. }
  destruct (RemoveGameSubscriber_found r.2 r.1 _ _ _ Hwf1 Hk1 Hfind)
    as (c & Hc & _ & ->).
  assert (c = make_chan 10) as ->.
  { simpl in Hc. rewrite lookup_app_r, Nat.sub_diag in Hc by lia. by injection Hc. }
  f_equal. f_equal.
  - rewrite delete_snoc. unfold r. cbn [CreateGameSubscriber fst snd gameSubscribers GameID].
    rewrite insert_insert_eq. unfold l, SubscribersFor.
    destruct (gameSubscribers w !! gameID) as [l0|] eqn:Hk; simpl.
    + rewrite delete_if_empty_id.
      * by apply insert_id.
      * intros l' Hl'. rewrite lookup_insert_eq in Hl'. injection Hl' as <-.
        by eapply (wf_nonempty w Hwf).
    + unfold delete_if_empty. rewrite lookup_insert_eq. simpl.
      by apply delete_insert_id.
  - unfold r. cbn [CreateGameSubscriber fst snd chans Channel].
    rewrite insert_app_r_alt, Nat.sub_diag by lia. done.
Qed.

Lemma register_deregister_roundtrip_witness :
  RemoveGameSubscriber S1 (world_of registered_S1) =
    Ok {| gameSubscribers := ∅; chans := [chan_close (make_chan 10)]; fired := ∅ |}.
Proof.
  apply (register_deregister_roundtrip [] empty_world "g1" 1 [] eq_refl).
  intros s Hs. vm_compute in Hs. by apply elem_of_nil in Hs.
Defined.


Lemma filter_all {A} (P : A → Prop) `{!∀ x, Decision (P x)} (l : list A) :
  (∀ x, x ∈ l → P x) → filter P l = l.
Proof.
  induction l as [|y l IH]; intros Hall; [done |].
  rewrite filter_cons_True by (apply Hall; left).
  f_equal. apply IH. intros x Hx. apply Hall. by right.
Qed.

Lemma filter_ext_elem {A} (P Q : A → Prop)
    `{!∀ x, Decision (P x)} `{!∀ x, Decision (Q x)} (l : list A) :
  (∀ x, x ∈ l → P x ↔ Q x) → filter P l = filter Q l.
Proof.
  induction l as [|y l IH]; intros Hext; [done |].
  assert (Hl : filter P l = filter Q l).
  { apply IH. intros x Hx. apply Hext. by right. }
  destruct (decide (P y)) as [Hy | Hy].
  - rewrite !filter_cons_True; [by rewrite Hl | | done]. apply Hext; [left | done].
  - rewrite !filter_cons_False; [done | | done]. intros HQ. apply Hy, Hext; [left | done].
Qed.

Lemma delete_filter_unique {A B} (f : A → B) `{!EqDecision B} (l : list A) :
  ∀ i x, NoDup (f <$> l) → l !! i = Some x →
    delete i l = filter (λ y, f y ≠ f x) l.
Proof.
  induction l as [|y l IH]; intros i x Hnd Hi; [done |].
  rewrite fmap_cons in Hnd. apply NoDup_cons in Hnd as [Hy Hnd].
  destruct i as [|i]; simpl in Hi.
  - injection Hi as ->. simpl. rewrite filter_cons_False by (intros Hne; by apply Hne).
    symmetry. apply filter_all. intros z Hz Heq. apply Hy. rewrite <- Heq.
    by apply list_elem_of_fmap_2.
  - simpl. rewrite filter_cons_True.
    + f_equal. by apply IH.
    + intros Heq. apply Hy. rewrite Heq. apply list_elem_of_fmap_2.
      by eapply list_elem_of_lookup_2.
Qed.

Lemma NoDup_fmap_eq {A B} (f : A → B) (l : list A) x y :
  NoDup (f <$> l) → x ∈ l → y ∈ l → f x = f y → x = y.
Proof.
  intros Hnd [i Hi]%list_elem_of_lookup_1 [j Hj]%list_elem_of_lookup_1 Heq.
  assert (i = j) as ->; [| congruence].
  eapply NoDup_lookup; [done | |]; rewrite list_lookup_fmap.
  - by rewrite Hi.
  - rewrite Hj. simpl. by rewrite Heq.
Qed.

Lemma NoDup_fmap_filter {A B} (f : A → B) (P : A → Prop)
    `{!∀ x, Decision (P x)} (l : list A) :
  NoDup (f <$> l) → NoDup (f <$> filter P l).
Proof.
  induction l as [|y l IH]; intros Hnd; [done |].
  rewrite fmap_cons in Hnd. apply NoDup_cons in Hnd as [Hy Hnd].
  destruct (decide (P y)).
  - rewrite filter_cons_True by done. rewrite fmap_cons. apply NoDup_cons.
    split; [| by apply IH].
    intros (z & Hz & [_ Hin]%list_elem_of_filter)%list_elem_of_fmap.
    apply Hy. rewrite Hz. by apply list_elem_of_fmap_2.
  - rewrite filter_cons_False by done. by apply IH.
Qed.

(** What one [RemoveGameSubscriber] does when ids are unique within the
    session's set. *)
Lemma RemoveGameSubscriber_unique subscriber w :
  wf w →
  NoDup (ID <$> SubscribersFor w (GameID subscriber)) →
  ∃ w',
    RemoveGameSubscriber subscriber w = Ok w' ∧ wf w' ∧ fired w' = fired w ∧
    SubscribersFor w' (GameID subscriber) =
      filter (λ x, ID x ≠ ID subscriber) (SubscribersFor w (GameID subscriber)) ∧
    (∀ k, k ≠ GameID subscriber → gameSubscribers w' !! k = gameSubscribers w !! k) ∧
    (∀ x, x ∈ SubscribersFor w (GameID subscriber) → ID x = ID subscriber →
       ∃ c, chans w !! Channel x = Some c ∧
            chans w' = <[Channel x := chan_close c]> (chans w)) ∧
    ((∀ x, x ∈ SubscribersFor w (GameID subscriber) → ID x ≠ ID subscriber) →
       chans w' = chans w).
Proof.
  intros Hwf Hnd.
  destruct (gameSubscribers w !! GameID subscriber) as [l|] eqn:Hk.
  - rewrite (SubscribersFor_Some w _ l Hk) in *.
    destruct (list_find (λ sub, ID sub = ID subscriber) l) as [[i sub]|] eqn:Hfind.
    + destruct (RemoveGameSubscriber_wf subscriber w Hwf) as (w' & Hrem & Hwf').
      destruct (RemoveGameSubscriber_found _ _ _ _ _ Hwf Hk Hfind) as (c & Hc & _ & Heq).
      rewrite Heq in Hrem. injection Hrem as <-. rewrite Heq.
      apply list_find_Some in Hfind as (Hi & Hid & _).
      eexists. split_and!; [done | done | done | | | |].
      * unfold SubscribersFor. cbn [gameSubscribers]. rewrite <- Hid.
        rewrite <- (delete_filter_unique ID l i sub Hnd Hi).
        destruct (delete_if_empty _ _ !! _) as [l'|] eqn:Hl'; simpl.
        -- apply removed_lookup_Some in Hl' as [(_ & -> & _) | (Hne & _)]; done.
        -- destruct (delete i l) as [|y l'] eqn:Hdel; [done |].
           assert (Hsome : delete_if_empty (GameID subscriber)
                     (<[GameID subscriber := y :: l']> (gameSubscribers w))
                     !! GameID subscriber = Some (y :: l')).
           { apply delete_if_empty_lookup_Some. by rewrite lookup_insert_eq. }
           congruence.
      * intros k Hne. cbn [gameSubscribers].
        apply option_eq. intros l'. rewrite removed_lookup_Some. naive_solver.
      * intros x Hx Hidx. exists c.
        assert (x = sub) as -> by
          (eapply (NoDup_fmap_eq ID l); [done.. | by eapply list_elem_of_lookup_2 | congruence]).
        done.
      * intros Hnone. exfalso. eapply Hnone; [by eapply list_elem_of_lookup_2 | done].
    + apply list_find_None in Hfind. rewrite Forall_forall in Hfind.
      exists w. split_and!; [by eapply RemoveGameSubscriber_not_found | done.. | | done | | done].
      * rewrite (SubscribersFor_Some w _ l Hk). symmetry. by apply filter_all.
      * intros x Hx Hidx. by destruct (Hfind x Hx).
  - exists w. unfold SubscribersFor. rewrite Hk. simpl.
    split_and!; [by apply RemoveGameSubscriber_absent | done.. | | done].
    intros x Hx. by apply elem_of_nil in Hx.
Qed.

(** X4: in a reachable world where ids are unique within the session's set,
    deregistering a subscriber of the set closes its channel, takes it out
    of the set and keeps the other subscribers in their order; the sets of
    the other sessions, the signals and the other channels are as before. *)
Theorem deregister_removes_exactly_one (cs : list call) (w : World)
    (subscriber : GameSubscriber) :
  run cs empty_world = Ok w →
  NoDup (ID <$> SubscribersFor w (GameID subscriber)) →
  subscriber ∈ SubscribersFor w (GameID subscriber) →
  ∃ w' c,
    RemoveGameSubscriber subscriber w = Ok w' ∧
    SubscribersFor w' (GameID subscriber) =
      filter (λ x, x ≠ subscriber) (SubscribersFor w (GameID subscriber)) ∧
    (∀ k, k ≠ GameID subscriber → SubscribersFor w' k = SubscribersFor w k) ∧
    fired w' = fired w ∧
    chans w !! Channel subscriber = Some c ∧ closed c = false ∧
    chans w' = <[Channel subscriber := chan_close c]> (chans w).
Proof.
  intros Hrun Hnd Hin. apply reachable_wf in Hrun as Hwf.
  destruct (RemoveGameSubscriber_unique subscriber w Hwf Hnd)
    as (w' & Hrem & _ & Hfired & Hset & Hother & Hclose & _).
  destruct (Hclose subscriber Hin eq_refl) as (c & Hc & Hch).
  exists w', c. split_and!; [done | | | done | done | | done].
  - rewrite Hset. apply filter_ext_elem. intros x Hx. split.
    + intros Hne ->. by apply Hne.
    + intros Hne Hid. apply Hne. by eapply (NoDup_fmap_eq ID).
  - intros k Hne. unfold SubscribersFor. by rewrite Hother.
  - pose proof Hin as (l & Hk & Hl)%SubscribersFor_elem.
    destruct (wf_open w Hwf _ _ _ Hk Hl) as (c' & Hc' & Hcl). congruence.
Qed.

Lemma deregister_removes_exactly_one_witness :
  ∃ w' c,
    RemoveGameSubscriber S1 (world_of [Register "g1" 1 []; Register "g1" 2 [x01]]) = Ok w' ∧
    SubscribersFor w' "g1" =
      filter (λ x, x ≠ S1)
        (SubscribersFor (world_of [Register "g1" 1 []; Register "g1" 2 [x01]]) "g1") ∧
    chans (world_of [Register "g1" 1 []; Register "g1" 2 [x01]]) !! Channel S1 = Some c ∧
    closed c = false.
Proof.
  destruct (deregister_removes_exactly_one [Register "g1" 1 []; Register "g1" 2 [x01]]
              (world_of [Register "g1" 1 []; Register "g1" 2 [x01]]) S1 eq_refl)
    as (w' & c & Hrem & Hset & _ & _ & Hc & Hcl & _).
  - vm_compute. apply NoDup_cons. split; [| apply NoDup_singleton].
    intros Hin. apply list_elem_of_singleton in Hin. discriminate Hin.
  - vm_compute. left.
  - exists w', c. split_and!; [exact Hrem | exact Hset | exact Hc | exact Hcl].
Defined.


(** ** Delivery *)

(** X5: when every subscriber of the session is alive and has room in its
    queue, a broadcast from a reachable world appends the event to the queue
    of every one of them and starts no goroutine. *)
Theorem broadcast_reaches_every_live_subscriber (cs : list call) (w : World)
    (gameID : string) (event : GameEvent) (po : nat → pollorder) :
  run cs empty_world = Ok w →
  (∀ s, s ∈ SubscribersFor w gameID →
        (Context s ∉ fired w) ∧ has_room (chans w !! Channel s)) →
  ∃ w',
    BroadcastGameEvent gameID event po w = Ok (w', []) ∧
    ∀ s, s ∈ SubscribersFor w gameID →
      chans w' !! Channel s = (λ c, chan_send c event) <$> chans w !! Channel s.
Proof.
  intros Hrun Hlive. apply reachable_wf in Hrun as Hwf.
  destruct (BroadcastGameEvent_select gameID event po w Hwf)
    as (w' & spawned & Hb & _ & _ & _ & Hout).
  assert (spawned = []) as ->.
  { destruct spawned as [|s rest]; [done |].
    destruct (BroadcastGameEvent_frame _ _ _ _ _ Hb) as (_ & _ & _ & Hsp).
    destruct (Hsp s) as [Hs Hf]; [left |].
    by destruct (Hlive s Hs). }
  exists w'. split; [done |].
  intros s Hs. pose proof Hs as (i & Hi)%list_elem_of_lookup_1.
  specialize (Hout i s Hi).
  destruct (Hlive s Hs) as (Halive & c & Hc & Hroom).
  apply SubscribersFor_elem in Hs as (l & Hk & Hin).
  destruct (wf_open w Hwf gameID l s Hk Hin) as (c0 & Hc0 & Hcl).
  rewrite Hc in Hc0. injection Hc0 as <-.
  rewrite Hc, select_open in Hout by done.
  rewrite (bool_decide_eq_false_2 _ Halive), bool_decide_eq_true_2 in Hout by done.
  destruct Hout as [Hh _]. by rewrite Hh, Hc.
Qed.

Lemma broadcast_reaches_every_live_subscriber_witness :
  ∃ w',
    BroadcastGameEvent "g1" (move_event 0) send_first
      (world_of [Register "g1" 1 []; Register "g1" 2 [x01]]) = Ok (w', []) ∧
    buf <$> chans w' !! Channel S1 = Some [move_event 0] ∧
    buf <$> chans w' !! Channel S2 = Some [move_event 0].
Proof.
  destruct (broadcast_reaches_every_live_subscriber
              [Register "g1" 1 []; Register "g1" 2 [x01]]
              (world_of [Register "g1" 1 []; Register "g1" 2 [x01]])
              "g1" (move_event 0) send_first eq_refl)
    as (w' & Hb & Hall).
  - intros s Hs. vm_compute in Hs.
    apply elem_of_cons in Hs as [-> | Hs];
      [| apply list_elem_of_singleton in Hs as ->];
      (split; [vm_compute; intros [=] | exists (make_chan 10); split; [reflexivity | simpl; lia]]).
  - exists w'. split; [exact Hb |]. split.
    + rewrite (Hall S1); [reflexivity | vm_compute; left].
    + rewrite (Hall S2); [reflexivity | vm_compute; right; left].
Defined.

(** X6: broadcasts in a row to the session of a subscriber that is alive,
    from a reachable world, all return; the subscriber's queue then holds
    what it held, followed by the events in the order they were broadcast,
    cut where the queue reached its capacity. The consumer's next receive
    takes the oldest of them. *)
Theorem broadcasts_enqueue_in_order (cs : list call) (w : World) (gameID : string)
    (s : GameSubscriber) (c : chan) (bs : list (GameEvent * (nat → pollorder))) :
  run cs empty_world = Ok w →
  s ∈ SubscribersFor w gameID →
  Context s ∉ fired w →
  chans w !! Channel s = Some c →
  ∃ w',
    run (broadcasts gameID bs) w = Ok w' ∧
    buf <$> chans w' !! Channel s =
      Some (buf c ++ take (10 - length (buf c)) (bs.*1)) ∧
    buf <$> chans (receive (Channel s) w') !! Channel s =
      Some (tail (buf c ++ take (10 - length (buf c)) (bs.*1))).
Proof.
  intros Hrun Hs Halive Hc. apply reachable_wf in Hrun as Hwf.
  destruct (broadcasts_fill gameID s bs w c Hwf Hs Halive Hc) as (w' & Hrun' & Hc').
  destruct (wf_cap w Hwf _ c Hc) as [_ H10]. rewrite H10 in Hc'.
  exists w'. split_and!; [done | by rewrite Hc' |].
  unfold receive. cbn [chans]. by rewrite list_lookup_alter_eq, Hc'.
Qed.

Lemma broadcasts_enqueue_in_order_witness :
  ∃ w',
    run (broadcasts "g1" [(move_event 1, send_first); (move_event 2, done_first)])
        (world_of registered_S1) = Ok w' ∧
    buf <$> chans w' !! Channel S1 = Some [move_event 1; move_event 2] ∧
    buf <$> chans (receive (Channel S1) w') !! Channel S1 = Some [move_event 2].
Proof.
  apply (broadcasts_enqueue_in_order registered_S1 (world_of registered_S1) "g1" S1
           (make_chan 10) [(move_event 1, send_first); (move_event 2, done_first)] eq_refl).
  - vm_compute. left.
  - vm_compute. intros [=].
  - reflexivity.
Defined.

(** ** Scheduled removals *)

Lemma close_keeps_closed (h : list chan) r c :
  ∀ ch c0, h !! ch = Some c0 → closed c0 = true →
    closed <$> <[r := chan_close c]> h !! ch = Some true.
Proof.
  intros ch c0 Hch Hcl. destruct (decide (r = ch)) as [-> | Hne].
  - rewrite list_lookup_insert_eq by by eapply lookup_lt_Some. done.
  - rewrite list_lookup_insert_ne by done. by rewrite Hch, <- Hcl.
Qed.

Lemma run_spawned_unique gameID spawned :
  ∀ w,
    wf w →
    NoDup (ID <$> SubscribersFor w gameID) →
    (∀ s, s ∈ spawned →
          GameID s = gameID ∧
          ∀ x, x ∈ SubscribersFor w gameID → ID x = ID s → x = s) →
    ∃ w',
      run_spawned spawned w = Ok w' ∧ wf w' ∧ fired w' = fired w ∧
      SubscribersFor w' gameID =
        filter (λ x, x ∉ spawned) (SubscribersFor w gameID) ∧
      (∀ k, k ≠ gameID → gameSubscribers w' !! k = gameSubscribers w !! k) ∧
      (∀ ch c, chans w !! ch = Some c → closed c = true →
               closed <$> chans w' !! ch = Some true) ∧
      (∀ s, s ∈ spawned → s ∈ SubscribersFor w gameID →
            closed <$> chans w' !! Channel s = Some true).
Proof.
  induction spawned as [|s rest IH]; intros w Hwf Hnd Hpre.
  - exists w. split_and!; [done.. | | done | |].
    + symmetry. apply filter_all. intros x _. apply not_elem_of_nil.
    + intros ch c Hc Hcl. by rewrite Hc, <- Hcl.
    + intros s Hs. by apply elem_of_nil in Hs.
  - destruct (Hpre s) as [Hgid Hown]; [left |]. subst gameID.
    destruct (RemoveGameSubscriber_unique s w Hwf Hnd)
      as (w1 & Hrem & Hwf1 & Hfired1 & Hset1 & Hother1 & Hclose1 & Hkeep1).
    assert (Hset1' : SubscribersFor w1 (GameID s) =
              filter (λ x, x ≠ s) (SubscribersFor w (GameID s))).
    { rewrite Hset1. apply filter_ext_elem. intros x Hx. split.
      - intros Hne ->. by apply Hne.
      - intros Hne Hid. apply Hne. by apply Hown. }
    assert (Hmono1 : ∀ ch c, chans w !! ch = Some c → closed c = true →
              closed <$> chans w1 !! ch = Some true).
    { intros ch c Hc Hcl.
      destruct (decide (s ∈ SubscribersFor w (GameID s))) as [Hs | Hs].
      - destruct (Hclose1 s Hs eq_refl) as (c0 & Hc0 & ->).
        by eapply close_keeps_closed.
      - rewrite Hkeep1; [by rewrite Hc, <- Hcl |].
        intros x Hx Hid. apply Hs. by pose proof (Hown x Hx Hid) as <-. }
    destruct (IH w1 Hwf1) as (w' & Hrun & Hwf' & Hfired' & Hset' & Hother' & Hmono' & Hcl').
    { rewrite Hset1. by apply NoDup_fmap_filter. }
    { intros x Hx. destruct (Hpre x) as [Hg Hownx]; [by right |]. split; [done |].
      intros y Hy. apply Hownx. rewrite Hset1' in Hy.
      by apply list_elem_of_filter in Hy as [_ Hy]. }
    exists w'. split_and!.
    + simpl. by rewrite Hrem.
    + done.
    + congruence.
    + rewrite Hset', Hset1', list_filter_filter.
      apply filter_ext_elem. intros x _. rewrite not_elem_of_cons. naive_solver.
    + intros k Hne. by rewrite Hother', Hother1.
    + intros ch c Hc Hcl.
      specialize (Hmono1 ch c Hc Hcl).
      destruct (chans w1 !! ch) as [c1|] eqn:Hc1; [| done].
      injection Hmono1 as Hcl1. by eapply Hmono'.
    + intros x Hx Hin. destruct (decide (x = s)) as [-> | Hne].
      * destruct (Hclose1 s Hin eq_refl) as (c0 & Hc0 & Hch1).
        eapply (Hmono' (Channel s) (chan_close c0)); [| done].
        rewrite Hch1. apply list_lookup_insert_eq. by eapply lookup_lt_Some.
      * apply elem_of_cons in Hx as [-> | Hx]; [done |].
        apply Hcl'; [done |]. rewrite Hset1'. by apply list_elem_of_filter.
Qed.

(** X7: in a reachable world where ids are unique within the session's set,
    the goroutines a broadcast starts all return once the broadcast has,
    none panics, and when they have run the session's set is the set the
    broadcast found without the subscribers it started a goroutine for, in
    the same order, each of those with its channel closed; the sets of the
    other sessions are as before. *)
Theorem scheduled_removals_converge (cs : list call) (w : World) (gameID : string)
    (event : GameEvent) (po : nat → pollorder) :
  run cs empty_world = Ok w →
  NoDup (ID <$> SubscribersFor w gameID) →
  ∃ w' spawned w'',
    BroadcastGameEvent gameID event po w = Ok (w', spawned) ∧
    run_spawned spawned w' = Ok w'' ∧
    SubscribersFor w'' gameID =
      filter (λ x, x ∉ spawned) (SubscribersFor w gameID) ∧
    (∀ k, k ≠ gameID → SubscribersFor w'' k = SubscribersFor w k) ∧
    (∀ s, s ∈ spawned →
          (Context s ∈ fired w) ∧ closed <$> chans w'' !! Channel s = Some true).
Proof.
  intros Hrun Hnd. apply reachable_wf in Hrun as Hwf.
  destruct (BroadcastGameEvent_wf gameID event po w Hwf)
    as (w' & spawned & Hb & Hwf' & Htbl & Hfired).
  destruct (BroadcastGameEvent_frame _ _ _ _ _ Hb) as (_ & _ & _ & Hsp).
  simpl in Hsp.
  assert (Hset : ∀ k, SubscribersFor w' k = SubscribersFor w k).
  { intros k. unfold SubscribersFor. by rewrite Htbl. }
  destruct (run_spawned_unique gameID spawned w' Hwf')
    as (w'' & Hrun' & _ & _ & Hset'' & Hother & _ & Hcl).
  { by rewrite Hset. }
  { intros s Hs. destruct (Hsp s Hs) as [Hin _]. split.
    - apply SubscribersFor_elem in Hin as (l & Hk & Hl). by eapply (wf_key w Hwf).
    - intros x Hx Hid. rewrite Hset in Hx. by eapply (NoDup_fmap_eq ID). }
  exists w', spawned, w''. split_and!; [done | done | by rewrite <- Hset | |].
  - intros k Hne. rewrite <- Hset. unfold SubscribersFor. by rewrite Hother.
  - intros s Hs. destruct (Hsp s Hs) as [Hin Hf]. split; [done |].
    apply Hcl; [done |]. by rewrite Hset.
Qed.

Lemma scheduled_removals_converge_witness :
  ∃ w' spawned w'',
    BroadcastGameEvent "g1" (move_event 0) done_first (world_of cancelled_S1)
      = Ok (w', spawned) ∧
    run_spawned spawned w' = Ok w'' ∧
    SubscribersFor w'' "g1" =
      filter (λ x, x ∉ spawned) (SubscribersFor (world_of cancelled_S1) "g1").
Proof.
  destruct (scheduled_removals_converge cancelled_S1 (world_of cancelled_S1) "g1"
              (move_event 0) done_first eq_refl)
    as (w' & spawned & w'' & Hb & Hr & Hset & _).
  - vm_compute. apply NoDup_singleton.
  - exists w', spawned, w''. split_and!; [exact Hb | exact Hr | exact Hset].
Defined.


(** * The game rules *)

(** ** Finding the winner *)

Lemma first_return_Some tests x :
  game.first_return tests = Some x → Some x ∈ tests.
Proof.
  unfold game.first_return. intros Hh. apply head_Some_elem_of in Hh.
  apply list_elem_of_omap in Hh as (t & Ht & Hid). simpl in Hid. by subst t.
Qed.

Lemma first_return_None tests :
  game.first_return tests = None → ∀ t, t ∈ tests → t = None.
Proof.
  unfold game.first_return. intros Hh t Ht.
  destruct t as [x|]; [| done].
  assert (Hx : x ∈ omap id tests) by (apply list_elem_of_omap; by exists (Some x)).
  apply head_None in Hh. rewrite Hh in Hx. by apply elem_of_nil in Hx.
Qed.

(** The tests of [CheckWinner] are the lines, in order. *)
Lemma CheckWinner_lines range g :
  game.CheckWinner range g =
    default ""%string
      (game.first_return
         ((λ l, game.line_winner range g
                  (models.cell (models.Board g) l.1.1.1 l.1.1.2)
                  (models.cell (models.Board g) l.1.2.1 l.1.2.2)
                  (models.cell (models.Board g) l.2.1 l.2.2)) <$> lines)).
Proof. reflexivity. Qed.

Lemma line_winner_Some range g a b c pID :
  game.line_winner range g a b c = Some pID →
  a ≠ ""%string ∧ b = a ∧ c = a ∧
  game.range_find_emoji (range (models.Players g)) a = Some pID.
Proof.
  unfold game.line_winner.
  repeat case_bool_decide; simpl; try done. intros Hfind. by subst.
Qed.

Lemma range_find_emoji_Some entries emoji pID :
  game.range_find_emoji entries emoji = Some pID →
  ∃ player, (pID, player) ∈ entries ∧ models.Emoji player = emoji.
Proof.
  induction entries as [|[p pl] rest IH]; simpl; [done |].
  case_decide as He.
  - intros [= <-]. exists pl. split; [left | done].
  - intros (player & Hin & Hem)%IH. exists player. split; [by right | done].
Qed.

Lemma range_find_emoji_None entries emoji :
  game.range_find_emoji entries emoji = None →
  ∀ pID player, (pID, player) ∈ entries → models.Emoji player ≠ emoji.
Proof.
  induction entries as [|[p pl] rest IH]; simpl; intros Hnone pID player Hin.
  - by apply elem_of_nil in Hin.
  - case_decide as He; [done |].
    apply elem_of_cons in Hin as [[= -> ->] | Hin]; [done | by eapply IH].
Qed.

Lemma range_elem (range : game.range_order) players pID player :
  game.range_ok range →
  (pID, player) ∈ range players ↔ players !! pID = Some player.
Proof.
  intros Hok. rewrite (Hok players). apply elem_of_map_to_list.
Qed.

Lemma CheckWinner_owner (range : game.range_order) (g : models.Game) (pID : string) :
  game.range_ok range →
  game.CheckWinner range g = pID →
  pID ≠ ""%string →
  ∃ player,
    models.Players g !! pID = Some player ∧
    models.Emoji player ≠ ""%string ∧
    holds_line (models.Board g) (models.Emoji player).
Proof.
  intros Hok Hw Hne. rewrite CheckWinner_lines in Hw.
  destruct (game.first_return _) as [x|] eqn:Hfirst; simpl in Hw; [subst x | by subst].
  apply first_return_Some, list_elem_of_fmap in Hfirst as ([[p q] r] & Hline & Hin).
  symmetry in Hline. simpl in Hline.
  apply line_winner_Some in Hline as (Ha & Hb & Hc & Hfind).
  apply range_find_emoji_Some in Hfind as (player & Hentry & Hem).
  apply (range_elem range) in Hentry; [| done].
  exists player. rewrite Hem. split_and!; [done.. |].
  exists p, q, r. by split_and!.
Qed.

(** X8: when [CheckWinner] returns a non-empty id, that id is a player of the
    game, the player's emoji is not empty, and the emoji fills a row, a
    column or a diagonal of the board. *)
Theorem CheckWinner_sound (range : game.range_order) (g : models.Game) (pID : string) :
  game.range_ok range →
  game.CheckWinner range g = pID →
  pID ≠ ""%string →
  ∃ player,
    models.Players g !! pID = Some player ∧
    models.Emoji player ≠ ""%string ∧
    holds_line (models.Board g) (models.Emoji player).
Proof. apply CheckWinner_owner. Qed.

Lemma demo_range_ok : game.range_ok demo_range.
Proof. intros players. reflexivity. Qed.

Lemma CheckWinner_sound_witness :
  ∃ player,
    models.Players (demo_game demo_board) !! "a" = Some player ∧
    models.Emoji player ≠ ""%string ∧
    holds_line demo_board (models.Emoji player).
Proof.
  apply (CheckWinner_sound demo_range (demo_game demo_board) "a").
  - intros players. reflexivity.
  - vm_compute. reflexivity.
  - discriminate.
Defined.

Lemma range_find_emoji_is_Some entries emoji pID player :
  (pID, player) ∈ entries → models.Emoji player = emoji →
  is_Some (game.range_find_emoji entries emoji).
Proof.
  intros Hin Hem.
  destruct (game.range_find_emoji entries emoji) eqn:Hf; [by eexists |].
  by destruct (range_find_emoji_None _ _ Hf pID player Hin).
Qed.

Lemma CheckWinner_none (range : game.range_order) (g : models.Game) :
  game.range_ok range →
  (∀ pID, is_Some (models.Players g !! pID) → pID ≠ ""%string) →
  game.CheckWinner range g = ""%string ↔ ¬ owned_line g.
Proof.
  intros Hok Hkeys. split.
  - intros Hw (pID & player & Hp & Hne & (p & q & r & Hin & Hcp & Hcq & Hcr)).
    rewrite CheckWinner_lines in Hw.
    destruct (game.first_return _) as [x|] eqn:Hfirst; simpl in Hw.
    + subst x.
      apply first_return_Some, list_elem_of_fmap in Hfirst as ([[p' q'] r'] & Hline & _).
      symmetry in Hline. apply line_winner_Some in Hline as (_ & _ & _ & Hfind).
      apply range_find_emoji_Some in Hfind as (pl & Hentry & _).
      apply (range_elem range) in Hentry; [| done].
      by apply (Hkeys ""%string).
    + assert (Hmem :
        game.line_winner range g
          (models.cell (models.Board g) p.1 p.2)
          (models.cell (models.Board g) q.1 q.2)
          (models.cell (models.Board g) r.1 r.2)
        ∈ (λ l, game.line_winner range g
                  (models.cell (models.Board g) l.1.1.1 l.1.1.2)
                  (models.cell (models.Board g) l.1.2.1 l.1.2.2)
                  (models.cell (models.Board g) l.2.1 l.2.2)) <$> lines).
      { apply list_elem_of_fmap. by exists (p, q, r). }
      pose proof (first_return_None _ Hfirst _ Hmem) as Hnone.
      unfold game.line_winner in Hnone. rewrite Hcp, Hcq, Hcr in Hnone.
      rewrite !bool_decide_eq_true_2 in Hnone by done. simpl in Hnone.
      destruct (range_find_emoji_is_Some (range (models.Players g))
                  (models.Emoji player) pID player) as [x Hx];
        [by apply (range_elem range) | done |].
      congruence.
  - intros Hno. destruct (decide (game.CheckWinner range g = ""%string)) as [| Hne]; [done |].
    destruct (CheckWinner_owner range g _ Hok eq_refl Hne) as (player & Hp & Hem & Hl).
    destruct Hno. by exists (game.CheckWinner range g), player.
Qed.

(** X9: when no player id is the empty string, [CheckWinner] returns the
    empty string exactly when no player's non-empty emoji fills a line; in
    particular it returns the empty string on the empty board. *)
Theorem CheckWinner_empty_iff (range : game.range_order) (g : models.Game) :
  game.range_ok range →
  (∀ pID, is_Some (models.Players g !! pID) → pID ≠ ""%string) →
  (game.CheckWinner range g = ""%string ↔ ¬ owned_line g) ∧
  (models.Board g = models.empty_board → game.CheckWinner range g = ""%string).
Proof.
  intros Hok Hkeys.
  pose proof (CheckWinner_none range g Hok Hkeys) as Hiff.
  split; [done |].
  intros Hempty. apply Hiff.
  intros (pID & player & _ & Hne & (p & q & r & _ & Hcp & _)).
  rewrite Hempty in Hcp. apply Hne. rewrite <- Hcp.
  by destruct p as [[] []].
Qed.

Lemma CheckWinner_empty_iff_witness :
  game.CheckWinner demo_range (demo_game models.empty_board) = ""%string.
Proof.
  apply (CheckWinner_empty_iff demo_range (demo_game models.empty_board)).
  - intros players. reflexivity.
  - intros pID [player Hp] ->. vm_compute in Hp. discriminate Hp.
  - reflexivity.
Defined.

Lemma range_find_emoji_unique (range1 range2 : game.range_order) g emoji :
  game.range_ok range1 → game.range_ok range2 → emojis_unique g →
  game.range_find_emoji (range1 (models.Players g)) emoji =
  game.range_find_emoji (range2 (models.Players g)) emoji.
Proof.
  intros Hok1 Hok2 Huniq.
  destruct (game.range_find_emoji (range1 _) emoji) as [p1|] eqn:H1;
    destruct (game.range_find_emoji (range2 _) emoji) as [p2|] eqn:H2; [| | | done].
  - apply range_find_emoji_Some in H1 as (pl1 & Hin1 & He1).
    apply range_find_emoji_Some in H2 as (pl2 & Hin2 & He2).
    apply (range_elem range1) in Hin1; [| done].
    apply (range_elem range2) in Hin2; [| done].
    f_equal. eapply Huniq; [done.. | congruence].
  - apply range_find_emoji_Some in H1 as (pl1 & Hin1 & He1).
    apply (range_elem range1) in Hin1; [| done].
    apply (range_elem range2) in Hin1; [| done].
    by destruct (range_find_emoji_None _ _ H2 p1 pl1 Hin1).
  - apply range_find_emoji_Some in H2 as (pl2 & Hin2 & He2).
    apply (range_elem range2) in Hin2; [| done].
    apply (range_elem range1) in Hin2; [| done].
    by destruct (range_find_emoji_None _ _ H1 p2 pl2 Hin2).
Qed.

(** X10: when no two players have the same emoji, the id [CheckWinner]
    returns does not depend on the order in which the loops over [Players]
    visit the map. *)
Theorem CheckWinner_order_independent (range1 range2 : game.range_order)
    (g : models.Game) :
  game.range_ok range1 → game.range_ok range2 →
  emojis_unique g →
  game.CheckWinner range1 g = game.CheckWinner range2 g.
Proof.
  intros Hok1 Hok2 Huniq. rewrite !CheckWinner_lines. do 2 f_equal.
  apply list_fmap_ext. intros _ [[p q] r] _. simpl.
  unfold game.line_winner. destruct (_ && _); [| done].
  by apply range_find_emoji_unique.
Qed.

Lemma CheckWinner_order_independent_witness :
  game.CheckWinner demo_range (demo_game demo_board) =
  game.CheckWinner (λ players, reverse (map_to_list players)) (demo_game demo_board).
Proof.
  apply (CheckWinner_order_independent demo_range
           (λ players, reverse (map_to_list players)) (demo_game demo_board)).
  - intros players. reflexivity.
  - intros players. apply reverse_Permutation.
  - intros p1 p2 pl1 pl2 H1 H2 He.
    change (models.Players (demo_game demo_board))
      with (<["a"%string := demo_player "a" "X"]>
              (<["b"%string := demo_player "b" "O"]> (∅ : gmap string models.Player)))
      in H1, H2.
    apply lookup_insert_Some in H1 as [[<- <-] | [_ H1]];
      apply lookup_insert_Some in H2 as [[<- <-] | [_ H2]]; try done.
    + apply lookup_insert_Some in H2 as [[<- <-] | [_ H2]]; [done |].
      by rewrite lookup_empty in H2.
    + apply lookup_insert_Some in H1 as [[<- <-] | [_ H1]]; [done |].
      by rewrite lookup_empty in H1.
    + apply lookup_insert_Some in H1 as [[<- <-] | [_ H1]];
        [| by rewrite lookup_empty in H1].
      apply lookup_insert_Some in H2 as [[<- <-] | [_ H2]]; [done |].
      by rewrite lookup_empty in H2.
Defined.


(** ** Joining a game *)

Lemma forallb_false_elem {A} (f : A → bool) (l : list A) :
  forallb f l = false → ∃ x, x ∈ l ∧ f x = false.
Proof.
  induction l as [|y l IH]; simpl; [done |].
  destruct (f y) eqn:Hy; simpl.
  - intros (x & Hx & Hf)%IH. exists x. split; [by right | done].
  - intros _. exists y. split; [left | done].
Qed.

Lemma IsEmojiAvailable_spec (range : game.range_order) g emoji :
  game.range_ok range →
  game.IsEmojiAvailable range g emoji = true ↔
  ∀ pID player, models.Players g !! pID = Some player → models.Emoji player ≠ emoji.
Proof.
  intros Hok. unfold game.IsEmojiAvailable. rewrite forallb_forall. split.
  - intros Hall pID player Hp.
    apply (range_elem range) in Hp; [| done]. apply list_elem_of_In in Hp.
    specialize (Hall _ Hp). simpl in Hall. by apply bool_decide_eq_true in Hall.
  - intros Hall [pID player] Hin. apply list_elem_of_In in Hin.
    apply (range_elem range) in Hin; [| done].
    simpl. apply bool_decide_eq_true. by eapply Hall.
Qed.

Lemma IsEmojiAvailable_false (range : game.range_order) g emoji :
  game.range_ok range →
  game.IsEmojiAvailable range g emoji = false ↔ emoji_taken g emoji.
Proof.
  intros Hok. split.
  - intros ([pID player] & Hin & Hp)%forallb_false_elem. simpl in Hp.
    apply (range_elem range) in Hin; [| done].
    exists pID, player. split; [done |].
    apply bool_decide_eq_false in Hp.
    by destruct (decide (models.Emoji player = emoji)).
  - intros (pID & player & Hp & He). apply not_true_iff_false.
    rewrite (IsEmojiAvailable_spec range) by done. intros Hall. by eapply Hall.
Qed.

(** X11: which error [AddPlayerToGame] returns. A game with two players is
    full; otherwise a player already in the game is refused; otherwise an
    emoji another player has is refused; otherwise an emoji outside the list
    of available ones is refused; otherwise the call returns nil. Whenever
    an error is returned the game is as it was. *)
Theorem AddPlayerToGame_errors (range : game.range_order) (g : models.Game)
    (playerID emoji : string) (now : nat) :
  game.range_ok range →
  let r := game.AddPlayerToGame range g playerID emoji now in
  let room := size (models.Players g) < 2 in
  let fresh := models.Players g !! playerID = None in
  (r.2 = Some "game is full"%string ↔ ¬ room) ∧
  (r.2 = Some "player already in game"%string ↔ room ∧ ¬ fresh) ∧
  (r.2 = Some "emoji already taken"%string ↔ room ∧ fresh ∧ emoji_taken g emoji) ∧
  (r.2 = Some "invalid emoji"%string ↔
     room ∧ fresh ∧ ¬ emoji_taken g emoji ∧ emoji ∉ models.AvailableEmojis) ∧
  (r.2 = None ↔
     room ∧ fresh ∧ ¬ emoji_taken g emoji ∧ emoji ∈ models.AvailableEmojis) ∧
  (r.2 ≠ None → r.1 = g).
Proof.
  intros Hok r room fresh. subst r room fresh.
  unfold game.AddPlayerToGame, models.MaxPlayersPerGame.
  case_bool_decide as Hfull; [simpl; split_and!; try done; split; try done; try lia; naive_solver lia |].
  case_bool_decide as Hin.
  { assert (models.Players g !! playerID ≠ None) by (by apply not_eq_None_Some).
    simpl; split_and!; try done; split; try done; naive_solver lia. }
  assert (Hfresh : models.Players g !! playerID = None) by (by apply eq_None_not_Some).
  destruct (game.IsEmojiAvailable range g emoji) eqn:Hav; simpl.
  2: { apply (IsEmojiAvailable_false range) in Hav; [| done].
       split_and!; try done; split; try done; naive_solver lia. }
  assert (Hfree : ¬ emoji_taken g emoji).
  { intros Ht. apply (IsEmojiAvailable_false range) in Ht; [| done]. congruence. }
  case_bool_decide as Hvalid; simpl.
  2: { split_and!; try done; split; try done; naive_solver lia. }
  repeat case_bool_decide; simpl; split_and!; try done; split; try done; naive_solver lia.
Qed.

Lemma AddPlayerToGame_errors_witness :
  (game.AddPlayerToGame demo_range (demo_game demo_board) "c" "X" 0).2 =
    Some "game is full"%string.
Proof.
  apply (AddPlayerToGame_errors demo_range (demo_game demo_board) "c" "X" 0).
  - intros players. reflexivity.
  - vm_compute. lia.
Defined.


Lemma AddPlayerToGame_unchanged (range : game.range_order) g playerID emoji now :
  (game.AddPlayerToGame range g playerID emoji now).2 ≠ None →
  (game.AddPlayerToGame range g playerID emoji now).1 = g.
Proof.
  unfold game.AddPlayerToGame.
  repeat (case_bool_decide; simpl; try done);
    destruct (game.IsEmojiAvailable range g emoji); simpl; try done;
    repeat (case_bool_decide; simpl; try done).
Qed.

(** The game a successful [AddPlayerToGame] leaves, and what made it
    succeed. *)
Lemma AddPlayerToGame_joined (range : game.range_order) g playerID emoji now :
  game.range_ok range →
  (game.AddPlayerToGame range g playerID emoji now).2 = None →
  size (models.Players g) < 2 ∧
  models.Players g !! playerID = None ∧
  ¬ emoji_taken g emoji ∧
  emoji ∈ models.AvailableEmojis ∧
  (game.AddPlayerToGame range g playerID emoji now).1 =
    {| models.ID := models.ID g;
       models.Board := models.Board g;
       models.Players :=
         <[playerID := {| models.PlayerID := playerID; models.Emoji := emoji;
                          models.JoinedAt := now |}]> (models.Players g);
       models.PlayerOrder := models.PlayerOrder g ++ [playerID];
       models.Status :=
         if decide (size (models.Players g) = 0)
         then models.GameStatusWaiting else models.GameStatusActive;
       models.CurrentTurn :=
         if decide (size (models.Players g) = 0) then models.CurrentTurn g else 0%Z;
       models.Winner := models.Winner g;
       models.MoveCount :=
         if decide (size (models.Players g) = 0) then models.MoveCount g else 0%Z |}.
Proof.
  intros Hok. unfold game.AddPlayerToGame, models.MaxPlayersPerGame.
  case_bool_decide as Hfull; [done |].
  case_bool_decide as Hin; [done |].
  assert (Hfresh : models.Players g !! playerID = None) by (by apply eq_None_not_Some).
  destruct (game.IsEmojiAvailable range g emoji) eqn:Hav; [| done]. simpl.
  case_bool_decide as Hvalid; [| done]. simpl.
  assert (Hfree : ¬ emoji_taken g emoji).
  { intros Ht. apply (IsEmojiAvailable_false range) in Ht; [| done]. congruence. }
  rewrite map_size_insert_None by done.
  intros _. split_and!; [lia | done.. |].
  case_bool_decide as H1.
  - destruct (decide (size (models.Players g) = 0)); [done | lia].
  - rewrite bool_decide_eq_true_2 by lia.
    destruct (decide (size (models.Players g) = 0)); [lia | done].
Qed.

(** X12: what a successful [AddPlayerToGame] does: the player is stored
    under its id with the emoji and the time, and its id is appended to the
    join order; the board, the game id and the winner are kept. The first
    player leaves the game waiting; the second makes it active, with the
    turn on the first player and the move count at zero. *)
Theorem AddPlayerToGame_success (range : game.range_order) (g : models.Game)
    (playerID emoji : string) (now : nat) :
  game.range_ok range →
  (game.AddPlayerToGame range g playerID emoji now).2 = None →
  let g' := (game.AddPlayerToGame range g playerID emoji now).1 in
  models.Players g' =
    <[playerID := {| models.PlayerID := playerID; models.Emoji := emoji;
                     models.JoinedAt := now |}]> (models.Players g) ∧
  models.PlayerOrder g' = models.PlayerOrder g ++ [playerID] ∧
  models.Board g' = models.Board g ∧
  models.ID g' = models.ID g ∧
  models.Winner g' = models.Winner g ∧
  (size (models.Players g) = 0 →
     models.Status g' = models.GameStatusWaiting ∧
     models.CurrentTurn g' = models.CurrentTurn g ∧
     models.MoveCount g' = models.MoveCount g) ∧
  (size (models.Players g) = 1 →
     models.Status g' = models.GameStatusActive ∧
     models.CurrentTurn g' = 0%Z ∧
     models.MoveCount g' = 0%Z).
Proof.
  intros Hok Hnil g'. subst g'.
  destruct (AddPlayerToGame_joined range g playerID emoji now Hok Hnil)
    as (_ & _ & _ & _ & ->).
  simpl. split_and!; try done.
  - intros H0. by destruct (decide (size (models.Players g) = 0)).
  - intros H1. destruct (decide (size (models.Players g) = 0)); [lia | done].
Qed.

Lemma AddPlayerToGame_success_witness :
  models.Status
    (game.AddPlayerToGame demo_range
       (game.AddPlayerToGame demo_range
          (demo_game_with ∅ [] models.GameStatusWaiting models.empty_board) "a" "🐱" 7).1
       "b" "🚀" 8).1
  = models.GameStatusActive.
Proof.
  apply (AddPlayerToGame_success demo_range
           (game.AddPlayerToGame demo_range
              (demo_game_with ∅ [] models.GameStatusWaiting models.empty_board) "a" "🐱" 7).1
           "b" "🚀" 8).
  - intros players. reflexivity.
  - vm_compute. reflexivity.
  - vm_compute. reflexivity.
Defined.

Lemma AddPlayerToGame_players_ok (range : game.range_order) g playerID emoji now :
  game.range_ok range → players_ok g →
  players_ok (game.AddPlayerToGame range g playerID emoji now).1.
Proof.
  intros Hok Hg.
  destruct ((game.AddPlayerToGame range g playerID emoji now).2) eqn:Herr.
  { rewrite AddPlayerToGame_unchanged; [done | by rewrite Herr]. }
  destruct (AddPlayerToGame_joined range g playerID emoji now Hok Herr)
    as (Hroom & Hfresh & Hfree & Hvalid & ->).
  destruct Hg as [Hsize Hnd Hdom Hid Hval Huniq].
  constructor; simpl.
  - rewrite map_size_insert_None by done. unfold models.MaxPlayersPerGame. lia.
  - apply NoDup_app. split_and!; [done | | apply NoDup_singleton].
    intros x Hx ->%list_elem_of_singleton.
    apply Hdom in Hx as [pl Hpl]. congruence.
  - intros pID. rewrite elem_of_app, list_elem_of_singleton, Hdom.
    destruct (decide (playerID = pID)) as [<- | Hne].
    + rewrite lookup_insert_eq. split; [by eexists | by right].
    + rewrite lookup_insert_ne by done. split; [| by left].
      intros [? | ->]; done.
  - intros pID player [[<- <-] | [_ Hp]]%lookup_insert_Some; [done | by eapply Hid].
  - intros pID player [[<- <-] | [_ Hp]]%lookup_insert_Some; [done | by eapply Hval].
  - unfold emojis_unique. simpl.
    intros p1 p2 pl1 pl2 [[<- <-] | [Hn1 H1]]%lookup_insert_Some
      [[<- <-] | [Hn2 H2]]%lookup_insert_Some He; simpl in *.
    + done.
    + destruct Hfree. by exists p2, pl2.
    + destruct Hfree. by exists p1, pl1.
    + by eapply Huniq.
Qed.


(** * The handlers *)

(** ** Boards *)

Lemma cell_set_cell b row col v row' col' :
  models.cell (models.set_cell b row col v) row' col' =
    if decide (row = row' ∧ col = col') then v else models.cell b row' col'.
Proof.
  destruct b as [[[[a1 a2] a3] [[b1 b2] b3]] [[c1 c2] c3]].
  destruct row, col, row', col'; simpl;
    by repeat (case_decide; try done; try (exfalso; naive_solver)).
Qed.

Lemma sum_list_indicator {A} (f : A → nat) (l : list A) :
  (∀ x, f x ≤ 1) → sum_list (f <$> l) ≤ length l.
Proof.
  intros Hf. induction l as [|y l IH]; csimpl; [done |].
  specialize (Hf y). lia.
Qed.

Lemma filled_cells_bound b : filled_cells b ≤ 9.
Proof.
  unfold filled_cells.
  etrans; [apply sum_list_indicator; intros rc; case_bool_decide; lia |].
  by vm_compute.
Qed.

Lemma filled_cells_set_cell b row col v :
  models.cell b row col = ""%string → v ≠ ""%string →
  filled_cells (models.set_cell b row col v) = S (filled_cells b).
Proof.
  destruct b as [[[[a1 a2] a3] [[b1 b2] b3]] [[c1 c2] c3]].
  intros Hcell Hv.
  assert (Hyes : bool_decide (v ≠ ""%string) = true) by by apply bool_decide_eq_true_2.
  assert (Hno : bool_decide (""%string ≠ ""%string) = false)
    by (apply bool_decide_eq_false_2; intros Hne; by apply Hne).
  destruct row, col;
    unfold filled_cells, models.cell, models.set_cell in Hcell |- *;
    simpl in Hcell |- *; subst; rewrite ?Hyes, ?Hno; lia.
Qed.

Lemma filled_cells_empty : filled_cells models.empty_board = 0.
Proof. reflexivity. Qed.

Lemma IsBoardFull_empty g :
  models.Board g = models.empty_board → game.IsBoardFull g = false.
Proof. intros Hb. unfold game.IsBoardFull. by rewrite Hb. Qed.

Lemma CheckWinner_empty_board range g :
  models.Board g = models.empty_board → game.CheckWinner range g = ""%string.
Proof. intros Hb. unfold game.CheckWinner. by rewrite Hb. Qed.

Lemma CheckWinner_same range g1 g2 :
  models.Board g1 = models.Board g2 → models.Players g1 = models.Players g2 →
  game.CheckWinner range g1 = game.CheckWinner range g2.
Proof.
  intros Hb Hp. unfold game.CheckWinner, game.line_winner. by rewrite Hb, Hp.
Qed.

(** ** Players *)

Lemma players_ok_same g1 g2 :
  models.Players g1 = models.Players g2 →
  models.PlayerOrder g1 = models.PlayerOrder g2 →
  players_ok g1 → players_ok g2.
Proof.
  intros Hp Ho [Hsize Hnd Hdom Hid Hval Huniq].
  constructor; unfold emojis_unique in *; rewrite <- ?Hp, <- ?Ho; done.
Qed.

Lemma players_ok_length g :
  players_ok g → length (models.PlayerOrder g) = size (models.Players g).
Proof.
  intros [_ Hnd Hdom _ _ _].
  rewrite <- size_dom, <- (size_list_to_set (C := gset string)) by done.
  f_equal. apply set_eq. intros x. by rewrite elem_of_list_to_set, Hdom, elem_of_dom.
Qed.

Lemma available_emoji_nonempty emoji :
  emoji ∈ models.AvailableEmojis → emoji ≠ ""%string.
Proof.
  intros Hin ->. revert Hin. apply (bool_decide_unpack _). by vm_compute.
Qed.

Lemma players_ok_empty g :
  models.Players g = ∅ → models.PlayerOrder g = [] → players_ok g.
Proof.
  intros Hp Ho. constructor; unfold emojis_unique; rewrite ?Hp, ?Ho.
  - rewrite map_size_empty. unfold models.MaxPlayersPerGame. lia.
  - constructor.
  - intros pID. rewrite lookup_empty. split; [by intros ?%elem_of_nil | by intros [? ?]].
  - intros pID player. by rewrite lookup_empty.
  - intros pID player. by rewrite lookup_empty.
  - intros p1 p2 pl1 pl2. by rewrite lookup_empty.
Qed.


(** ** What the handlers keep true of a game *)

Lemma game_inv_new (range : game.range_order) rnd st g :
  game.objects (game.CreateGame rnd st).1 !! (game.CreateGame rnd st).2 = Some g →
  game_inv range g ∧ models.ID g = game.generateGameID rnd.
Proof.
  simpl. rewrite lookup_app_r, Nat.sub_diag by lia. intros [= <-].
  split; [| done]. constructor; simpl; try done.
  - by apply players_ok_empty.
  - intros pID [pl Hpl]. by rewrite lookup_empty in Hpl.
  - by left.
  - intros row col. by destruct row, col.
  - rewrite map_size_empty. lia.
Qed.

Lemma game_inv_join (range : game.range_order) g playerID emoji now :
  game.range_ok range → game_inv range g → playerID ≠ ""%string →
  game_inv range (game.AddPlayerToGame range g playerID emoji now).1.
Proof.
  intros Hok Hg Hpid.
  pose proof (AddPlayerToGame_players_ok range g playerID emoji now Hok (gi_players _ _ Hg))
    as Hplayers.
  destruct ((game.AddPlayerToGame range g playerID emoji now).2) eqn:Herr.
  { rewrite AddPlayerToGame_unchanged; [done | by rewrite Herr]. }
  destruct (AddPlayerToGame_joined range g playerID emoji now Hok Herr)
    as (Hroom & Hfresh & Hfree & Hvalid & Heq).
  rewrite Heq in Hplayers |- *. clear Heq.
  destruct Hg as [_ Hids Hturn Hcount Hcells Hfew Hstatus].
  destruct (Hfew Hroom) as [Hboard Hwin].
  constructor; [exact Hplayers | ..]; simpl; rewrite ?Hboard.
  - intros pID [pl [[<- _] | [_ Hp]]%lookup_insert_Some]; [done | by apply Hids].
  - destruct (decide _); [done | by left].
  - destruct (decide _); [by rewrite Hcount, Hboard | done].
  - intros row col. by destruct row, col.
  - done.
  - rewrite map_size_insert_None by done.
    destruct (decide (size (models.Players g) = 0)) as [H0 | H0]; [lia |].
    split_and!; [done | | by apply IsBoardFull_empty | done].
    by apply CheckWinner_empty_board.
Qed.

Lemma game_inv_reset (range : game.range_order) g :
  game_inv range g →
  game_inv range
    (handlers.with_turn
       (handlers.with_moves
          (handlers.with_winner
             (handlers.with_status (handlers.with_board g models.empty_board)
                                   models.GameStatusActive)
             "")
          0)
       0).
Proof.
  intros [Hplayers Hids Hturn Hcount Hcells Hfew Hstatus].
  constructor; simpl; try done.
  - by apply (players_ok_same g).
  - by left.
  - intros row col. by destruct row, col.
Qed.

Lemma int_wrap_small z : (- 2 ^ 63 ≤ z < 2 ^ 63)%Z → handlers.int_wrap z = z.
Proof.
  intros Hz. unfold handlers.int_wrap.
  rewrite Z.mod_small; lia.
Qed.

(** What [IsPlayersTurn] returning true says of a game that satisfies
    [game_inv]. *)
Lemma IsPlayersTurn_true (range : game.range_order) g playerID :
  game_inv range g → is_Some (models.Players g !! playerID) →
  game.IsPlayersTurn g playerID = Ok true →
  models.Status g = models.GameStatusActive ∧ size (models.Players g) = 2.
Proof.
  intros Hg Hp. unfold game.IsPlayersTurn, game.IsGameActive.
  case_bool_decide as Hactive; [| done]. simpl.
  pose proof (players_ok_length g (gi_players _ _ Hg)) as Hlen.
  pose proof (ok_size g (gi_players _ _ Hg)) as Hsize.
  unfold models.MaxPlayersPerGame in Hsize.
  unfold game.GetCurrentPlayerID, game.IsGameActive.
  rewrite (bool_decide_eq_true_2 _ Hactive). simpl.
  case_bool_decide as Hshort; simpl.
  - intros [= Hcur]. apply bool_decide_eq_true in Hcur.
    by destruct (gi_ids _ _ Hg playerID Hp).
  - intros _. split; [done | lia].
Qed.

Lemma GetCurrentPlayerID_returns g :
  (models.CurrentTurn g = 0 ∨ models.CurrentTurn g = 1)%Z →
  ∃ pID, game.GetCurrentPlayerID g = Ok pID.
Proof.
  intros Hturn. unfold game.GetCurrentPlayerID.
  destruct (negb (game.IsGameActive g)); simpl; [by eexists |].
  case_bool_decide as Hlen; [by eexists |].
  rewrite bool_decide_eq_true_2 by lia.
  destruct (models.PlayerOrder g !! Z.to_nat (models.CurrentTurn g)) as [pID|] eqn:Hp;
    [by eexists |].
  apply lookup_ge_None in Hp. lia.
Qed.

Lemma game_inv_move (range : game.range_order) g playerID player row col :
  game.range_ok range → game_inv range g →
  models.Players g !! playerID = Some player →
  models.Emoji player ≠ ""%string →
  game.IsPlayersTurn g playerID = Ok true →
  models.cell (models.Board g) row col = ""%string →
  let moved :=
    handlers.with_moves
      (handlers.with_board g
         (models.set_cell (models.Board g) row col (models.Emoji player)))
      (handlers.int_wrap (models.MoveCount g + 1)) in
  let winnerID := game.CheckWinner range moved in
  (winnerID ≠ ""%string →
     is_Some (models.Players g !! winnerID) ∧
     game_inv range
       (handlers.with_winner (handlers.with_status moved models.GameStatusFinished)
                             winnerID)) ∧
  (winnerID = ""%string → game.IsBoardFull moved = true →
     game_inv range (handlers.with_status moved models.GameStatusDraw)) ∧
  (winnerID = ""%string → game.IsBoardFull moved = false →
     let next :=
       handlers.with_turn moved
         (Z.rem (handlers.int_wrap (models.CurrentTurn moved + 1)) 2) in
     game_inv range next ∧ ∃ pID, game.GetCurrentPlayerID next = Ok pID).
Proof.
  intros Hok Hg Hp Hemoji Hturn Hcell moved winnerID.
  destruct (IsPlayersTurn_true range g playerID Hg) as [Hactive Hsize]; [by eexists | done |].
  pose proof Hg as [Hplayers Hids Hct Hcount Hcells Hfew Hstatus].
  rewrite Hactive in Hstatus. destruct Hstatus as (Hwin & _ & _ & Hparity).
  pose proof (filled_cells_bound (models.Board g)) as Hbound.
  assert (Hmoves : models.MoveCount moved = (models.MoveCount g + 1)%Z).
  { unfold moved. simpl. apply int_wrap_small. lia. }
  assert (Hfilled : models.MoveCount moved = Z.of_nat (filled_cells (models.Board moved))).
  { rewrite Hmoves. unfold moved. simpl.
    rewrite filled_cells_set_cell by done. lia. }
  assert (Hcells' : ∀ row' col',
    models.cell (models.Board moved) row' col' ≠ ""%string →
    emoji_taken g (models.cell (models.Board moved) row' col')).
  { intros row' col'. unfold moved. simpl. rewrite cell_set_cell.
    case_decide; [intros _; by exists playerID, player | apply Hcells]. }
  assert (Hlen : 2 ≤ length (models.PlayerOrder g))
    by (rewrite (players_ok_length g Hplayers); lia).
  split_and!.
  - intros Hw.
    destruct (CheckWinner_owner range moved winnerID Hok eq_refl Hw) as (pl & Hpl & _).
    split; [by eexists |].
    constructor.
    + by apply (players_ok_same g).
    + exact Hids.
    + exact Hct.
    + exact Hfilled.
    + exact Hcells'.
    + intros Hlt. simpl in Hlt. lia.
    + simpl. split_and!; done.
  - intros Hw Hfull.
    constructor.
    + by apply (players_ok_same g).
    + exact Hids.
    + exact Hct.
    + exact Hfilled.
    + exact Hcells'.
    + intros Hlt. simpl in Hlt. lia.
    + simpl. split_and!; done.
  - intros Hw Hnotfull next.
    assert (Hnext : models.CurrentTurn next = (1 - models.CurrentTurn g)%Z).
    { unfold next, moved. simpl. destruct Hct as [-> | ->]; by vm_compute. }
    split.
    + constructor.
      * by apply (players_ok_same g).
      * exact Hids.
      * rewrite Hnext. lia.
      * exact Hfilled.
      * exact Hcells'.
      * intros Hlt. simpl in Hlt. lia.
      * change (models.Status next) with (models.Status g). rewrite Hactive.
        split_and!; [done.. |].
        change (models.MoveCount next) with (models.MoveCount moved).
        rewrite Hnext, Hmoves, Hparity.
        rewrite <- (Z.add_mod_idemp_l (models.MoveCount g)) by lia.
        pose proof (Z.mod_pos_bound (models.MoveCount g) 2).
        destruct (decide (models.MoveCount g mod 2 = 0)%Z) as [-> | ?]; [done |].
        assert (models.MoveCount g mod 2 = 1)%Z as -> by lia. done.
    + apply GetCurrentPlayerID_returns. rewrite Hnext. lia.
Qed.


(** ** What the handlers keep true of the state *)

Lemma GeneratePlayerID_nonempty rnd : game.GeneratePlayerID rnd ≠ ""%string.
Proof. done. Qed.

Lemma getPlayerIDFromContext_nonempty req rnd :
  (handlers.getPlayerIDFromContext req rnd).1 ≠ ""%string.
Proof.
  unfold handlers.getPlayerIDFromContext.
  destruct (handlers.Cookie_player_id req) as [playerID|]; [| done].
  by case_bool_decide.
Qed.

Lemma load_ok (range : game.range_order) s id addr :
  store_ok range (handlers.store s) →
  game.GetGame id (handlers.store s) = Some addr →
  ∃ g, game.objects (handlers.store s) !! addr = Some g ∧
       handlers.load addr s = Ok g ∧ models.ID g = id ∧ game_inv range g.
Proof.
  intros Hst Hget. destruct (so_games _ _ Hst id addr Hget) as (g & Hg & Hid).
  exists g. unfold handlers.load. rewrite Hg. split_and!; [done.. |].
  by eapply so_objects.
Qed.

Lemma save_ok (range : game.range_order) s addr g0 g :
  state_ok range s →
  game.objects (handlers.store s) !! addr = Some g0 →
  models.ID g = models.ID g0 → game_inv range g →
  state_ok range (handlers.save addr g s).
Proof.
  intros [Hwf [Hgames Hobjs]] Haddr Hid Hg. split; [done |].
  pose proof (lookup_lt_Some _ _ _ Haddr) as Hlt.
  constructor; simpl.
  - intros id a Ha. destruct (Hgames id a Ha) as (g1 & Hg1 & Hid1).
    destruct (decide (addr = a)) as [<- | Hne].
    + exists g. rewrite list_lookup_insert_eq by done. split; [done | congruence].
    + exists g1. by rewrite list_lookup_insert_ne.
  - intros a g1 [(<- & <- & _) | (_ & Hg1)]%list_lookup_insert_Some; [done |].
    by eapply Hobjs.
Qed.

Lemma broadcast_ok (range : game.range_order) gameID event po s :
  state_ok range s →
  ∃ s' spawned,
    handlers.broadcast gameID event po s = Ok (s', spawned) ∧
    state_ok range s' ∧ handlers.store s' = handlers.store s ∧
    gameSubscribers (handlers.world s') = gameSubscribers (handlers.world s) ∧
    fired (handlers.world s') = fired (handlers.world s).
Proof.
  intros [Hwf Hst].
  destruct (BroadcastGameEvent_wf gameID event po _ Hwf) as (w' & sp & Hb & Hwf' & Ht & Hf).
  unfold handlers.broadcast. rewrite Hb. simpl.
  eexists _, _. by split_and!.
Qed.

Lemma broadcast_status_ok (range : game.range_order) gameID addr po s :
  state_ok range s →
  ∃ s' spawned,
    handlers.broadcast_status gameID addr po s = Ok (s', spawned) ∧
    state_ok range s' ∧ handlers.store s' = handlers.store s ∧
    gameSubscribers (handlers.world s') = gameSubscribers (handlers.world s) ∧
    fired (handlers.world s') = fired (handlers.world s).
Proof.
  intros [Hwf Hst]. unfold handlers.broadcast_status.
  rewrite BroadcastPersonalizedGameStatus_eq.
  destruct (BroadcastGameEvent_wf gameID (status_event gameID addr) po _ Hwf)
    as (w' & sp & Hb & Hwf' & Ht & Hf).
  rewrite Hb. simpl. eexists _, _. by split_and!.
Qed.

Lemma render_ok (range : game.range_order) gameID s cookie spawned :
  store_ok range (handlers.store s) →
  ∃ r, handlers.render gameID s cookie spawned =
         Ok (s, {| handlers.set_cookie := cookie; handlers.body := r |}, spawned) ∧
       (∀ addr g, game.GetGame gameID (handlers.store s) = Some addr →
          game.objects (handlers.store s) !! addr = Some g →
          r = handlers.BoardMarkup gameID (models.Board g)).
Proof.
  intros Hst. unfold handlers.render, handlers.renderGameBoard.
  destruct (game.GetGame gameID (handlers.store s)) as [addr|] eqn:Hget.
  - destruct (load_ok range s gameID addr Hst Hget) as (g & Hg & -> & _). simpl.
    eexists. split; [done |]. intros a g' [= <-] Hg'. congruence.
  - simpl. eexists. split; [done |]. by intros.
Qed.

Lemma NewGameHandler_ok (range : game.range_order) rnd s :
  state_ok range s →
  ∃ out, handlers.NewGameHandler rnd s = Ok out ∧ state_ok range out.1.1.
Proof.
  intros [Hwf [Hgames Hobjs]]. eexists. split; [done |]. split; [done |].
  constructor; simpl.
  - intros id a [[<- <-] | [Hne Ha]]%lookup_insert_Some.
    + eexists. by rewrite lookup_app_r, Nat.sub_diag by lia.
    + destruct (Hgames id a Ha) as (g & Hg & Hid). exists g.
      split; [by apply lookup_app_l_Some | done].
  - intros a g [Hg | [_ Hg]]%lookup_app_Some; [by eapply Hobjs |].
    apply list_lookup_singleton_Some in Hg as [_ <-].
    eapply (game_inv_new range rnd (handlers.store s)).
    simpl. by rewrite lookup_app_r, Nat.sub_diag by lia.
Qed.

Lemma GameResetHandler_ok (range : game.range_order) box req po1 po2 s :
  state_ok range s →
  ∃ out, handlers.GameResetHandler box req po1 po2 s = Ok out ∧ state_ok range out.1.1.
Proof.
  intros Hs. unfold handlers.GameResetHandler.
  destruct (bool_decide _); simpl; [| by eexists].
  destruct (game.GetGame _ _) as [addr|] eqn:Hget; [| by eexists].
  destruct (load_ok range s _ addr (proj2 Hs) Hget) as (g & Hg & -> & Hid & Hinv). simpl.
  match goal with |- context [handlers.save addr ?g' s] =>
    assert (Hs1 : state_ok range (handlers.save addr g' s))
      by (eapply save_ok; [done | done | done | by apply game_inv_reset])
  end.
  match goal with |- context [handlers.broadcast ?id ?e po1 ?s1] =>
    destruct (broadcast_ok range id e po1 s1 Hs1) as (s2 & sp1 & -> & Hs2 & _)
  end. simpl.
  destruct (broadcast_status_ok range (handlers.Param_id req) addr po2 s2 Hs2)
    as (s3 & sp2 & -> & Hs3 & _). simpl.
  destruct (render_ok range (handlers.Param_id req) s3 None (sp1 ++ sp2) (proj2 Hs3))
    as (r & -> & _).
  by eexists.
Qed.

Lemma EmojiSelectionSubmitHandler_ok (range : game.range_order) req rnd now po1 po2 s :
  game.range_ok range → state_ok range s →
  ∃ out, handlers.EmojiSelectionSubmitHandler range req rnd now po1 po2 s = Ok out ∧
         state_ok range out.1.1.
Proof.
  intros Hok Hs. unfold handlers.EmojiSelectionSubmitHandler.
  destruct (game.GetGame _ _) as [addr|] eqn:Hget; [| by eexists].
  destruct (load_ok range s _ addr (proj2 Hs) Hget) as (g & Hg & -> & Hid & Hinv). simpl.
  pose proof (getPlayerIDFromContext_nonempty req rnd) as Hpid.
  destruct (handlers.getPlayerIDFromContext req rnd) as [playerID cookie]. simpl in Hpid.
  case_bool_decide as Hemoji; [by eexists |].
  set (joined := game.AddPlayerToGame range g playerID (handlers.PostForm_emoji req) now).
  assert (Hsameid : models.ID joined.1 = models.ID g).
  { destruct (joined.2) eqn:Herr; unfold joined in *.
    - rewrite AddPlayerToGame_unchanged; [done | by rewrite Herr].
    - by destruct (AddPlayerToGame_joined range g playerID
                     (handlers.PostForm_emoji req) now Hok Herr)
        as (_ & _ & _ & _ & ->). }
  assert (Hs1 : state_ok range (handlers.save addr joined.1 s)).
  { eapply save_ok; [done | done | done | by apply game_inv_join]. }
  destruct (joined.2) as [err|]; [by eexists |].
  match goal with |- context [handlers.broadcast ?id ?e po1 ?s1] =>
    destruct (broadcast_ok range id e po1 s1 Hs1) as (s2 & sp1 & -> & Hs2 & _)
  end. simpl.
  destruct (bool_decide (size (models.Players g) = 0)); [by eexists |].
  destruct (bool_decide (models.Status joined.1 = models.GameStatusActive)); [| by eexists].
  match goal with |- context [handlers.broadcast ?id ?e po2 ?s1] =>
    destruct (broadcast_ok range id e po2 s1 Hs2) as (s3 & sp2 & -> & Hs3 & _)
  end. simpl. by eexists.
Qed.


Lemma after_move_inv (range : game.range_order) g playerID player row col :
  game.range_ok range → game_inv range g →
  models.Players g !! playerID = Some player →
  models.Emoji player ≠ ""%string →
  game.IsPlayersTurn g playerID = Ok true →
  models.cell (models.Board g) row col = ""%string →
  game_inv range (after_move range g player row col) ∧
  models.ID (after_move range g player row col) = models.ID g.
Proof.
  intros Hok Hg Hp He Hturn Hcell.
  destruct (game_inv_move range g playerID player row col Hok Hg Hp He Hturn Hcell)
    as (Hwin & Hdraw & Hnext).
  unfold after_move. case_bool_decide as Hw.
  - destruct (game.IsBoardFull _) eqn:Hfull.
    + split; [by apply Hdraw | done].
    + split; [by apply Hnext | done].
  - split; [by apply Hwin | done].
Qed.

Lemma make_move_ok (range : game.range_order) box req cookie po1 po2 s
    addr g playerID player rowInt colInt row col :
  game.range_ok range → state_ok range s →
  game.GetGame (handlers.Param_id req) (handlers.store s) = Some addr →
  game.objects (handlers.store s) !! addr = Some g →
  models.Players g !! playerID = Some player →
  models.Emoji player ≠ ""%string →
  game.IsPlayersTurn g playerID = Ok true →
  models.cell (models.Board g) row col = ""%string →
  ∃ s' spawned,
    handlers.make_move range box (handlers.Param_id req) addr g playerID player cookie
      row col rowInt colInt po1 po2 s =
      Ok (s',
          {| handlers.set_cookie := cookie;
             handlers.body :=
               handlers.BoardMarkup (handlers.Param_id req)
                 (models.Board (after_move range g player row col)) |},
          spawned) ∧
    state_ok range s' ∧
    handlers.store s' =
      handlers.store (handlers.save addr (after_move range g player row col) s) ∧
    gameSubscribers (handlers.world s') = gameSubscribers (handlers.world s) ∧
    fired (handlers.world s') = fired (handlers.world s).
Proof.
  intros Hok Hs Hget Hg Hp He Hturn Hcell.
  pose proof (so_objects _ _ (proj2 Hs) addr g Hg) as Hinv.
  destruct (after_move_inv range g _ player row col Hok Hinv Hp He Hturn Hcell)
    as [Hinv' Hid'].
  destruct (game_inv_move range g _ player row col Hok Hinv Hp He Hturn Hcell)
    as (Hwin & _ & Hnext).
  assert (Hs1 : state_ok range (handlers.save addr (after_move range g player row col) s)).
  { by eapply save_ok. }
  assert (Hget1 : ∀ s1, handlers.store s1 =
            handlers.store (handlers.save addr (after_move range g player row col) s) →
          game.GetGame (handlers.Param_id req) (handlers.store s1) = Some addr ∧
          game.objects (handlers.store s1) !! addr =
            Some (after_move range g player row col)).
  { intros s1 ->. split; [done |]. simpl. apply list_lookup_insert_eq.
    by eapply lookup_lt_Some. }
  unfold handlers.make_move. simpl.
  unfold after_move in *.
  set (moved := handlers.with_moves _ _) in *.
  destruct (bool_decide (game.CheckWinner range moved = ""%string)) eqn:Hw; simpl.
  - destruct (game.IsBoardFull moved) eqn:Hfull.
    + match goal with |- context [handlers.broadcast ?id ?e po1 ?s1] =>
        destruct (broadcast_ok range id e po1 s1 Hs1) as (s2 & sp1 & -> & Hs2 & Hst2 & Ht2 & Hf2)
      end. simpl.
      destruct (broadcast_status_ok range (handlers.Param_id req) addr po2 s2 Hs2)
        as (s3 & sp2 & -> & Hs3 & Hst3 & Ht3 & Hf3). simpl.
      destruct (render_ok range (handlers.Param_id req) s3 cookie (sp1 ++ sp2) (proj2 Hs3))
        as (r & -> & Hr).
      destruct (Hget1 s3) as [Hg3 Ho3]; [by rewrite Hst3, Hst2 |].
      rewrite (Hr _ _ Hg3 Ho3).
      eexists _, _.
      split_and!; [done | done | by rewrite Hst3, Hst2 | by rewrite Ht3, Ht2 | by rewrite Hf3, Hf2].
    + apply bool_decide_eq_true in Hw.
      destruct (Hnext Hw eq_refl) as [_ [nextPlayer Hnp]]. simpl in Hnp.
      rewrite Hnp. simpl.
      match goal with |- context [handlers.broadcast ?id ?e po1 ?s1] =>
        destruct (broadcast_ok range id e po1 s1 Hs1) as (s2 & sp1 & -> & Hs2 & Hst2 & Ht2 & Hf2)
      end. simpl.
      destruct (broadcast_status_ok range (handlers.Param_id req) addr po2 s2 Hs2)
        as (s3 & sp2 & -> & Hs3 & Hst3 & Ht3 & Hf3). simpl.
      destruct (render_ok range (handlers.Param_id req) s3 cookie (sp1 ++ sp2) (proj2 Hs3))
        as (r & -> & Hr).
      destruct (Hget1 s3) as [Hg3 Ho3]; [by rewrite Hst3, Hst2 |].
      rewrite (Hr _ _ Hg3 Ho3).
      eexists _, _.
      split_and!; [done | done | by rewrite Hst3, Hst2 | by rewrite Ht3, Ht2 | by rewrite Hf3, Hf2].
  - apply bool_decide_eq_false in Hw.
    destruct (Hwin Hw) as [[winner Hwinner] _].
    change (models.Players
              (handlers.with_winner
                 (handlers.with_status moved models.GameStatusFinished)
                 (game.CheckWinner range moved)))
      with (models.Players g).
    rewrite Hwinner.
    match goal with |- context [handlers.broadcast ?id ?e po1 ?s1] =>
      destruct (broadcast_ok range id e po1 s1 Hs1) as (s2 & sp1 & -> & Hs2 & Hst2 & Ht2 & Hf2)
    end. simpl.
    destruct (broadcast_status_ok range (handlers.Param_id req) addr po2 s2 Hs2)
      as (s3 & sp2 & -> & Hs3 & Hst3 & Ht3 & Hf3). simpl.
    destruct (render_ok range (handlers.Param_id req) s3 cookie (sp1 ++ sp2) (proj2 Hs3))
      as (r & -> & Hr).
    destruct (Hget1 s3) as [Hg3 Ho3]; [by rewrite Hst3, Hst2 |].
    rewrite (Hr _ _ Hg3 Ho3).
    eexists _, _.
      split_and!; [done | done | by rewrite Hst3, Hst2 | by rewrite Ht3, Ht2 | by rewrite Hf3, Hf2].
Qed.

Lemma GameMoveHandler_accepted (range : game.range_order) box req rnd po1 po2 s
    addr g player rowInt colInt row col :
  game.range_ok range → state_ok range s →
  handlers.Header_HX_Request req = "true"%string →
  game.GetGame (handlers.Param_id req) (handlers.store s) = Some addr →
  game.objects (handlers.store s) !! addr = Some g →
  models.Players g !! (handlers.getPlayerIDFromContext req rnd).1 = Some player →
  models.Emoji player ≠ ""%string →
  handlers.Atoi (handlers.Param_row req) = Some rowInt →
  handlers.index_of rowInt = Some row →
  handlers.Atoi (handlers.Param_col req) = Some colInt →
  handlers.index_of colInt = Some col →
  game.IsGameFinished g = false →
  game.IsPlayersTurn g (handlers.getPlayerIDFromContext req rnd).1 = Ok true →
  models.cell (models.Board g) row col = ""%string →
  ∃ s' spawned,
    handlers.GameMoveHandler range box req rnd po1 po2 s =
      Ok (s',
          {| handlers.set_cookie := (handlers.getPlayerIDFromContext req rnd).2;
             handlers.body :=
               handlers.BoardMarkup (handlers.Param_id req)
                 (models.Board (after_move range g player row col)) |},
          spawned) ∧
    state_ok range s' ∧
    handlers.store s' =
      handlers.store (handlers.save addr (after_move range g player row col) s) ∧
    gameSubscribers (handlers.world s') = gameSubscribers (handlers.world s) ∧
    fired (handlers.world s') = fired (handlers.world s).
Proof.
  intros Hok Hs HX Hget Hg Hp He Hrow Hrowi Hcol Hcoli Hfin Hturn Hcell.
  unfold handlers.GameMoveHandler.
  rewrite HX, bool_decide_eq_true_2 by done. simpl. rewrite Hget.
  unfold handlers.load at 1. rewrite Hg. simpl.
  destruct (handlers.getPlayerIDFromContext req rnd) as [playerID cookie]. simpl in *.
  rewrite Hp, bool_decide_eq_false_2 by done.
  rewrite Hrow, Hrowi, Hcol, Hcoli, Hfin, Hturn. simpl.
  rewrite Hcell, bool_decide_eq_true_2 by done. simpl.
  by apply make_move_ok.
Qed.


Lemma render_same gameID s cookie spawned s' resp spawned' :
  handlers.render gameID s cookie spawned = Ok (s', resp, spawned') →
  s' = s ∧ spawned' = spawned.
Proof.
  unfold handlers.render. destruct (handlers.renderGameBoard gameID s); simpl; [| done].
  by intros [= <- _ <-].
Qed.

Lemma respond_same s cookie r s' resp spawned' :
  handlers.respond s cookie r = Ok (s', resp, spawned') → s' = s ∧ spawned' = [].
Proof. unfold handlers.respond. by intros [= <- _ <-]. Qed.

Lemma GameMoveHandler_rejected (range : game.range_order) box req rnd po1 po2 s
    s' resp spawned :
  handlers.GameMoveHandler range box req rnd po1 po2 s = Ok (s', resp, spawned) →
  ¬ move_accepted req rnd s →
  s' = s ∧ spawned = [].
Proof.
  intros Hrun Hnot. unfold handlers.GameMoveHandler in Hrun.
  destruct (bool_decide (handlers.Header_HX_Request req = "true"%string)) eqn:HX;
    simpl in Hrun; [| by eapply respond_same].
  apply bool_decide_eq_true in HX.
  destruct (game.GetGame _ _) as [addr|] eqn:Hget; [| by eapply respond_same].
  unfold handlers.load in Hrun at 1.
  destruct (game.objects (handlers.store s) !! addr) as [g|] eqn:Hg; simpl in Hrun; [| done].
  destruct (handlers.getPlayerIDFromContext req rnd) as [playerID cookie] eqn:Hctx.
  destruct (models.Players g !! playerID) as [player|] eqn:Hp; [| by eapply respond_same].
  destruct (bool_decide (models.Emoji player = ""%string)) eqn:He;
    [by eapply respond_same |].
  apply bool_decide_eq_false in He.
  destruct (handlers.Atoi (handlers.Param_row req)) as [rowInt|] eqn:Hrow;
    [| by eapply respond_same].
  destruct (handlers.index_of rowInt) as [row|] eqn:Hrowi; [| by eapply respond_same].
  destruct (handlers.Atoi (handlers.Param_col req)) as [colInt|] eqn:Hcol;
    [| by eapply respond_same].
  destruct (handlers.index_of colInt) as [col|] eqn:Hcoli; [| by eapply respond_same].
  destruct (game.IsGameFinished g) eqn:Hfin; [by eapply render_same |].
  destruct (game.IsPlayersTurn g playerID) as [[|]|] eqn:Hturn; simpl in Hrun;
    [| by eapply render_same | done].
  destruct (bool_decide (models.cell (models.Board g) row col = ""%string)) eqn:Hcell;
    simpl in Hrun; [| by eapply render_same].
  apply bool_decide_eq_true in Hcell.
  destruct Hnot. split; [done |]. rewrite Hctx. simpl.
  exists addr, g, player, rowInt, colInt, row, col. by split_and!.
Qed.

Lemma IsPlayersTurn_returns (range : game.range_order) g playerID :
  game_inv range g → ∃ b, game.IsPlayersTurn g playerID = Ok b.
Proof.
  intros Hg. unfold game.IsPlayersTurn.
  destruct (game.IsGameActive g) eqn:Hactive; [| by eexists].
  destruct (GetCurrentPlayerID_returns g (gi_turn _ _ Hg)) as [pID ->]. by eexists.
Qed.

Lemma GameMoveHandler_ok (range : game.range_order) box req rnd po1 po2 s :
  game.range_ok range → state_ok range s →
  ∃ out, handlers.GameMoveHandler range box req rnd po1 po2 s = Ok out ∧
         state_ok range out.1.1.
Proof.
  intros Hok Hs. unfold handlers.GameMoveHandler.
  destruct (bool_decide _); simpl; [| by eexists].
  destruct (game.GetGame _ _) as [addr|] eqn:Hget; [| by eexists].
  destruct (load_ok range s _ addr (proj2 Hs) Hget) as (g & Hg & -> & Hid & Hinv). simpl.
  destruct (handlers.getPlayerIDFromContext req rnd) as [playerID cookie].
  destruct (models.Players g !! playerID) as [player|] eqn:Hp; [| by eexists].
  case_bool_decide as He; [by eexists |].
  destruct (handlers.Atoi (handlers.Param_row req)) as [rowInt|]; [| by eexists].
  destruct (handlers.index_of rowInt) as [row|]; [| by eexists].
  destruct (handlers.Atoi (handlers.Param_col req)) as [colInt|]; [| by eexists].
  destruct (handlers.index_of colInt) as [col|]; [| by eexists].
  destruct (game.IsGameFinished g).
  { destruct (render_ok range (handlers.Param_id req) s cookie [] (proj2 Hs))
      as (r & -> & _). by eexists. }
  destruct (IsPlayersTurn_returns range g playerID Hinv) as [turn Hturn].
  rewrite Hturn. simpl. destruct turn; simpl.
  2: { destruct (render_ok range (handlers.Param_id req) s cookie [] (proj2 Hs))
         as (r & -> & _). by eexists. }
  case_bool_decide as Hcell; simpl.
  2: { destruct (render_ok range (handlers.Param_id req) s cookie [] (proj2 Hs))
         as (r & -> & _). by eexists. }
  destruct (make_move_ok range box req cookie po1 po2 s addr g playerID player
              rowInt colInt row col) as (s' & sp & -> & Hs' & _); try done.
  by eexists.
Qed.

Lemma serve_ok (range : game.range_order) box a s :
  game.range_ok range → state_ok range s →
  ∃ s', handlers.serve range box a s = Ok s' ∧ state_ok range s'.
Proof.
  intros Hok Hs. destruct a as [rnd | req rnd now po1 po2 | req rnd po1 po2 | req po1 po2 | c];
    unfold handlers.serve.
  - destruct (NewGameHandler_ok range rnd s Hs) as (out & -> & Hout). by eexists.
  - destruct (EmojiSelectionSubmitHandler_ok range req rnd now po1 po2 s Hok Hs)
      as (out & -> & Hout). by eexists.
  - destruct (GameMoveHandler_ok range box req rnd po1 po2 s Hok Hs) as (out & -> & Hout).
    by eexists.
  - destruct (GameResetHandler_ok range box req po1 po2 s Hs) as (out & -> & Hout).
    by eexists.
  - destruct Hs as [Hwf Hst]. destruct (step_wf c _ Hwf) as (w' & -> & Hwf').
    by eexists.
Qed.

Lemma serve_all_ok (range : game.range_order) box actions :
  game.range_ok range →
  ∀ s, state_ok range s →
    ∃ s', handlers.serve_all range box actions s = Ok s' ∧ state_ok range s'.
Proof.
  intros Hok. induction actions as [|a rest IH]; intros s Hs; simpl; [by exists s |].
  destruct (serve_ok range box a s Hok Hs) as (s1 & -> & Hs1). simpl. by apply IH.
Qed.

Lemma initial_state_ok (range : game.range_order) : state_ok range handlers.initial_state.
Proof.
  split; [apply empty_world_wf |]. constructor; simpl.
  - intros id addr. by rewrite lookup_empty.
  - intros addr g. by rewrite lookup_nil.
Qed.

(** ** What the handlers keep true *)

Lemma reachable_state_ok (range : game.range_order) box actions s :
  game.range_ok range →
  handlers.serve_all range box actions handlers.initial_state = Ok s →
  state_ok range s.
Proof.
  intros Hok Hrun.
  destruct (serve_all_ok range box actions Hok _ (initial_state_ok range))
    as (s' & Hrun' & Hs').
  congruence.
Qed.

Lemma demo_setup_runs :
  handlers.serve_all demo_range demo_box demo_setup handlers.initial_state =
    Ok (state_of demo_setup).
Proof. by vm_compute. Qed.

(** A player who has joined and a new game keep to the joining rules. *)
Lemma join_all_inv (range : game.range_order) attempts :
  game.range_ok range →
  ∀ g, players_ok g →
    (models.Status g = models.GameStatusWaiting ∧ size (models.Players g) < 2 ∨
     models.Status g = models.GameStatusActive ∧ size (models.Players g) = 2) →
    models.CurrentTurn g = 0%Z → models.MoveCount g = 0%Z →
    let g' := join_all range g attempts in
    players_ok g' ∧
    (models.Status g' = models.GameStatusWaiting ∧ size (models.Players g') < 2 ∨
     models.Status g' = models.GameStatusActive ∧ size (models.Players g') = 2) ∧
    models.Board g' = models.Board g ∧
    models.CurrentTurn g' = 0%Z ∧ models.MoveCount g' = 0%Z ∧
    models.ID g' = models.ID g ∧ models.Winner g' = models.Winner g.
Proof.
  intros Hok. induction attempts as [|[[playerID emoji] now] rest IH];
    intros g Hp Hst Hturn Hcount; simpl; [done |].
  set (r := game.AddPlayerToGame range g playerID emoji now).
  assert (Hnext : players_ok r.1 ∧
    (models.Status r.1 = models.GameStatusWaiting ∧ size (models.Players r.1) < 2 ∨
     models.Status r.1 = models.GameStatusActive ∧ size (models.Players r.1) = 2) ∧
    models.Board r.1 = models.Board g ∧
    models.CurrentTurn r.1 = 0%Z ∧ models.MoveCount r.1 = 0%Z ∧
    models.ID r.1 = models.ID g ∧ models.Winner r.1 = models.Winner g).
  { split; [by apply AddPlayerToGame_players_ok |].
    destruct (r.2) as [err|] eqn:Herr.
    - pose proof (AddPlayerToGame_unchanged range g playerID emoji now) as Hsame.
      fold r in Hsame. rewrite Hsame by congruence. done.
    - destruct (AddPlayerToGame_joined range g playerID emoji now Hok Herr)
        as (Hroom & Hfresh & _ & _ & Heq).
      fold r in Heq. rewrite Heq. simpl.
      rewrite map_size_insert_None by done.
      destruct (decide (size (models.Players g) = 0)) as [H0 | H0].
      + split_and!; try done. left. split; [done | lia].
      + split_and!; try done. right. split; [done | lia]. }
  destruct Hnext as (Hp' & Hst' & Hb' & Ht' & Hc' & Hid' & Hw').
  destruct (IH r.1 Hp' Hst' Ht' Hc') as (? & ? & ? & ? & ? & ? & ?).
  split_and!; try done; congruence.
Qed.

(** X13: whatever attempts to join follow the creation of a game, and
    whatever each of them returns, the game has at most two players, its
    join order lists exactly its players, once each, the players have
    distinct emojis from the list of available ones, the game is waiting
    while it has fewer than two players and active once it has two, and the
    board, the move count, the turn and the id are as [CreateGame] left
    them. *)
Theorem joins_fill_a_new_game (range : game.range_order) (rnd : list byte)
    (st : game.Store) (attempts : list (string * string * nat)) (g : models.Game) :
  game.range_ok range →
  game.objects (game.CreateGame rnd st).1 !! (game.CreateGame rnd st).2 = Some g →
  let g' := join_all range g attempts in
  players_ok g' ∧
  (models.Status g' = models.GameStatusWaiting ∧ size (models.Players g') < 2 ∨
   models.Status g' = models.GameStatusActive ∧ size (models.Players g') = 2) ∧
  models.Board g' = models.empty_board ∧
  models.CurrentTurn g' = 0%Z ∧ models.MoveCount g' = 0%Z ∧
  models.ID g' = game.generateGameID rnd.
Proof.
  intros Hok Hg. simpl in Hg.
  rewrite lookup_app_r, Nat.sub_diag in Hg by lia. injection Hg as <-.
  match goal with |- context [join_all range ?g0 attempts] =>
    destruct (join_all_inv range attempts Hok g0) as (? & ? & ? & ? & ? & ? & ?)
  end; simpl; try done.
  - by apply players_ok_empty.
  - left. split; [done |]. rewrite map_size_empty. lia.
Qed.

Lemma joins_fill_a_new_game_witness :
  size (models.Players
          (join_all demo_range
             {| models.ID := "01000000";
                models.Board := models.empty_board;
                models.Players := ∅;
                models.PlayerOrder := [];
                models.Status := models.GameStatusWaiting;
                models.CurrentTurn := 0;
                models.Winner := "";
                models.MoveCount := 0 |}
             [("a", "🐱", 7); ("b", "🚀", 8); ("c", "🎯", 9)]%string)) ≤ 2.
Proof.
  apply (joins_fill_a_new_game demo_range [x01] game.empty_store
           [("a", "🐱", 7); ("b", "🚀", 8); ("c", "🎯", 9)]%string _ demo_range_ok).
  reflexivity.
Defined.

(** ** Moves *)

Lemma player_emoji_nonempty g pID player :
  players_ok g → models.Players g !! pID = Some player →
  models.Emoji player ≠ ""%string.
Proof.
  intros Hp Hl. eapply available_emoji_nonempty, ok_emoji_valid; eauto.
Qed.

(** Whose turn it is in a game the handlers have worked on. *)
Lemma IsPlayersTurn_spec (range : game.range_order) g playerID :
  game_inv range g → playerID ≠ ""%string →
  game.IsPlayersTurn g playerID = Ok true ↔
  models.Status g = models.GameStatusActive ∧
  size (models.Players g) = 2 ∧
  models.PlayerOrder g !! (filled_cells (models.Board g) mod 2) = Some playerID.
Proof.
  intros Hinv Hne.
  pose proof (players_ok_length g (gi_players _ _ Hinv)) as Hlen.
  pose proof (ok_size _ (gi_players _ _ Hinv)) as Hsize.
  unfold models.MaxPlayersPerGame in Hsize.
  pose proof (gi_status _ _ Hinv) as Hst.
  pose proof (gi_count _ _ Hinv) as Hcount.
  assert (Hidx : models.Status g = models.GameStatusActive →
            Z.to_nat (models.CurrentTurn g) = filled_cells (models.Board g) mod 2 ∧
            (0 ≤ models.CurrentTurn g)%Z).
  { intros Ha. rewrite Ha in Hst. destruct Hst as (_ & _ & _ & ->).
    rewrite Hcount. split; [| apply Z.mod_pos_bound; lia].
    change 2%Z with (Z.of_nat 2). by rewrite <- Nat2Z.inj_mod, Nat2Z.id. }
  unfold game.IsPlayersTurn, game.GetCurrentPlayerID, game.IsGameActive.
  split.
  - case_bool_decide as Ha; [| done]. simpl.
    destruct (Hidx Ha) as [Hi Hpos].
    case_bool_decide as Hl; simpl.
    { intros [=Heq]. apply bool_decide_eq_true in Heq. by subst. }
    rewrite bool_decide_eq_true_2 by done.
    rewrite Hi.
    destruct (models.PlayerOrder g !! (filled_cells (models.Board g) mod 2))
      as [pID|] eqn:Hlook; [| done].
    intros [=Heq]. apply bool_decide_eq_true in Heq. subst pID.
    split; [done |]. split; [lia | done].
  - intros (Ha & H2 & Hlook). rewrite bool_decide_eq_true_2 by done. simpl.
    destruct (Hidx Ha) as [Hi Hpos].
    rewrite bool_decide_eq_false_2 by lia. rewrite bool_decide_eq_true_2 by done.
    rewrite Hi, Hlook. simpl. by rewrite bool_decide_eq_true_2.
Qed.

(** A line filled after a move in an active game is the mover's. *)
Lemma winner_is_mover (range : game.range_order) g playerID player row col :
  game.range_ok range → game_inv range g →
  models.Status g = models.GameStatusActive →
  models.Players g !! playerID = Some player →
  models.cell (models.Board g) row col = ""%string →
  let moved :=
    handlers.with_moves
      (handlers.with_board g
         (models.set_cell (models.Board g) row col (models.Emoji player)))
      (handlers.int_wrap (models.MoveCount g + 1)) in
  game.CheckWinner range moved ≠ ""%string →
  game.CheckWinner range moved = playerID ∧
  holds_line (models.Board moved) (models.Emoji player).
Proof.
  intros Hok Hinv Ha Hp Hcell moved Hw.
  destruct (CheckWinner_owner range moved _ Hok eq_refl Hw)
    as (winner & Hwp & Hwe & Hline).
  change (models.Players moved) with (models.Players g) in Hwp.
  destruct (decide (models.Emoji winner = models.Emoji player)) as [Heq | Hneq].
  - rewrite Heq in Hline. split; [| done].
    eapply (ok_emoji_unique _ (gi_players _ _ Hinv)); eauto.
  - exfalso.
    pose proof (gi_status _ _ Hinv) as Hst. rewrite Ha in Hst.
    destruct Hst as (_ & Hnone & _).
    apply (CheckWinner_none range g Hok (gi_ids _ _ Hinv)) in Hnone.
    apply Hnone. exists (game.CheckWinner range moved), winner.
    split; [done |]. split; [done |].
    destruct Hline as (p & q & r & Hin & Hcp & Hcq & Hcr).
    exists p, q, r. split; [done |].
    change (models.Board moved)
      with (models.set_cell (models.Board g) row col (models.Emoji player))
      in Hcp, Hcq, Hcr.
    rewrite cell_set_cell in Hcp, Hcq, Hcr.
    repeat case_decide; try congruence. done.
Qed.

(** What a move in turn to an empty cell makes of the game. *)
Lemma after_move_facts (range : game.range_order) g playerID player row col :
  game.range_ok range → game_inv range g →
  models.Players g !! playerID = Some player →
  game.IsPlayersTurn g playerID = Ok true →
  models.cell (models.Board g) row col = ""%string →
  let g' := after_move range g player row col in
  models.Board g' = models.set_cell (models.Board g) row col (models.Emoji player) ∧
  models.MoveCount g' = (models.MoveCount g + 1)%Z ∧
  models.Players g' = models.Players g ∧
  models.PlayerOrder g' = models.PlayerOrder g ∧
  models.ID g' = models.ID g ∧
  (models.Status g' = models.GameStatusFinished ∧ models.Winner g' = playerID ∧
     holds_line (models.Board g') (models.Emoji player) ∧
     models.CurrentTurn g' = models.CurrentTurn g
   ∨ models.Status g' = models.GameStatusDraw ∧ models.Winner g' = ""%string ∧
     game.IsBoardFull g' = true ∧ ¬ owned_line g' ∧
     models.CurrentTurn g' = models.CurrentTurn g
   ∨ models.Status g' = models.GameStatusActive ∧ models.Winner g' = ""%string ∧
     game.IsBoardFull g' = false ∧ ¬ owned_line g' ∧
     models.CurrentTurn g' = (1 - models.CurrentTurn g)%Z).
Proof.
  intros Hok Hinv Hp Hturn Hcell.
  assert (Hne : playerID ≠ ""%string) by (by apply (gi_ids _ _ Hinv)).
  destruct (IsPlayersTurn_true range g playerID Hinv) as [Ha H2]; [done | done |].
  pose proof (gi_status _ _ Hinv) as Hst. rewrite Ha in Hst.
  destruct Hst as (Hwin & _ & _ & _).
  assert (Hcount : handlers.int_wrap (models.MoveCount g + 1) = (models.MoveCount g + 1)%Z).
  { apply int_wrap_small. rewrite (gi_count _ _ Hinv).
    pose proof (filled_cells_bound (models.Board g)). lia. }
  pose proof (winner_is_mover range g playerID player row col Hok Hinv Ha Hp Hcell) as Hmover.
  unfold after_move. simpl in Hmover.
  set (moved := handlers.with_moves _ _) in *.
  assert (Hkeys : ∀ pID, is_Some (models.Players moved !! pID) → pID ≠ ""%string).
  { apply (gi_ids _ _ Hinv). }
  case_bool_decide as Hw.
  - pose proof (proj1 (CheckWinner_none range moved Hok Hkeys) Hw) as Hnone.
    destruct (game.IsBoardFull moved) eqn:Hfull; simpl.
    + split_and!; try done. right. left. split_and!; try done.
    + split_and!; try done. right. right. split_and!; try done.
      destruct (gi_turn _ _ Hinv) as [-> | ->]; by vm_compute.
  - destruct (Hmover Hw) as [Hid Hline]. simpl.
    split_and!; try done. left. split_and!; try done.
Qed.

(** X14: in a state the handlers have led to, a move request that fails one
    of the checks of [GameMoveHandler] (the HTMX header, the game, the
    caller being a player with an emoji, row and column from 0 to 2, the
    game not being over, the turn, the cell being empty) is answered, and
    the handler leaves the games and the subscribers as they were and
    starts no goroutine. *)
Theorem rejected_move_changes_nothing (range : game.range_order) (box : handlers.boxing)
    (actions : list handlers.action) (s : handlers.State)
    (req : handlers.Request) (rnd : list byte) (po1 po2 : nat → pollorder) :
  game.range_ok range →
  handlers.serve_all range box actions handlers.initial_state = Ok s →
  ¬ move_accepted req rnd s →
  ∃ resp, handlers.GameMoveHandler range box req rnd po1 po2 s = Ok (s, resp, []).
Proof.
  intros Hok Hrun Hno.
  pose proof (reachable_state_ok range box actions s Hok Hrun) as Hs.
  destruct (GameMoveHandler_ok range box req rnd po1 po2 s Hok Hs)
    as ([[s' resp] spawned] & Hrun' & _).
  destruct (GameMoveHandler_rejected range box req rnd po1 po2 s s' resp spawned Hrun' Hno)
    as [-> ->].
  by exists resp.
Qed.

Lemma rejected_move_changes_nothing_witness :
  ∃ resp,
    handlers.GameMoveHandler demo_range demo_box (demo_request "b" "1" "1" "") []
      send_first send_first (state_of demo_setup) =
      Ok (state_of demo_setup, resp, []).
Proof.
  apply (rejected_move_changes_nothing demo_range demo_box demo_setup _ _ _ _ _
           demo_range_ok demo_setup_runs).
  intros (_ & addr & g & player & rowInt & colInt & row & col &
          Hget & Hg & Hp & _ & _ & _ & _ & _ & _ & Hturn & _).
  vm_compute in Hget. injection Hget as <-.
  vm_compute in Hg. injection Hg as <-.
  vm_compute in Hturn. discriminate Hturn.
Defined.

(** X15: in a state the handlers have led to, a player of the game who
    moves in turn to an empty cell of a game that is not over gets the
    markup of the new board, and the game stored at the same address has
    the player's emoji in that cell and nowhere else a change, one move
    more, and the same players; it is finished with the mover as the winner
    and the mover's emoji on a line, or drawn with a full board and no line,
    or active with the turn on the other player. Nothing else in the store
    changes, and nobody is registered or deregistered. *)
Theorem accepted_move_effect (range : game.range_order) (box : handlers.boxing)
    (actions : list handlers.action) (s : handlers.State)
    (req : handlers.Request) (rnd : list byte) (po1 po2 : nat → pollorder)
    (addr : nat) (g : models.Game) (player : models.Player)
    (rowInt colInt : Z) (row col : models.idx) :
  game.range_ok range →
  handlers.serve_all range box actions handlers.initial_state = Ok s →
  handlers.Header_HX_Request req = "true"%string →
  game.GetGame (handlers.Param_id req) (handlers.store s) = Some addr →
  game.objects (handlers.store s) !! addr = Some g →
  models.Players g !! (handlers.getPlayerIDFromContext req rnd).1 = Some player →
  handlers.Atoi (handlers.Param_row req) = Some rowInt →
  handlers.index_of rowInt = Some row →
  handlers.Atoi (handlers.Param_col req) = Some colInt →
  handlers.index_of colInt = Some col →
  game.IsGameFinished g = false →
  game.IsPlayersTurn g (handlers.getPlayerIDFromContext req rnd).1 = Ok true →
  models.cell (models.Board g) row col = ""%string →
  ∃ s' g' spawned,
    handlers.GameMoveHandler range box req rnd po1 po2 s =
      Ok (s',
          {| handlers.set_cookie := (handlers.getPlayerIDFromContext req rnd).2;
             handlers.body :=
               handlers.BoardMarkup (handlers.Param_id req) (models.Board g') |},
          spawned) ∧
    game.games (handlers.store s') = game.games (handlers.store s) ∧
    game.objects (handlers.store s') = <[addr := g']> (game.objects (handlers.store s)) ∧
    gameSubscribers (handlers.world s') = gameSubscribers (handlers.world s) ∧
    models.Board g' = models.set_cell (models.Board g) row col (models.Emoji player) ∧
    models.MoveCount g' = (models.MoveCount g + 1)%Z ∧
    models.Players g' = models.Players g ∧
    models.PlayerOrder g' = models.PlayerOrder g ∧
    models.ID g' = models.ID g ∧
    (models.Status g' = models.GameStatusFinished ∧
       models.Winner g' = (handlers.getPlayerIDFromContext req rnd).1 ∧
       holds_line (models.Board g') (models.Emoji player) ∧
       models.CurrentTurn g' = models.CurrentTurn g
     ∨ models.Status g' = models.GameStatusDraw ∧ models.Winner g' = ""%string ∧
       game.IsBoardFull g' = true ∧ ¬ owned_line g' ∧
       models.CurrentTurn g' = models.CurrentTurn g
     ∨ models.Status g' = models.GameStatusActive ∧ models.Winner g' = ""%string ∧
       game.IsBoardFull g' = false ∧ ¬ owned_line g' ∧
       models.CurrentTurn g' = (1 - models.CurrentTurn g)%Z).
Proof.
  intros Hok Hrun HX Hget Hg Hp Hrow Hrowi Hcol Hcoli Hfin Hturn Hcell.
  pose proof (reachable_state_ok range box actions s Hok Hrun) as Hs.
  pose proof (so_objects _ _ (proj2 Hs) addr g Hg) as Hinv.
  pose proof (player_emoji_nonempty g _ player (gi_players _ _ Hinv) Hp) as He.
  destruct (GameMoveHandler_accepted range box req rnd po1 po2 s addr g player
              rowInt colInt row col Hok Hs HX Hget Hg Hp He Hrow Hrowi Hcol Hcoli
              Hfin Hturn Hcell)
    as (s' & spawned & Hrun' & _ & Hstore & Htable & _).
  destruct (after_move_facts range g _ player row col Hok Hinv Hp Hturn Hcell)
    as (Hb & Hc & Hpl & Ho & Hid & Hcases).
  exists s', (after_move range g player row col), spawned.
  split_and!; try done; by rewrite Hstore.
Qed.

Lemma accepted_move_effect_witness :
  ∃ s' g' spawned,
    handlers.GameMoveHandler demo_range demo_box (demo_request "a" "1" "1" "") []
      send_first send_first (state_of demo_setup) =
      Ok (s', {| handlers.set_cookie := None;
                 handlers.body := handlers.BoardMarkup "01000000" (models.Board g') |},
          spawned) ∧
    models.cell (models.Board g') models.I1 models.I1 = "🐱"%string ∧
    models.MoveCount g' = 1%Z ∧
    models.Status g' = models.GameStatusActive ∧
    models.CurrentTurn g' = 1%Z.
Proof.
  destruct (accepted_move_effect demo_range demo_box demo_setup (state_of demo_setup)
              (demo_request "a" "1" "1" "") [] send_first send_first
              0 (game_at (state_of demo_setup) 0)
              {| models.PlayerID := "a"; models.Emoji := "🐱"; models.JoinedAt := 7 |}
              1 1 models.I1 models.I1 demo_range_ok demo_setup_runs)
    as (s' & g' & spawned & Hrun & _ & _ & _ & Hb & Hc & _ & _ & _ & Hcases);
    try (by vm_compute).
  exists s', g', spawned. split; [exact Hrun |].
  rewrite Hb, Hc. split; [by vm_compute |]. split; [by vm_compute |].
  destruct Hcases as [(_ & _ & Hline & _) | [(_ & _ & Hfull & _) | (Ha & _ & _ & _ & Ht)]].
  - exfalso. rewrite Hb in Hline. destruct Hline as (p & q & r & Hin & Hcp & Hcq & Hcr).
    vm_compute in Hin.
    repeat (apply elem_of_cons in Hin as [[=] | Hin]; subst;
            [vm_compute in Hcp, Hcq, Hcr; congruence |]).
    by apply elem_of_nil in Hin.
  - exfalso. unfold game.IsBoardFull in Hfull. rewrite Hb in Hfull.
    vm_compute in Hfull. discriminate Hfull.
  - split; [exact Ha |]. rewrite Ht. by vm_compute.
Defined.

(** X16: in a game of a state the handlers have led to, [IsPlayersTurn]
    returns, and it says yes to a player id that is not empty exactly when
    the game is active, has two players, and the id is the one at the index
    of the join order given by the number of filled cells modulo two: the
    player who joined first moves on a board with an even number of emojis,
    the other one on a board with an odd number. *)
Theorem turn_follows_filled_cells (range : game.range_order) (box : handlers.boxing)
    (actions : list handlers.action) (s : handlers.State)
    (addr : nat) (g : models.Game) (playerID : string) :
  game.range_ok range →
  handlers.serve_all range box actions handlers.initial_state = Ok s →
  game.objects (handlers.store s) !! addr = Some g →
  playerID ≠ ""%string →
  (∃ b, game.IsPlayersTurn g playerID = Ok b) ∧
  (game.IsPlayersTurn g playerID = Ok true ↔
   models.Status g = models.GameStatusActive ∧
   size (models.Players g) = 2 ∧
   models.PlayerOrder g !! (filled_cells (models.Board g) mod 2) = Some playerID).
Proof.
  intros Hok Hrun Hg Hne.
  pose proof (reachable_state_ok range box actions s Hok Hrun) as Hs.
  pose proof (so_objects _ _ (proj2 Hs) addr g Hg) as Hinv.
  split; [by eapply IsPlayersTurn_returns | by eapply IsPlayersTurn_spec].
Qed.

Lemma turn_follows_filled_cells_witness :
  game.IsPlayersTurn
    (game_at (state_of (demo_setup ++ [demo_move "a" "1" "1"])) 0) "b" = Ok true ↔
  models.Status (game_at (state_of (demo_setup ++ [demo_move "a" "1" "1"])) 0) =
    models.GameStatusActive ∧
  size (models.Players (game_at (state_of (demo_setup ++ [demo_move "a" "1" "1"])) 0)) = 2 ∧
  models.PlayerOrder (game_at (state_of (demo_setup ++ [demo_move "a" "1" "1"])) 0)
    !! (filled_cells
          (models.Board (game_at (state_of (demo_setup ++ [demo_move "a" "1" "1"])) 0))
        mod 2) = Some "b"%string.
Proof.
  apply (turn_follows_filled_cells demo_range demo_box
           (demo_setup ++ [demo_move "a" "1" "1"])
           (state_of (demo_setup ++ [demo_move "a" "1" "1"])) 0 _ "b" demo_range_ok).
  - by vm_compute.
  - by vm_compute.
  - discriminate.
Defined.

(** ** Every state the handlers lead to *)

Lemma IsBoardFull_true g :
  game.IsBoardFull g = true ↔
  ∀ row col, models.cell (models.Board g) row col ≠ ""%string.
Proof.
  unfold game.IsBoardFull. split.
  - intros Hall row col.
    rewrite forallb_forall in Hall.
    assert (Hrow : In row models.indices) by (destruct row; simpl; tauto).
    pose proof (Hall row Hrow) as Hcols. rewrite forallb_forall in Hcols.
    assert (Hcol : In col models.indices) by (destruct col; simpl; tauto).
    pose proof (Hcols col Hcol) as Hc. by apply bool_decide_eq_true in Hc.
  - intros Hall. apply forallb_forall. intros row _.
    apply forallb_forall. intros col _. by apply bool_decide_eq_true.
Qed.

Lemma IsBoardFull_false g :
  game.IsBoardFull g = false ↔
  ∃ row col, models.cell (models.Board g) row col = ""%string.
Proof.
  split.
  - intros Hfalse. unfold game.IsBoardFull in Hfalse.
    apply forallb_false_elem in Hfalse as (row & _ & Hrow).
    apply forallb_false_elem in Hrow as (col & _ & Hcol).
    apply bool_decide_eq_false in Hcol. exists row, col.
    by destruct (decide (models.cell (models.Board g) row col = ""%string)).
  - intros (row & col & Hcell).
    destruct (game.IsBoardFull g) eqn:Hfull; [| done].
    by destruct (proj1 (IsBoardFull_true g) Hfull row col).
Qed.

(** X17: no sequence of requests and of steps of the event layer, from the
    start of the process, makes a handler panic: the index
    [PlayerOrder[CurrentTurn]] of [GetCurrentPlayerID] is in range and
    [Players[winnerID]] is a player wherever a handler gets there. In the
    state reached every id [GetGame] knows leads to a game that carries that
    id, and the registry of subscribers is well formed. *)
Theorem handlers_never_panic (range : game.range_order) (box : handlers.boxing)
    (actions : list handlers.action) :
  game.range_ok range →
  ∃ s,
    handlers.serve_all range box actions handlers.initial_state = Ok s ∧
    wf (handlers.world s) ∧
    ∀ id addr, game.GetGame id (handlers.store s) = Some addr →
      ∃ g, handlers.load addr s = Ok g ∧ models.ID g = id.
Proof.
  intros Hok.
  destruct (serve_all_ok range box actions Hok _ (initial_state_ok range))
    as (s & Hrun & Hwf & Hstore).
  exists s. split; [done |]. split; [done |].
  intros id addr Hget.
  destruct (load_ok range s id addr Hstore Hget) as (g & _ & Hload & Hid & _).
  by exists g.
Qed.

Lemma handlers_never_panic_witness :
  ∃ s,
    handlers.serve_all demo_range demo_box
      (demo_setup ++
       [demo_move "a" "0" "0"; demo_move "b" "1" "1"; demo_move "a" "0" "1";
        demo_move "b" "2" "2"; demo_move "a" "0" "2"; demo_move "b" "2" "0";
        handlers.Reset (demo_request "b" "" "" "") send_first done_first])
      handlers.initial_state = Ok s ∧
    ∃ g, handlers.load 0 s = Ok g ∧ models.ID g = "01000000"%string.
Proof.
  destruct (handlers_never_panic demo_range demo_box
      (demo_setup ++
       [demo_move "a" "0" "0"; demo_move "b" "1" "1"; demo_move "a" "0" "1";
        demo_move "b" "2" "2"; demo_move "a" "0" "2"; demo_move "b" "2" "0";
        handlers.Reset (demo_request "b" "" "" "") send_first done_first])
      demo_range_ok) as (s & Hrun & _ & Hids).
  exists s. split; [exact Hrun |].
  apply Hids.
  vm_compute in Hrun. injection Hrun as <-. by vm_compute.
Defined.

(** X18: in every state the handlers lead to, a stored game has at most two
    players; its join order lists exactly its players, once each; every
    player is stored under its own id, which is not empty, and has an emoji
    of the list of available ones that no other player of the game has. *)
Theorem stored_players_consistent (range : game.range_order) (box : handlers.boxing)
    (actions : list handlers.action) (s : handlers.State) (addr : nat) (g : models.Game) :
  game.range_ok range →
  handlers.serve_all range box actions handlers.initial_state = Ok s →
  game.objects (handlers.store s) !! addr = Some g →
  size (models.Players g) ≤ 2 ∧
  NoDup (models.PlayerOrder g) ∧
  (∀ pID, pID ∈ models.PlayerOrder g ↔ is_Some (models.Players g !! pID)) ∧
  (∀ pID player, models.Players g !! pID = Some player →
     models.PlayerID player = pID ∧ pID ≠ ""%string ∧
     models.Emoji player ∈ models.AvailableEmojis ∧
     ∀ pID' player', models.Players g !! pID' = Some player' →
       models.Emoji player' = models.Emoji player → pID' = pID).
Proof.
  intros Hok Hrun Hg.
  pose proof (reachable_state_ok range box actions s Hok Hrun) as Hs.
  pose proof (so_objects _ _ (proj2 Hs) addr g Hg) as Hinv.
  destruct (gi_players _ _ Hinv) as [Hsize Hnd Hdom Hid Hvalid Huniq].
  split_and!; try done.
  intros pID player Hp.
  split; [by eapply Hid |].
  split; [apply (gi_ids _ _ Hinv); by eexists |].
  split; [by eapply Hvalid |].
  intros pID' player' Hp' He. by eapply Huniq.
Qed.

Lemma stored_players_consistent_witness :
  NoDup (models.PlayerOrder (game_at (state_of demo_setup) 0)).
Proof.
  apply (stored_players_consistent demo_range demo_box demo_setup
           (state_of demo_setup) 0 _ demo_range_ok demo_setup_runs).
  by vm_compute.
Defined.

(** X19: in every state the handlers lead to, the move count of a stored
    game is the number of cells of its board that hold an emoji, every such
    cell holds the emoji of a player of the game, the turn is 0 or 1, and a
    game with fewer than two players has an empty board and no winner. *)
Theorem move_count_is_filled_cells (range : game.range_order) (box : handlers.boxing)
    (actions : list handlers.action) (s : handlers.State) (addr : nat) (g : models.Game) :
  game.range_ok range →
  handlers.serve_all range box actions handlers.initial_state = Ok s →
  game.objects (handlers.store s) !! addr = Some g →
  models.MoveCount g = Z.of_nat (filled_cells (models.Board g)) ∧
  (0 ≤ models.MoveCount g ≤ 9)%Z ∧
  (∀ row col, models.cell (models.Board g) row col ≠ ""%string →
     ∃ pID player, models.Players g !! pID = Some player ∧
       models.Emoji player = models.cell (models.Board g) row col) ∧
  (models.CurrentTurn g = 0%Z ∨ models.CurrentTurn g = 1%Z) ∧
  (size (models.Players g) < 2 →
     models.Board g = models.empty_board ∧ models.Winner g = ""%string).
Proof.
  intros Hok Hrun Hg.
  pose proof (reachable_state_ok range box actions s Hok Hrun) as Hs.
  destruct (so_objects _ _ (proj2 Hs) addr g Hg)
    as [_ _ Hturn Hcount Hcells Hfew _].
  pose proof (filled_cells_bound (models.Board g)).
  split_and!; try done; lia.
Qed.

Lemma move_count_is_filled_cells_witness :
  models.MoveCount
    (game_at (state_of (demo_setup ++ [demo_move "a" "1" "1"; demo_move "b" "0" "2"])) 0) =
  Z.of_nat
    (filled_cells
       (models.Board
          (game_at (state_of (demo_setup ++ [demo_move "a" "1" "1"; demo_move "b" "0" "2"]))
                   0))).
Proof.
  apply (move_count_is_filled_cells demo_range demo_box
           (demo_setup ++ [demo_move "a" "1" "1"; demo_move "b" "0" "2"])
           (state_of (demo_setup ++ [demo_move "a" "1" "1"; demo_move "b" "0" "2"]))
           0 _ demo_range_ok).
  - by vm_compute.
  - by vm_compute.
Defined.

(** X20: what the status of a stored game says, in every state the handlers
    lead to. A waiting game has fewer than two players. An active game has
    no winner, no line filled with a player's emoji, an empty cell, and the
    turn is the number of filled cells modulo two. A finished game has two
    players and its winner is one of them, whose emoji fills a line. A
    drawn game has two players, no winner, no empty cell and no line filled
    with a player's emoji. No game is ever ready or full. *)
Theorem status_matches_board (range : game.range_order) (box : handlers.boxing)
    (actions : list handlers.action) (s : handlers.State) (addr : nat) (g : models.Game) :
  game.range_ok range →
  handlers.serve_all range box actions handlers.initial_state = Ok s →
  game.objects (handlers.store s) !! addr = Some g →
  match models.Status g with
  | models.GameStatusWaiting => size (models.Players g) < 2
  | models.GameStatusActive =>
      models.Winner g = ""%string ∧ ¬ owned_line g ∧
      (∃ row col, models.cell (models.Board g) row col = ""%string) ∧
      models.CurrentTurn g = Z.of_nat (filled_cells (models.Board g) mod 2)
  | models.GameStatusFinished =>
      size (models.Players g) = 2 ∧
      ∃ player, models.Players g !! models.Winner g = Some player ∧
                holds_line (models.Board g) (models.Emoji player)
  | models.GameStatusDraw =>
      size (models.Players g) = 2 ∧ models.Winner g = ""%string ∧
      (∀ row col, models.cell (models.Board g) row col ≠ ""%string) ∧
      ¬ owned_line g
  | models.GameStatusReady | models.GameStatusFull => False
  end.
Proof.
  intros Hok Hrun Hg.
  pose proof (reachable_state_ok range box actions s Hok Hrun) as Hs.
  pose proof (so_objects _ _ (proj2 Hs) addr g Hg) as Hinv.
  pose proof (gi_status _ _ Hinv) as Hst.
  pose proof (CheckWinner_none range g Hok (gi_ids _ _ Hinv)) as Hnone.
  destruct (models.Status g); try done.
  - destruct Hst as (Hw & Hc & Hfull & Hturn).
    split_and!; [done | by apply Hnone | by apply IsBoardFull_false |].
    rewrite Hturn, (gi_count _ _ Hinv).
    change 2%Z with (Z.of_nat 2). by rewrite <- Nat2Z.inj_mod.
  - destruct Hst as (H2 & Hw & Hc). split; [done |].
    destruct (CheckWinner_owner range g _ Hok Hc Hw) as (player & Hp & _ & Hline).
    by exists player.
  - destruct Hst as (H2 & Hw & Hc & Hfull).
    split_and!; [done | done | by apply IsBoardFull_true | by apply Hnone].
Qed.

Lemma status_matches_board_witness :
  ∃ player,
    models.Players
      (game_at (state_of (demo_setup ++
         [demo_move "a" "0" "0"; demo_move "b" "1" "1"; demo_move "a" "0" "1";
          demo_move "b" "2" "2"; demo_move "a" "0" "2"])) 0) !! "a" = Some player ∧
    holds_line
      (models.Board
         (game_at (state_of (demo_setup ++
            [demo_move "a" "0" "0"; demo_move "b" "1" "1"; demo_move "a" "0" "1";
             demo_move "b" "2" "2"; demo_move "a" "0" "2"])) 0))
      (models.Emoji player).
Proof.
  pose proof (status_matches_board demo_range demo_box
    (demo_setup ++
       [demo_move "a" "0" "0"; demo_move "b" "1" "1"; demo_move "a" "0" "1";
        demo_move "b" "2" "2"; demo_move "a" "0" "2"])
    (state_of (demo_setup ++
       [demo_move "a" "0" "0"; demo_move "b" "1" "1"; demo_move "a" "0" "1";
        demo_move "b" "2" "2"; demo_move "a" "0" "2"]))
    0 (game_at (state_of (demo_setup ++
       [demo_move "a" "0" "0"; demo_move "b" "1" "1"; demo_move "a" "0" "1";
        demo_move "b" "2" "2"; demo_move "a" "0" "2"])) 0)
    demo_range_ok ltac:(by vm_compute) ltac:(by vm_compute)) as Hst.
  exact (proj2 Hst).
Defined.

(** ** Joining, resetting and creating through the handlers *)

Lemma save_same s addr g :
  game.objects (handlers.store s) !! addr = Some g → handlers.save addr g s = s.
Proof.
  intros Hg. destruct s as [[games objects] w]. unfold handlers.save. simpl in *.
  by rewrite list_insert_id.
Qed.

(** X21: in a state the handlers have led to, a request to join a game that
    exists, with an emoji chosen, is answered: with status 400 and the text
    of the error [AddPlayerToGame] returns, the state being as it was and no
    goroutine started; or, when it returns nil, with a redirect to the
    emoji page for the first player of the game and to the game page for
    the second, the stored game being the one [AddPlayerToGame] made. The
    last branch of the handler, for a player who is neither, is never
    taken. The set of registered subscribers is not changed. *)
Theorem join_request_outcome (range : game.range_order) (box : handlers.boxing)
    (actions : list handlers.action) (s : handlers.State)
    (req : handlers.Request) (rnd : list byte) (now : nat) (po1 po2 : nat → pollorder)
    (addr : nat) (g : models.Game) :
  game.range_ok range →
  handlers.serve_all range box actions handlers.initial_state = Ok s →
  game.GetGame (handlers.Param_id req) (handlers.store s) = Some addr →
  game.objects (handlers.store s) !! addr = Some g →
  handlers.PostForm_emoji req ≠ ""%string →
  let joined :=
    game.AddPlayerToGame range g (handlers.getPlayerIDFromContext req rnd).1
      (handlers.PostForm_emoji req) now in
  ∃ s' spawned,
    handlers.EmojiSelectionSubmitHandler range req rnd now po1 po2 s =
      Ok (s',
          {| handlers.set_cookie := (handlers.getPlayerIDFromContext req rnd).2;
             handlers.body :=
               match joined.2 with
               | Some err => handlers.JSONError handlers.StatusBadRequest err
               | None =>
                   handlers.Redirect handlers.StatusSeeOther
                     (if decide (size (models.Players g) = 0)
                      then "/game/" +:+ handlers.Param_id req +:+ "/select-emoji"
                      else "/game/" +:+ handlers.Param_id req)
               end |},
          spawned) ∧
    game.games (handlers.store s') = game.games (handlers.store s) ∧
    game.objects (handlers.store s') = <[addr := joined.1]> (game.objects (handlers.store s)) ∧
    gameSubscribers (handlers.world s') = gameSubscribers (handlers.world s) ∧
    (joined.2 ≠ None → s' = s ∧ spawned = []).
Proof.
  intros Hok Hrun Hget Hg Hemoji joined.
  pose proof (reachable_state_ok range box actions s Hok Hrun) as Hs.
  pose proof (so_objects _ _ (proj2 Hs) addr g Hg) as Hinv.
  pose proof (getPlayerIDFromContext_nonempty req rnd) as Hpid.
  unfold handlers.EmojiSelectionSubmitHandler.
  rewrite Hget. unfold handlers.load at 1. rewrite Hg. simpl.
  unfold joined. clear joined.
  destruct (handlers.getPlayerIDFromContext req rnd) as [playerID cookie]. simpl in *.
  rewrite bool_decide_eq_false_2 by done.
  set (joined := game.AddPlayerToGame range g playerID (handlers.PostForm_emoji req) now).
  assert (Hsameid : models.ID joined.1 = models.ID g).
  { destruct (joined.2) eqn:Herr; unfold joined in *.
    - rewrite AddPlayerToGame_unchanged; [done | by rewrite Herr].
    - by destruct (AddPlayerToGame_joined range g playerID
                     (handlers.PostForm_emoji req) now Hok Herr)
        as (_ & _ & _ & _ & ->). }
  assert (Hs1 : state_ok range (handlers.save addr joined.1 s)).
  { eapply save_ok; [done | done | done | by apply game_inv_join]. }
  destruct (joined.2) as [err|] eqn:Herr.
  - assert (Hsame : joined.1 = g).
    { unfold joined. apply AddPlayerToGame_unchanged. fold joined. by rewrite Herr. }
    rewrite Hsame, (save_same s addr g Hg).
    eexists _, _. split; [done |].
    split_and!; try done. by rewrite list_insert_id.
  - destruct (AddPlayerToGame_joined range g playerID (handlers.PostForm_emoji req) now
                Hok Herr) as (_ & _ & _ & _ & Heq).
    fold joined in Heq.
    match goal with |- context [handlers.broadcast ?id ?e po1 ?s1] =>
      destruct (broadcast_ok range id e po1 s1 Hs1)
        as (s2 & sp1 & -> & Hs2 & Hst2 & Ht2 & _)
    end. simpl.
    destruct (decide (size (models.Players g) = 0)) as [H0 | H0].
    + rewrite bool_decide_eq_true_2 by done.
      eexists _, _. split; [done |]. rewrite Hst2. by split_and!.
    + rewrite bool_decide_eq_false_2 by done.
      assert (Hactive : models.Status joined.1 = models.GameStatusActive).
      { by rewrite Heq. }
      rewrite bool_decide_eq_true_2 by done.
      match goal with |- context [handlers.broadcast ?id ?e po2 ?s1] =>
        destruct (broadcast_ok range id e po2 s1 Hs2)
          as (s3 & sp2 & -> & Hs3 & Hst3 & Ht3 & _)
      end. simpl.
      eexists _, _. split; [done |]. rewrite Hst3, Hst2, Ht3, Ht2. by split_and!.
Qed.

Lemma join_request_outcome_witness :
  ∃ s' spawned,
    handlers.EmojiSelectionSubmitHandler demo_range
      (demo_request "b" "" "" "🚀") [] 8 send_first send_first
      (state_of (take 2 demo_setup)) =
      Ok (s', {| handlers.set_cookie := None;
                 handlers.body :=
                   handlers.Redirect handlers.StatusSeeOther "/game/01000000" |},
          spawned).
Proof.
  destruct (join_request_outcome demo_range demo_box (take 2 demo_setup)
              (state_of (take 2 demo_setup)) (demo_request "b" "" "" "🚀") [] 8
              send_first send_first 0 (game_at (state_of (take 2 demo_setup)) 0)
              demo_range_ok)
    as (s' & spawned & Hrun & _); try (by vm_compute).
  by exists s', spawned.
Defined.

(** X22: in a state the handlers have led to, a reset request from HTMX for
    a game that exists is answered with the markup of the empty board; the
    game stored at the same address has an empty board, no winner, no move
    made and the turn at 0, and is active with the players and the join
    order it had, whatever its status and the number of its players were.
    After the reset of a game with fewer than two players it is nobody's
    turn. Nothing else in the store changes, and nobody is registered or
    deregistered. *)
Theorem reset_effect (range : game.range_order) (box : handlers.boxing)
    (actions : list handlers.action) (s : handlers.State)
    (req : handlers.Request) (po1 po2 : nat → pollorder)
    (addr : nat) (g : models.Game) :
  game.range_ok range →
  handlers.serve_all range box actions handlers.initial_state = Ok s →
  handlers.Header_HX_Request req = "true"%string →
  game.GetGame (handlers.Param_id req) (handlers.store s) = Some addr →
  game.objects (handlers.store s) !! addr = Some g →
  ∃ s' g' spawned,
    handlers.GameResetHandler box req po1 po2 s =
      Ok (s',
          {| handlers.set_cookie := None;
             handlers.body :=
               handlers.BoardMarkup (handlers.Param_id req) models.empty_board |},
          spawned) ∧
    game.games (handlers.store s') = game.games (handlers.store s) ∧
    game.objects (handlers.store s') = <[addr := g']> (game.objects (handlers.store s)) ∧
    gameSubscribers (handlers.world s') = gameSubscribers (handlers.world s) ∧
    g' = {| models.ID := models.ID g;
            models.Board := models.empty_board;
            models.Players := models.Players g;
            models.PlayerOrder := models.PlayerOrder g;
            models.Status := models.GameStatusActive;
            models.CurrentTurn := 0;
            models.Winner := "";
            models.MoveCount := 0 |} ∧
    (size (models.Players g) < 2 →
     ∀ playerID, is_Some (models.Players g !! playerID) →
       game.IsPlayersTurn g' playerID = Ok false).
Proof.
  intros Hok Hrun HX Hget Hg.
  pose proof (reachable_state_ok range box actions s Hok Hrun) as Hs.
  pose proof (so_objects _ _ (proj2 Hs) addr g Hg) as Hinv.
  pose proof (game_inv_reset range g Hinv) as Hinv'.
  unfold handlers.GameResetHandler.
  rewrite HX, bool_decide_eq_true_2 by done. simpl. rewrite Hget.
  unfold handlers.load at 1. rewrite Hg. simpl.
  match goal with |- context [handlers.save addr ?g' s] =>
    assert (Hs1 : state_ok range (handlers.save addr g' s))
      by (eapply save_ok; [done | done | done | exact Hinv']);
    assert (Hlook : game.objects (handlers.store (handlers.save addr g' s)) !! addr = Some g')
      by (simpl; apply list_lookup_insert_eq; by eapply lookup_lt_Some)
  end.
  match goal with |- context [handlers.broadcast ?id ?e po1 ?s1] =>
    destruct (broadcast_ok range id e po1 s1 Hs1) as (s2 & sp1 & -> & Hs2 & Hst2 & Ht2 & _)
  end. simpl.
  destruct (broadcast_status_ok range (handlers.Param_id req) addr po2 s2 Hs2)
    as (s3 & sp2 & -> & Hs3 & Hst3 & Ht3 & _). simpl.
  destruct (render_ok range (handlers.Param_id req) s3 None (sp1 ++ sp2) (proj2 Hs3))
    as (r & -> & Hr).
  assert (Hget3 : game.GetGame (handlers.Param_id req) (handlers.store s3) = Some addr)
    by (by rewrite Hst3, Hst2).
  rewrite Hst3, Hst2 in Hr. rewrite (Hr addr _ Hget Hlook).
  eexists _, _, _. split; [done |].
  rewrite Hst3, Hst2, Ht3, Ht2. split_and!; try done.
  intros Hfew playerID Hin.
  destruct (IsPlayersTurn_returns range _ playerID Hinv') as [[] Hb]; [| exact Hb].
  apply (IsPlayersTurn_spec range _ playerID Hinv') in Hb as (_ & H2 & _).
  - simpl in H2. lia.
  - by apply (gi_ids _ _ Hinv).
Qed.

Lemma reset_effect_witness :
  ∃ s' g' spawned,
    handlers.GameResetHandler demo_box (demo_request "a" "" "" "") send_first send_first
      (state_of (take 2 demo_setup)) =
      Ok (s', {| handlers.set_cookie := None;
                 handlers.body := handlers.BoardMarkup "01000000" models.empty_board |},
          spawned) ∧
    models.Status g' = models.GameStatusActive ∧
    game.IsPlayersTurn g' "a" = Ok false.
Proof.
  destruct (reset_effect demo_range demo_box (take 2 demo_setup)
              (state_of (take 2 demo_setup)) (demo_request "a" "" "" "")
              send_first send_first 0 (game_at (state_of (take 2 demo_setup)) 0)
              demo_range_ok)
    as (s' & g' & spawned & Hrun & _ & _ & _ & Hg' & Hturn); try (by vm_compute).
  exists s', g', spawned. split; [exact Hrun |]. split; [by rewrite Hg' |].
  apply Hturn; [vm_compute; lia | vm_compute; by eexists].
Defined.

(** X23: [NewGameHandler] always answers with a redirect to the emoji page
    of an id of eight characters, and [GetGame] then returns, for that id, a
    new game: waiting, without players, with an empty board. When the store
    already had a game under the id, the id now leads to the new game. The
    other ids lead where they led, every game is where it was, and the
    subscribers are untouched. *)
Theorem new_game_is_stored (rnd : list byte) (s : handlers.State) :
  let id := game.generateGameID rnd in
  ∃ s' addr,
    handlers.NewGameHandler rnd s =
      Ok (s',
          {| handlers.set_cookie := None;
             handlers.body :=
               handlers.Redirect handlers.StatusSeeOther
                 ("/game/" +:+ id +:+ "/select-emoji") |},
          []) ∧
    String.length id = 8 ∧
    game.GetGame id (handlers.store s') = Some addr ∧
    game.objects (handlers.store s') !! addr =
      Some {| models.ID := id;
              models.Board := models.empty_board;
              models.Players := ∅;
              models.PlayerOrder := [];
              models.Status := models.GameStatusWaiting;
              models.CurrentTurn := 0;
              models.Winner := "";
              models.MoveCount := 0 |} ∧
    (∀ id', id' ≠ id →
       game.GetGame id' (handlers.store s') = game.GetGame id' (handlers.store s)) ∧
    (∀ a g, game.objects (handlers.store s) !! a = Some g →
       game.objects (handlers.store s') !! a = Some g) ∧
    handlers.world s' = handlers.world s.
Proof.
  intros id. eexists _, (length (game.objects (handlers.store s))).
  split; [done |]. simpl. split_and!; try done.
  - unfold id, game.generateGameID. rewrite sprintf_x_length.
    by rewrite length_resize.
  - unfold game.GetGame. simpl. by rewrite lookup_insert_eq.
  - by rewrite lookup_app_r, Nat.sub_diag by lia.
  - intros id' Hne. unfold game.GetGame. simpl. by rewrite lookup_insert_ne.
  - intros a g Ha. by apply lookup_app_l_Some.
Qed.

Lemma string_length_app (s1 s2 : string) :
  String.length (s1 +:+ s2) = String.length s1 + String.length s2.
Proof. induction s1 as [|a s1 IH]; simpl; [done | by rewrite IH]. Qed.

(** X24: [generateGameID] returns eight characters and [GeneratePlayerID]
    twenty-three, whatever [rand.Read] wrote; two four-byte buffers that
    differ give two game ids that differ, and two eight-byte buffers that
    differ give two player ids that differ. The id
    [getPlayerIDFromContext] returns is never empty: it is the cookie when
    there is one and it is not empty, and a new id, set as the cookie,
    otherwise. *)
Theorem generated_ids_distinct (rnd1 rnd2 : list byte) (req : handlers.Request) :
  String.length (game.generateGameID rnd1) = 8 ∧
  String.length (game.GeneratePlayerID rnd1) = 23 ∧
  (length rnd1 = 4 → length rnd2 = 4 →
   game.generateGameID rnd1 = game.generateGameID rnd2 → rnd1 = rnd2) ∧
  (length rnd1 = 8 → length rnd2 = 8 →
   game.GeneratePlayerID rnd1 = game.GeneratePlayerID rnd2 → rnd1 = rnd2) ∧
  (handlers.getPlayerIDFromContext req rnd1).1 ≠ ""%string ∧
  ((handlers.getPlayerIDFromContext req rnd1).2 = None →
   handlers.Cookie_player_id req = Some (handlers.getPlayerIDFromContext req rnd1).1) ∧
  ((handlers.getPlayerIDFromContext req rnd1).2 ≠ None →
   (handlers.Cookie_player_id req = None ∨ handlers.Cookie_player_id req = Some ""%string) ∧
   (handlers.getPlayerIDFromContext req rnd1).1 = game.GeneratePlayerID rnd1 ∧
   (handlers.getPlayerIDFromContext req rnd1).2 = Some (game.GeneratePlayerID rnd1)).
Proof.
  split_and!.
  - unfold game.generateGameID. by rewrite sprintf_x_length, length_resize.
  - unfold game.GeneratePlayerID.
    by rewrite string_length_app, sprintf_x_length, length_resize.
  - intros H1 H2 Heq. unfold game.generateGameID in Heq.
    apply sprintf_x_inj in Heq; [| by rewrite !length_resize].
    by rewrite <- H1, resize_all, H1, <- H2, resize_all in Heq.
  - intros H1 H2 Heq. unfold game.GeneratePlayerID in Heq. simpl in Heq.
    injection Heq as Heq.
    apply sprintf_x_inj in Heq; [| by rewrite !length_resize].
    by rewrite <- H1, resize_all, H1, <- H2, resize_all in Heq.
  - apply getPlayerIDFromContext_nonempty.
  - unfold handlers.getPlayerIDFromContext.
    destruct (handlers.Cookie_player_id req) as [v|]; [| done].
    by case_bool_decide.
  - unfold handlers.getPlayerIDFromContext.
    destruct (handlers.Cookie_player_id req) as [v|]; [| by intros _; split_and!; [left |..]].
    case_bool_decide as Hv; [| done]. subst v. intros _. by split_and!; [right |..].
Qed.

Lemma generated_ids_distinct_witness :
  game.generateGameID [x01; x02; x03; x04] ≠ game.generateGameID [x01; x02; x03; x05].
Proof.
  destruct (generated_ids_distinct [x01; x02; x03; x04] [x01; x02; x03; x05]
              (demo_request "a" "" "" "")) as (_ & _ & Hinj & _).
  intros Heq. by pose proof (Hinj eq_refl eq_refl Heq).
Defined.

(** X25: what the predicates of the rules say of a stored game, in every
    state the handlers lead to. [CanJoinGame] is false exactly when the game
    has two players, which is when [AddPlayerToGame] answers that the game
    is full; [IsFirstPlayer] is true of an id exactly when the join order is
    that id alone; [IsGameReady] is false exactly when the game is waiting;
    and [IsGameFinished] is true exactly when the game has a winner or is
    drawn. *)
Theorem predicates_on_stored_games (range : game.range_order) (box : handlers.boxing)
    (actions : list handlers.action) (s : handlers.State) (addr : nat) (g : models.Game) :
  game.range_ok range →
  handlers.serve_all range box actions handlers.initial_state = Ok s →
  game.objects (handlers.store s) !! addr = Some g →
  (game.CanJoinGame g = false ↔ size (models.Players g) = 2) ∧
  (∀ playerID emoji now,
     game.CanJoinGame g = false ↔
     (game.AddPlayerToGame range g playerID emoji now).2 = Some "game is full"%string) ∧
  (∀ playerID, game.IsFirstPlayer g playerID = true ↔ models.PlayerOrder g = [playerID]) ∧
  (game.IsGameReady g = false ↔ models.Status g = models.GameStatusWaiting) ∧
  (game.IsGameFinished g = true ↔
   models.Winner g ≠ ""%string ∨ models.Status g = models.GameStatusDraw).
Proof.
  intros Hok Hrun Hg.
  pose proof (reachable_state_ok range box actions s Hok Hrun) as Hs.
  pose proof (so_objects _ _ (proj2 Hs) addr g Hg) as Hinv.
  pose proof (gi_players _ _ Hinv) as Hp.
  pose proof (ok_size _ Hp) as Hsize. unfold models.MaxPlayersPerGame in Hsize.
  pose proof (players_ok_length g Hp) as Hlen.
  pose proof (gi_status _ _ Hinv) as Hst.
  assert (Hcan : game.CanJoinGame g = false ↔ size (models.Players g) = 2).
  { unfold game.CanJoinGame, models.MaxPlayersPerGame.
    rewrite bool_decide_eq_false. lia. }
  split_and!.
  - done.
  - intros playerID emoji now. rewrite Hcan.
    unfold game.AddPlayerToGame, models.MaxPlayersPerGame.
    case_bool_decide as Hfull; simpl.
    + split; [done | lia].
    + split; [lia |]. intros Herr. exfalso.
      repeat (case_bool_decide || case_match || simpl in Herr); simplify_eq.
  - intros playerID. unfold game.IsFirstPlayer.
    rewrite andb_true_iff, !bool_decide_eq_true. split.
    + intros [H1 Hin]. apply (ok_order_dom _ Hp) in Hin.
      destruct (models.PlayerOrder g) as [|x [|y rest]]; simpl in Hlen; try lia.
      by apply list_elem_of_singleton in Hin as ->.
    + intros Horder. rewrite Horder in Hlen. simpl in Hlen. split; [done |].
      apply (ok_order_dom _ Hp). rewrite Horder. by apply list_elem_of_singleton.
  - unfold game.IsGameReady. destruct (models.Status g); simpl; naive_solver.
  - unfold game.IsGameFinished.
    destruct (models.Status g) eqn:Hstatus; simpl; try done.
    + split; [done |]. intros [Hw | ?]; [| done].
      by destruct (gi_few _ _ Hinv Hst) as [_ Hw'].
    + split; [done |]. intros [Hw | ?]; [| done]. by destruct Hst as (Hw' & _).
    + split; [| done]. intros _. left. by destruct Hst as (_ & Hw & _).
    + split; [| done]. intros _. by right.
Qed.

Lemma predicates_on_stored_games_witness :
  game.IsFirstPlayer (game_at (state_of (take 2 demo_setup)) 0) "a" = true ↔
  models.PlayerOrder (game_at (state_of (take 2 demo_setup)) 0) = ["a"%string].
Proof.
  destruct (predicates_on_stored_games demo_range demo_box (take 2 demo_setup)
              (state_of (take 2 demo_setup)) 0
              (game_at (state_of (take 2 demo_setup)) 0) demo_range_ok)
    as (_ & _ & Hfirst & _); [by vm_compute | by vm_compute |].
  apply Hfirst.
Defined.
